(** * whipper.image.table : the table of contents of a compact disc

    A shallow embedding of [whipper/image/table.py] (Python 2) and the
    properties of its offset arithmetic, disc identifiers, cue sheet and
    mutators.

    Conventions of the embedding.
    - Python integers are [Z]; [/] and [%] on them are Python 2's floor
      division and modulo, which is what [Z.div] and [Z.modulo] compute.
    - An attribute that may hold [None] is an [option].
    - A method that can raise returns a [result]; a method that mutates the
      table returns the table it leaves behind together with the outcome,
      because an exception does not undo the writes made before it.
    - A [dict] is an association list in the iteration order of the dict
      ([keys()], [values()]); Python 2 leaves that order unspecified, and
      the methods that need an order sort the keys themselves. *)

From Stdlib Require Import ZArith List String Ascii Bool Lia Sorted.
From stdpp Require Import base option list gmap strings.

Local Open Scope string_scope.
Local Open Scope list_scope.
Local Open Scope Z_scope.

(** ** Exceptions and results *)

Inductive exn : Type :=
| IndexError
| KeyError
| ValueError
| TypeError
| AssertionError.

Inductive result (A : Type) : Type :=
| Ok (a : A)
| Raise (e : exn).

Arguments Ok {A} a.
Arguments Raise {A} e.

Definition rbind {A B : Type} (c : result A) (k : A -> result B) : result B :=
  match c with
  | Ok a => k a
  | Raise e => Raise e
  end.

Notation "'let*' x ':=' c 'in' k" := (rbind c (fun x => k))
  (at level 10, x pattern, c at level 100, k at level 200).

(** Arithmetic on a value that may be [None] raises [TypeError]. *)
Definition as_int (v : option Z) : result Z :=
  match v with
  | Some z => Ok z
  | None => Raise TypeError
  end.

Definition py_assert (b : bool) : result unit :=
  if b then Ok tt else Raise AssertionError.

(** [l[i]] on a Python list: a negative index counts from the end. *)
Definition py_norm (n i : Z) : Z := if i <? 0 then i + n else i.

Definition py_getitem {A : Type} (l : list A) (i : Z) : result A :=
  let j := py_norm (Z.of_nat (length l)) i in
  if j <? 0 then Raise IndexError
  else match l !! Z.to_nat j with
       | Some x => Ok x
       | None => Raise IndexError
       end.

(** Python 2 orders [None] below every integer. *)
Definition py2_gt (a b : option Z) : bool :=
  match a, b with
  | Some x, Some y => y <? x
  | Some _, None => true
  | None, _ => false
  end.

(** Truth value of an optional string, an optional integer. *)
Definition truthy_str (s : option string) : bool :=
  match s with
  | Some s => negb (String.eqb s "")
  | None => false
  end.

Definition truthy_int (v : option Z) : bool :=
  match v with
  | Some z => negb (z =? 0)
  | None => false
  end.

(** ** Index *)

Module Index.
Record t : Type := mk {
  number : Z;
  absolute : option Z;
  path : option string;
  relative : option Z;
  counter : option Z
}.

Definition set_absolute (v : option Z) (i : t) : t :=
  mk (number i) v (path i) (relative i) (counter i).
Definition set_path (v : option string) (i : t) : t :=
  mk (number i) (absolute i) v (relative i) (counter i).
Definition set_relative (v : option Z) (i : t) : t :=
  mk (number i) (absolute i) (path i) v (counter i).
Definition set_counter (v : option Z) (i : t) : t :=
  mk (number i) (absolute i) (path i) (relative i) v.
End Index.

(** ** Dictionaries keyed by integers, in iteration order *)

Definition dict (V : Type) : Type := list (Z * V).

Definition keys {V : Type} (d : dict V) : list Z := map fst d.
Definition values {V : Type} (d : dict V) : list V := map snd d.

Fixpoint dict_get {V : Type} (d : dict V) (k : Z) : option V :=
  match d with
  | [] => None
  | (k', v) :: d' => if k' =? k then Some v else dict_get d' k
  end.

(** [d[k]], raising [KeyError]. *)
Definition dict_getitem {V : Type} (d : dict V) (k : Z) : result V :=
  match dict_get d k with
  | Some v => Ok v
  | None => Raise KeyError
  end.

(** In-place update of the object stored under [k]. *)
Fixpoint dict_alter {V : Type} (f : V -> V) (k : Z) (d : dict V) : dict V :=
  match d with
  | [] => []
  | (k', v) :: d' =>
      if k' =? k then (k', f v) :: d' else (k', v) :: dict_alter f k d'
  end.

(** [l.index(x)]: the first position of [x], or [ValueError]. *)
Fixpoint list_index (l : list Z) (x : Z) : result Z :=
  match l with
  | [] => Raise ValueError
  | y :: l' => if y =? x then Ok 0
               else let* p := list_index l' x in Ok (p + 1)
  end.

(** [l.sort()] on a list of integers. *)
Fixpoint insert_sorted (x : Z) (l : list Z) : list Z :=
  match l with
  | [] => [x]
  | y :: l' => if x <=? y then x :: l else y :: insert_sorted x l'
  end.

Definition sorted_keys (l : list Z) : list Z := fold_right insert_sorted [] l.

(** ** Track *)

Module Track.
Record t : Type := mk {
  number : Z;
  audio : bool;
  indexes : dict Index.t;
  isrc : option string;
  cdtext : gmap string string;
  session : option Z;
  pre_emphasis : option bool
}.

Definition set_indexes (d : dict Index.t) (tr : t) : t :=
  mk (number tr) (audio tr) d (isrc tr) (cdtext tr) (session tr)
     (pre_emphasis tr).
Definition set_number (n : Z) (tr : t) : t :=
  mk n (audio tr) (indexes tr) (isrc tr) (cdtext tr) (session tr)
     (pre_emphasis tr).
Definition set_session (s : option Z) (tr : t) : t :=
  mk (number tr) (audio tr) (indexes tr) (isrc tr) (cdtext tr) s
     (pre_emphasis tr).

Definition getIndex (tr : t) (n : Z) : result Index.t :=
  dict_getitem (indexes tr) n.

Definition getFirstIndex (tr : t) : result Index.t :=
  let ks := sorted_keys (keys (indexes tr)) in
  let* k := py_getitem ks 0 in
  dict_getitem (indexes tr) k.

Definition getLastIndex (tr : t) : result Index.t :=
  let ks := sorted_keys (keys (indexes tr)) in
  let* k := py_getitem ks (-1) in
  dict_getitem (indexes tr) k.
End Track.

(** ** Table *)

Record Table : Type := mkTable {
  tracks : list Track.t;
  leadout : option Z;
  catalog : option string;
  cdtext : gmap string string;
  mbdiscid : option string
}.

Definition set_tracks (l : list Track.t) (tb : Table) : Table :=
  mkTable l (leadout tb) (catalog tb) (cdtext tb) (mbdiscid tb).
Definition set_leadout (v : option Z) (tb : Table) : Table :=
  mkTable (tracks tb) v (catalog tb) (cdtext tb) (mbdiscid tb).
Definition set_mbdiscid (v : option string) (tb : Table) : Table :=
  mkTable (tracks tb) (leadout tb) (catalog tb) (cdtext tb) v.

Definition len_tracks (tb : Table) : Z := Z.of_nat (length (tracks tb)).

(** *** Session gap *)

Definition _getSessionGap (session : option Z) : Z :=
  if py2_gt session (Some 2) then 6900 else 11400.

(** *** Offsets *)

Definition getTrackStart (tb : Table) (number : Z) : result (option Z) :=
  let* track := py_getitem (tracks tb) (number - 1) in
  let* i := Track.getIndex track 1 in
  Ok (Index.absolute i).

Definition getTrackEnd (tb : Table) (number : Z) : result Z :=
  let* lo := as_int (leadout tb) in
  let end_ := lo - 1 in
  if number <? len_tracks tb then
    let* next := py_getitem (tracks tb) number in
    let* i := Track.getIndex next 1 in
    let* a := as_int (Index.absolute i) in
    let end_ := a - 1 in
    let* thisTrack := py_getitem (tracks tb) (number - 1) in
    let* nextTrack := py_getitem (tracks tb) number in
    if py2_gt (Track.session nextTrack) (Track.session thisTrack) then
      Ok (end_ - _getSessionGap (Track.session nextTrack))
    else Ok end_
  else Ok end_.

Definition getTrackLength (tb : Table) (number : Z) : result Z :=
  let* e := getTrackEnd tb number in
  let* s0 := getTrackStart tb number in
  let* s := as_int s0 in
  Ok (e - s + 1).

Definition getAudioTracks (tb : Table) : Z :=
  Z.of_nat (length (List.filter (fun t => Track.audio t) (tracks tb))).

Definition hasDataTracks (tb : Table) : bool :=
  0 <? Z.of_nat (length (List.filter (fun t => negb (Track.audio t))
                            (tracks tb))).

(** ** String formatting *)

Definition hex_digit (upper : bool) (d : Z) : ascii :=
  let lo := "0123456789abcdef" in
  let up := "0123456789ABCDEF" in
  match String.get (Z.to_nat d) (if upper then up else lo) with
  | Some c => c
  | None => "0"%char
  end.

(** The digits of a positive number, most significant first, in front of
    [acc]; a number below [2 ^ fuel] needs at most [fuel] digits. *)
Fixpoint hex_loop (upper : bool) (fuel : nat) (z : Z) (acc : string) : string :=
  match fuel with
  | O => acc
  | S fuel' =>
      if z <=? 0 then acc
      else hex_loop upper fuel' (z / 16)
             (String (hex_digit upper (z mod 16)) acc)
  end.

Definition hex (upper : bool) (z : Z) : string :=
  if z <=? 0 then "0"
  else hex_loop upper (S (Z.to_nat (Z.log2 z))) z "".

Fixpoint zeros (n : nat) : string :=
  match n with
  | O => ""
  | S n' => String "0" (zeros n')
  end.

Definition zfill (width : nat) (s : string) : string :=
  zeros (width - String.length s) +:+ s.

(** ["%0<width>x" % z] and ["%0<width>X" % z]: the sign counts in the
    width and the zeroes come after it. *)
Definition format_0x (upper : bool) (width : nat) (z : Z) : string :=
  if z <? 0 then String "-" (zfill (width - 1) (hex upper (- z)))
  else zfill width (hex upper z).

(** ** CDDB disc id *)

(** Modelled from the spec: [common.FRAMES_PER_SECOND] of [whipper.common],
    which is not part of the sources at hand; the spec fixes it at 75 frames
    per second. *)
Definition FRAMES_PER_SECOND : Z := 75.

(** The [while i > 0] loop of [_cddbSum]; every turn divides [i] by ten, so
    [S (log2 i)] turns are enough. *)
Fixpoint cddbSum_loop (fuel : nat) (ret i : Z) : Z :=
  match fuel with
  | O => ret
  | S fuel' =>
      if 0 <? i then cddbSum_loop fuel' (ret + i mod 10) (i / 10) else ret
  end.

Definition _cddbSum (i : Z) : Z :=
  cddbSum_loop (S (Z.to_nat (Z.log2 i))) 0 i.

(** The [for track in self.tracks] loop of [getCDDBValues]: [res] is the
    list of offsets appended so far, [n] the running checksum. *)
Fixpoint cddb_offsets (tb : Table) (l : list Track.t) (res : list Z) (n : Z)
  : result (list Z * Z) :=
  match l with
  | [] => Ok (res, n)
  | track :: l' =>
      let* s := getTrackStart tb (Track.number track) in
      let* s := as_int s in
      let offset := s + 2 * FRAMES_PER_SECOND in
      let seconds := offset / FRAMES_PER_SECOND in
      cddb_offsets tb l' (res ++ [offset]) (n + _cddbSum seconds)
  end.

Definition getCDDBValues (tb : Table) : result (list Z) :=
  let res := [getAudioTracks tb] in
  let* (res, n) := cddb_offsets tb (tracks tb) res 0 in
  let* last := py_getitem (tracks tb) (-1) in
  let* e := getTrackEnd tb (Track.number last) in
  let leadout := e + 1 in
  let* s := getTrackStart tb 1 in
  let* s := as_int s in
  let startSeconds := s / FRAMES_PER_SECOND in
  let leadoutSeconds := leadout / FRAMES_PER_SECOND in
  let t := leadoutSeconds - startSeconds in
  let res := res ++ [leadoutSeconds] in
  let value :=
    Z.lor (Z.lor (Z.shiftl (n mod 255) 24) (Z.shiftl t 8)) (len_tracks tb) in
  Ok (value :: res).

Definition getCDDBDiscId (tb : Table) : result string :=
  let* values := getCDDBValues tb in
  let* v := py_getitem values 0 in
  Ok (format_0x false 8 v).

(** ** MusicBrainz values *)

(** [range(a, b)]. *)
Definition py_range (a b : Z) : list Z :=
  map (fun k => a + Z.of_nat k) (seq 0 (Z.to_nat (b - a))).

(** The [for i in range(1, 100)] loop of [_getMusicBrainzValues]; the
    [IndexError] of [self.tracks[i - 1]] is swallowed, a [KeyError] or a
    [TypeError] is not. *)
Fixpoint mb_offsets (tb : Table) (rng : list Z) (res : list Z)
  : result (list Z) :=
  match rng with
  | [] => Ok res
  | i :: rng' =>
      match py_getitem (tracks tb) (i - 1) with
      | Raise _ => mb_offsets tb rng' res
      | Ok track =>
          if negb (Track.audio track) then mb_offsets tb rng' res
          else
            let* ix := Track.getIndex track 1 in
            let* a := as_int (Index.absolute ix) in
            mb_offsets tb rng' (res ++ [a + 150])
      end
  end.

Definition _getMusicBrainzValues (tb : Table) : result (list Z) :=
  let res := [1; getAudioTracks tb] in
  let* leadout :=
    if hasDataTracks tb then
      let* last := py_getitem (tracks tb) (-1) in
      let* _ := py_assert (negb (Track.audio last)) in
      let* ix := Track.getIndex last 1 in
      let* a := as_int (Index.absolute ix) in
      Ok (Some (a - 11250 - 150))
    else Ok (leadout tb) in
  let* lo := as_int leadout in
  let res := res ++ [150 + lo] in
  mb_offsets tb (py_range 1 100) res.

(** ** SHA-1 ([hashlib.sha1]) on lists of bytes *)

Module SHA1.
Definition mask32 : Z := 0xFFFFFFFF.
Definition w32 (x : Z) : Z := Z.land x mask32.
Definition add32 (a b : Z) : Z := w32 (a + b).
Definition rotl (n x : Z) : Z :=
  w32 (Z.lor (Z.shiftl x n) (Z.shiftr x (32 - n))).
Definition not32 (x : Z) : Z := Z.lxor x mask32.

(** Big-endian bytes of a 32-bit and of a 64-bit number. *)
Definition be32 (x : Z) : list Z :=
  [Z.land (Z.shiftr x 24) 255; Z.land (Z.shiftr x 16) 255;
   Z.land (Z.shiftr x 8) 255; Z.land x 255].
Definition be64 (x : Z) : list Z :=
  be32 (Z.shiftr x 32) ++ be32 (Z.land x mask32).

(** The message, a [0x80] byte, zeroes up to 56 modulo 64, and the
    length in bits. *)
Definition pad (msg : list Z) : list Z :=
  let n := Z.of_nat (length msg) in
  msg ++ [128] ++ repeat 0 (Z.to_nat ((55 - n) mod 64)) ++ be64 (8 * n).

Fixpoint words (l : list Z) : list Z :=
  match l with
  | b0 :: b1 :: b2 :: b3 :: r =>
      Z.lor (Z.lor (Z.shiftl b0 24) (Z.shiftl b1 16))
            (Z.lor (Z.shiftl b2 8) b3) :: words r
  | _ => []
  end.

(** The message schedule, kept newest word first while it grows. *)
Fixpoint extend (k : nat) (w : list Z) : list Z :=
  match k with
  | O => w
  | S k' =>
      let x := Z.lxor (Z.lxor (nth 2 w 0) (nth 7 w 0))
                      (Z.lxor (nth 13 w 0) (nth 15 w 0)) in
      extend k' (rotl 1 x :: w)
  end.

Definition schedule (block : list Z) : list Z :=
  rev (extend 64 (rev (words block))).

Definition state : Type := (Z * Z * Z * Z * Z)%type.

Definition round (s : state) (tw : nat * Z) : state :=
  let '(a, b, c, d, e) := s in
  let '(t, w) := tw in
  let '(f, k) :=
    if (t <? 20)%nat then
      (Z.lor (Z.land b c) (Z.land (not32 b) d), 0x5A827999)
    else if (t <? 40)%nat then
      (Z.lxor (Z.lxor b c) d, 0x6ED9EBA1)
    else if (t <? 60)%nat then
      (Z.lor (Z.lor (Z.land b c) (Z.land b d)) (Z.land c d), 0x8F1BBCDC)
    else
      (Z.lxor (Z.lxor b c) d, 0xCA62C1D6) in
  let temp := add32 (add32 (add32 (add32 (rotl 5 a) f) e) k) w in
  (temp, a, rotl 30 b, c, d).

Definition compress (h : state) (block : list Z) : state :=
  let w := schedule block in
  let '(a, b, c, d, e) := fold_left round (combine (seq 0 80) w) h in
  let '(h0, h1, h2, h3, h4) := h in
  (add32 h0 a, add32 h1 b, add32 h2 c, add32 h3 d, add32 h4 e).

(** One block of 64 bytes per unit of fuel. *)
Fixpoint blocks (fuel : nat) (h : state) (l : list Z) : state :=
  match fuel with
  | O => h
  | S fuel' =>
      match l with
      | [] => h
      | _ => blocks fuel' (compress h (firstn 64 l)) (skipn 64 l)
      end
  end.

Definition init : state :=
  (0x67452301, 0xEFCDAB89, 0x98BADCFE, 0x10325476, 0xC3D2E1F0).

Definition digest (msg : list Z) : list Z :=
  let p := pad msg in
  let '(h0, h1, h2, h3, h4) := blocks (length p) init p in
  be32 h0 ++ be32 h1 ++ be32 h2 ++ be32 h3 ++ be32 h4.
End SHA1.

Definition bytes_of_string (s : string) : list Z :=
  map (fun c => Z.of_N (N_of_ascii c)) (list_ascii_of_string s).

(** ** Base 64 ([base64.b64encode]) *)

Definition b64_alphabet : string :=
  "ABCDEFGHIJKLMNOPQRSTUVWXYZabcdefghijklmnopqrstuvwxyz0123456789+/".

Definition b64_char (i : Z) : ascii :=
  match String.get (Z.to_nat i) b64_alphabet with
  | Some c => c
  | None => "A"%char
  end.

Fixpoint b2a_base64 (l : list Z) : string :=
  match l with
  | [] => ""
  | [b0] =>
      String (b64_char (Z.shiftr b0 2))
        (String (b64_char (Z.shiftl (Z.land b0 3) 4)) "==")
  | [b0; b1] =>
      String (b64_char (Z.shiftr b0 2))
        (String (b64_char (Z.lor (Z.shiftl (Z.land b0 3) 4) (Z.shiftr b1 4)))
           (String (b64_char (Z.shiftl (Z.land b1 15) 2)) "="))
  | b0 :: b1 :: b2 :: r =>
      String (b64_char (Z.shiftr b0 2))
        (String (b64_char (Z.lor (Z.shiftl (Z.land b0 3) 4) (Z.shiftr b1 4)))
           (String (b64_char (Z.lor (Z.shiftl (Z.land b1 15) 2)
                                    (Z.shiftr b2 6)))
              (String (b64_char (Z.land b2 63)) (b2a_base64 r))))
  end.

Fixpoint str_map (f : ascii -> ascii) (s : string) : string :=
  match s with
  | EmptyString => EmptyString
  | String c s' => String (f c) (str_map f s')
  end.

(** [b64encode(s, altchars)]: the standard encoding, then [+] and [/]
    translated to the two alternative characters. *)
Definition b64encode (l : list Z) (alt0 alt1 : ascii) : string :=
  str_map (fun c => if Ascii.eqb c "+" then alt0
                    else if Ascii.eqb c "/" then alt1 else c)
          (b2a_base64 l).

(** [s.split(sep)] for a separator of one character, and [sep.join(l)]. *)
Fixpoint str_split (sep : ascii) (s : string) : list string :=
  match s with
  | EmptyString => [EmptyString]
  | String c s' =>
      if Ascii.eqb c sep then EmptyString :: str_split sep s'
      else match str_split sep s' with
           | h :: t => String c h :: t
           | [] => [String c EmptyString]
           end
  end.

Fixpoint str_join (sep : string) (l : list string) : string :=
  match l with
  | [] => ""
  | [x] => x
  | x :: r => x +:+ sep +:+ str_join sep r
  end.

(** ** MusicBrainz disc id *)

Definition mb_message (values : list Z) : result string :=
  let* v0 := py_getitem values 0 in
  let* v1 := py_getitem values 1 in
  let* v2 := py_getitem values 2 in
  let slots :=
    map (fun i => match py_getitem values (2 + i) with
                  | Ok offset => format_0x true 8 offset
                  | Raise _ => format_0x true 8 0
                  end) (py_range 1 100) in
  Ok (format_0x true 2 v0 +:+ format_0x true 2 v1 +:+ format_0x true 8 v2
      +:+ fold_right String.append "" slots).

Definition getMusicBrainzDiscId (tb : Table) : Table * result string :=
  if truthy_str (mbdiscid tb) then
    match mbdiscid tb with
    | Some s => (tb, Ok s)
    | None => (tb, Raise TypeError)
    end
  else
    match
      (let* values := _getMusicBrainzValues tb in
       let* msg := mb_message values in
       let digest := SHA1.digest (bytes_of_string msg) in
       let* _ := py_assert (Z.of_nat (length digest) =? 20) in
       let res := b64encode digest "." "_" in
       let res := str_join "-" (str_split "=" res) in
       let* _ := py_assert (Z.of_nat (String.length res) =? 28) in
       Ok res)
    with
    | Ok res => (set_mbdiscid (Some res) tb, Ok res)
    | Raise e => (tb, Raise e)
    end.

(** ** Traversal of the indexes of the disc *)

Definition getNextTrackIndex (tb : Table) (track index : Z)
  : result (Z * Z) :=
  let* t := py_getitem (tracks tb) (track - 1) in
  let indexes := keys (Track.indexes t) in
  let* position := list_index indexes index in
  if position + 1 <? Z.of_nat (length indexes) then
    let* k := py_getitem indexes (position + 1) in
    Ok (track, k)
  else
    let track := track + 1 in
    if len_tracks tb <? track then Raise IndexError
    else
      let* t := py_getitem (tracks tb) (track - 1) in
      let indexes := keys (Track.indexes t) in
      let* k := py_getitem indexes 0 in
      Ok (track, k).

(** [self.tracks[track - 1].indexes[index]]. *)
Definition lookup_index (tb : Table) (track index : Z) : result Index.t :=
  let* t := py_getitem (tracks tb) (track - 1) in
  dict_getitem (Track.indexes t) index.

(** A write to the [Index] object [self.tracks[track - 1].indexes[index]]. *)
Definition alter_track_index (f : Index.t -> Index.t) (index : Z)
    (tr : Track.t) : Track.t :=
  Track.set_indexes (dict_alter f index (Track.indexes tr)) tr.

Definition alter_index (f : Index.t -> Index.t) (track index : Z)
    (tb : Table) : Table :=
  let j := py_norm (len_tracks tb) (track - 1) in
  if j <? 0 then tb
  else set_tracks
         (alter (alter_track_index f index) (Z.to_nat j) (tracks tb)) tb.

(** The loops that walk the disc with [getNextTrackIndex] are bounded: the
    walk only moves forward, and with Python's negative indexing it can
    pass a track at most twice. *)
Definition total_indexes (tb : Table) : nat :=
  fold_right (fun t n => (length (Track.indexes t) + n)%nat) O (tracks tb).

Definition walk_fuel (tb : Table) : nat := S (2 * total_indexes tb).

(** ** Readiness *)

Fixpoint hasTOC_tracks (l : list Track.t) : bool :=
  match l with
  | [] => true
  | t :: l' =>
      match dict_get (Track.indexes t) 1 with
      | None => false
      | Some ix =>
          match Index.absolute ix with
          | None => false
          | Some _ => hasTOC_tracks l'
          end
      end
  end.

Definition hasTOC (tb : Table) : bool :=
  if negb (truthy_int (leadout tb)) then false
  else hasTOC_tracks (tracks tb).

(** ** absolutize *)

Definition opt_Z_eqb (a b : option Z) : bool :=
  match a, b with
  | Some x, Some y => x =? y
  | None, None => true
  | _, _ => false
  end.

(** The test on an absolute offset that is already there.  The message of
    the [ValueError] is built with ["%d" % index.relative], which is itself
    a [TypeError] when the relative offset is [None]. *)
Definition check_absolute (index : Index.t) : result unit :=
  match Index.absolute index with
  | None => Ok tt
  | Some a =>
      if negb (opt_Z_eqb (Some a) (Index.relative index)) then
        match Index.relative index with
        | None => Raise TypeError
        | Some _ => Raise ValueError
        end
      else Ok tt
  end.

Definition absolutize_index (ix : Index.t) : Index.t :=
  Index.set_absolute (Index.relative ix) ix.

(** The head of the loop body: the index at [(t, i)] and the two
    assertions on it. *)
Definition absolutize_fetch (tb : Table) (t i : Z) : result Index.t :=
  let* track := py_getitem (tracks tb) (t - 1) in
  let* index := Track.getIndex track i in
  let* _ := py_assert (Track.number track =? t) in
  let* _ := py_assert (Index.number index =? i) in
  Ok index.

(** The [while True] loop; [None] as outcome means that the fuel ran out. *)
Fixpoint absolutize_loop (fuel : nat) (counter : option Z) (tb : Table)
    (t i : Z) : Table * option (result unit) :=
  match fuel with
  | O => (tb, None)
  | S fuel' =>
      match absolutize_fetch tb t i with
      | Raise e => (tb, Some (Raise e))
      | Ok index =>
          match Index.counter index with
          | None => (tb, Some (Ok tt))
          | Some c =>
              if negb (opt_Z_eqb (Some c) counter) then (tb, Some (Ok tt))
              else
                match check_absolute index with
                | Raise e => (tb, Some (Raise e))
                | Ok _ =>
                    let tb' := alter_index absolutize_index t i tb in
                    match getNextTrackIndex tb' t i with
                    | Ok (t', i') => absolutize_loop fuel' counter tb' t' i'
                    | Raise IndexError => (tb', Some (Ok tt))
                    | Raise e => (tb', Some (Raise e))
                    end
                end
          end
      end
  end.

Definition absolutize (tb : Table) : Table * option (result unit) :=
  match
    (let* first := py_getitem (tracks tb) 0 in
     let* index := Track.getFirstIndex first in
     Ok (Track.number first, Index.number index, Index.counter index))
  with
  | Raise e => (tb, Some (Raise e))
  | Ok (t, i, counter) => absolutize_loop (walk_fuel tb) counter tb t i
  end.

(** ** setFile *)

(** Python 2's [a <= b] with [a] possibly [None]. *)
Definition py2_le (a : option Z) (b : Z) : bool :=
  match a with
  | Some x => x <=? b
  | None => true
  end.

(** The body of the [try]: the next pair and the index stored there. *)
Definition setFile_next (tb : Table) (track index : Z)
  : result (Z * Z * Index.t) :=
  let* (track', index') := getNextTrackIndex tb track index in
  let* i' := lookup_index tb track' index' in
  Ok (track', index', i').

(** The [while i.absolute <= end] loop; [i] is the [Index] object bound to
    the variable [i], which is the one stored at [(track, index)]. *)
Fixpoint setFile_loop (fuel : nat) (path : option string) (start end_ : Z)
    (counter : option Z) (tb : Table) (track index : Z) (i : Index.t)
  : Table * option (result unit) :=
  match fuel with
  | O => (tb, None)
  | S fuel' =>
      if py2_le (Index.absolute i) end_ then
        let tb1 := alter_index (Index.set_path path) track index tb in
        match as_int (Index.absolute i) with
        | Raise e => (tb1, Some (Raise e))
        | Ok a =>
            let tb2 :=
              alter_index
                (fun ix => Index.set_counter counter
                             (Index.set_relative (Some (a - start)) ix))
                track index tb1 in
            match setFile_next tb2 track index with
            | Ok (track', index', i') =>
                setFile_loop fuel' path start end_ counter tb2
                             track' index' i'
            | Raise IndexError => (tb2, Some (Ok tt))
            | Raise e => (tb2, Some (Raise e))
            end
        end
      else (tb, Some (Ok tt))
  end.

Definition setFile (tb : Table) (track index : Z) (path : option string)
    (length : Z) (counter : option Z) : Table * option (result unit) :=
  match
    (let* i := lookup_index tb track index in
     let* _ := py_assert (match Index.absolute i with
                          | Some _ => true
                          | None => false
                          end) in
     let* start := as_int (Index.absolute i) in
     Ok (i, start))
  with
  | Raise e => (tb, Some (Raise e))
  | Ok (i, start) =>
      setFile_loop (walk_fuel tb) path start (start + length - 1) counter
                   tb track index i
  end.

(** ** Cue sheet *)

Definition dec_digit (d : Z) : ascii :=
  match String.get (Z.to_nat d) "0123456789" with
  | Some c => c
  | None => "0"%char
  end.

Fixpoint dec_loop (fuel : nat) (z : Z) (acc : string) : string :=
  match fuel with
  | O => acc
  | S fuel' =>
      if z <=? 0 then acc
      else dec_loop fuel' (z / 10) (String (dec_digit (z mod 10)) acc)
  end.

Definition dec (z : Z) : string :=
  if z <=? 0 then "0" else dec_loop (S (Z.to_nat (Z.log2 z))) z "".

(** ["%0<width>d" % z]. *)
Definition format_0d (width : nat) (z : Z) : string :=
  if z <? 0 then String "-" (zfill (width - 1) (dec (- z)))
  else zfill width (dec z).

(** [s.upper()] on ASCII text. *)
Definition upper_char (c : ascii) : ascii :=
  let n := nat_of_ascii c in
  if ((97 <=? n) && (n <=? 122))%nat then ascii_of_nat (n - 32) else c.

Definition str_upper (s : string) : string := str_map upper_char s.

Definition dquote : string := String "034"%char "".
Definition newline : string := String "010"%char "".

Definition CDTEXT_FIELDS : list string :=
  ["ARRANGER"; "COMPOSER"; "DISCID"; "GENRE"; "MESSAGE"; "ISRC"; "PERFORMER";
   "SIZE_INFO"; "SONGWRITER"; "TITLE"; "TOC_INFO"; "TOC_INFO2"; "UPC_EAN"].

Definition main_fields : list string := ["PERFORMER"; "TITLE"].

Definition str_in (s : string) (l : list string) : bool :=
  existsb (String.eqb s) l.

Definition FLAGS_PRE : string := "    FLAGS PRE".

Section CueSheet.
(** The collaborators of [cue] that live outside this module:
    [common.getRelativePath], [common.framesToMSF] and
    [whipper.__version__]. *)
Variable getRelativePath : string -> string -> string.
Variable framesToMSF : Z -> string.
Variable version : string.

Variable cuePath : string.
Variable program : string.

Definition writeFile (path : string) : string :=
  "FILE " +:+ dquote +:+ getRelativePath path cuePath +:+ dquote +:+ " WAVE".

(** The disc-level CD-Text lines in front of the [REM] lines. *)
Definition cue_header_cdtext (tb : Table) : list string :=
  flat_map (fun key =>
              if negb (str_in key main_fields) then
                match cdtext tb !! key with
                | Some v => ["    " +:+ key +:+ " " +:+ v]
                | None => []
                end
              else []) CDTEXT_FIELDS.

Definition cue_header_main (tb : Table) : list string :=
  flat_map (fun key =>
              match cdtext tb !! key with
              | Some v => [key +:+ " " +:+ dquote +:+ v +:+ dquote]
              | None => []
              end) main_fields.

(** The lines that follow a [TRACK] line: CD-Text, ISRC and flags. *)
Definition cue_track_header (i : Z) (track : Track.t) : list string :=
  ["  TRACK " +:+ format_0d 2 (i + 1) +:+ " AUDIO"]
  ++ flat_map (fun key =>
                 match Track.cdtext track !! key with
                 | Some v =>
                     ["    " +:+ key +:+ " " +:+ dquote +:+ v +:+ dquote]
                 | None => []
                 end) CDTEXT_FIELDS
  ++ match Track.isrc track with
     | Some isrc => ["    ISRC " +:+ isrc]
     | None => []
     end
  ++ match Track.pre_emphasis track with
     | Some _ => [FLAGS_PRE]
     | None => []
     end.

(** [if index.path:] with its two statements: the message
    ['counter %d, writeFile' % counter] is built before it is logged, which
    raises [TypeError] when [counter] is [None]; then [writeFile]. *)
Definition write_counted_file (counter : option Z) (path : option string)
    (lines : list string) : result (list string) :=
  if truthy_str path then
    match path with
    | Some p => let* _ := as_int counter in Ok (lines ++ [writeFile p])
    | None => Ok lines
    end
  else Ok lines.

Definition index_line (number : Z) (frames : Z) : string :=
  "    INDEX " +:+ format_0d 2 number +:+ " " +:+ framesToMSF frames.

(** The [for number in indexes] loop over one track, [i] being the
    position of the track; [lines] are the lines of this track so far. *)
Fixpoint cue_indexes (i : Z) (track : Track.t) (indexOne : Index.t)
    (indexes todo : list Z) (counter : option Z) (wroteTrack : bool)
    (lines : list string) : result (option Z * list string) :=
  match todo with
  | [] => Ok (counter, lines)
  | number :: todo' =>
      let* index := dict_getitem (Track.indexes track) number in
      let* (counter, lines) :=
        if py2_gt (Index.counter index) counter then
          let* lines := write_counted_file counter (Index.path index) lines in
          Ok (Index.counter index, lines)
        else Ok (counter, lines) in
      let finish (lines : list string) :=
        let* lines :=
          if 0 <? number then
            let* r := as_int (Index.relative index) in
            Ok (lines ++ [index_line number r])
          else Ok lines in
        cue_indexes i track indexOne indexes todo' counter true lines in
      if negb wroteTrack then
        let lines := lines ++ cue_track_header i track in
        if existsb (Z.eqb 0) indexes then
          let* index00 := dict_getitem (Track.indexes track) 0 in
          if (i =? 0) && negb (truthy_str (Index.path index00)) then
            let* a1 := as_int (Index.absolute indexOne) in
            let* a0 := as_int (Index.absolute index00) in
            cue_indexes i track indexOne indexes todo' counter true
              (lines ++ ["    PREGAP " +:+ framesToMSF (a1 - a0)])
          else
            let* r := as_int (Index.relative index00) in
            finish (lines ++ [index_line 0 r])
        else finish lines
      else finish lines
  end.

(** The [for i, track in enumerate(self.tracks)] loop. *)
Fixpoint cue_tracks (l : list Track.t) (i : Z) (indexOne : Index.t)
    (counter : option Z) (lines : list string) : result (list string) :=
  match l with
  | [] => Ok lines
  | track :: l' =>
      if negb (Track.audio track) then
        cue_tracks l' (i + 1) indexOne counter lines
      else
        let indexes := sorted_keys (keys (Track.indexes track)) in
        let* (counter, block) :=
          cue_indexes i track indexOne indexes indexes counter false [] in
        cue_tracks l' (i + 1) indexOne counter (lines ++ block)
  end.

(** The [while not index.path] loop that looks for the first file. *)
Fixpoint cue_first_file (fuel : nat) (tb : Table) (track : Track.t)
    (index : Index.t) (counter : option Z)
  : option (result (Index.t * option Z)) :=
  match fuel with
  | O => None
  | S fuel' =>
      if negb (truthy_str (Index.path index)) then
        match
          (let* (t, i) := getNextTrackIndex tb (Track.number track)
                                            (Index.number index) in
           let* track := py_getitem (tracks tb) (t - 1) in
           let* index := Track.getIndex track i in
           Ok (track, index))
        with
        | Raise e => Some (Raise e)
        | Ok (track, index) =>
            cue_first_file fuel' tb track index (Index.counter index)
        end
      else Some (Ok (index, counter))
  end.

Definition cue_lines (tb : Table) : option (result (list string)) :=
  let lines := cue_header_cdtext tb in
  match
    (let* _ := py_assert (hasTOC tb) in
     let* discid := getCDDBDiscId tb in
     let lines := lines ++ ["REM DISCID " +:+ str_upper discid] in
     let lines :=
       lines ++ ["REM COMMENT " +:+ dquote +:+ program +:+ " " +:+ version
                 +:+ dquote] in
     let lines :=
       match catalog tb with
       | Some c => if truthy_str (Some c) then lines ++ ["CATALOG " +:+ c]
                   else lines
       | None => lines
       end in
     let lines := lines ++ cue_header_main tb in
     let* firstTrack := py_getitem (tracks tb) 0 in
     let* index := Track.getFirstIndex firstTrack in
     let* indexOne := Track.getIndex firstTrack 1 in
     Ok (lines, firstTrack, index, indexOne))
  with
  | Raise e => Some (Raise e)
  | Ok (lines, firstTrack, index, indexOne) =>
      match cue_first_file (walk_fuel tb) tb firstTrack index
              (Index.counter index) with
      | None => None
      | Some (Raise e) => Some (Raise e)
      | Some (Ok (index, counter)) =>
          match
            (let* lines :=
               write_counted_file counter (Index.path index) lines in
             cue_tracks (tracks tb) 0 indexOne counter lines)
          with
          | Raise e => Some (Raise e)
          | Ok lines => Some (Ok (lines ++ [""]))
          end
      end
  end.

Definition cue (tb : Table) : option (result string) :=
  match cue_lines tb with
  | None => None
  | Some (Raise e) => Some (Raise e)
  | Some (Ok lines) => Some (Ok (str_join newline lines))
  end.
End CueSheet.

(** ** merge, on a store of objects

    [merge] is the one method that involves two tables, so here tables,
    track lists and tracks are objects of a store, named by references: a
    [Table] object holds a reference to its list of tracks, and that list
    holds references to [Track] objects.  Two tables can share a list or a
    track.  A [Track] object owns its dictionary of indexes, as every track
    built with [Track.index] does. *)

Record TableObj : Type := mkTableObj {
  o_tracks : positive;
  o_leadout : option Z;
  o_catalog : option string;
  o_cdtext : gmap string string;
  o_mbdiscid : option string
}.

Definition set_o_leadout (v : option Z) (o : TableObj) : TableObj :=
  mkTableObj (o_tracks o) v (o_catalog o) (o_cdtext o) (o_mbdiscid o).

Record Store : Type := mkStore {
  s_tables : gmap positive TableObj;
  s_lists : gmap positive (list positive);
  s_tracks : gmap positive Track.t
}.

Definition set_s_tables (m : gmap positive TableObj) (s : Store) : Store :=
  mkStore m (s_lists s) (s_tracks s).
Definition set_s_lists (m : gmap positive (list positive)) (s : Store)
  : Store := mkStore (s_tables s) m (s_tracks s).
Definition set_s_tracks (m : gmap positive Track.t) (s : Store) : Store :=
  mkStore (s_tables s) (s_lists s) m.

(** The value of the list of tracks of a table, and of the whole table. *)
Definition read_tracks (s : Store) (l : positive) : option (list Track.t) :=
  refs ← s_lists s !! l; mapM (fun r => s_tracks s !! r) refs.

Definition read_table (s : Store) (r : positive) : option Table :=
  o ← s_tables s !! r;
  ts ← read_tracks s (o_tracks o);
  Some (mkTable ts (o_leadout o) (o_catalog o) (o_cdtext o) (o_mbdiscid o)).

(** The two [+=] on one index of a copied track. *)
Definition merge_index (leadout : option Z) (gap : Z)
    (sourceCounter : option Z) (i : Index.t) : result Index.t :=
  let* i :=
    match Index.absolute i with
    | Some a =>
        let* lo := as_int leadout in
        Ok (Index.set_absolute (Some (a + (lo + gap))) i)
    | None => Ok i
    end in
  match Index.counter i with
  | Some c =>
      let* sc := as_int sourceCounter in
      Ok (Index.set_counter (Some (c + sc)) i)
  | None => Ok i
  end.

(** [for i in t.indexes.values()]. *)
Fixpoint merge_indexes (leadout : option Z) (gap : Z)
    (sourceCounter : option Z) (d : dict Index.t) : result (dict Index.t) :=
  match d with
  | [] => Ok []
  | (k, i) :: d' =>
      let* i' := merge_index leadout gap sourceCounter i in
      let* d'' := merge_indexes leadout gap sourceCounter d' in
      Ok ((k, i') :: d'')
  end.

(** [copy.deepcopy(track)]: a new object with the same contents. *)
Definition deepcopy (s : Store) (track : Track.t) : positive * Store :=
  let r := fresh (dom (s_tracks s)) in
  (r, set_s_tracks (<[r := track]> (s_tracks s)) s).

(** The [for track in other.tracks] loop; [olist] is the list object being
    iterated and [k] the position of the iterator in it.  The outcome is
    [None] when the fuel runs out or a reference dangles. *)
Fixpoint merge_loop (fuel : nat) (s : Store) (self olist : positive)
    (k : nat) (session : option Z) (gap trackCount : Z)
    (sourceCounter : option Z) : Store * option (result unit) :=
  match fuel with
  | O => (s, None)
  | S fuel' =>
      match s_lists s !! olist with
      | None => (s, None)
      | Some refs =>
          match refs !! k with
          | None => (s, Some (Ok tt))
          | Some tr =>
              match s_tracks s !! tr, s_tables s !! self with
              | Some track, Some me =>
                  let '(t, s1) := deepcopy s track in
                  let copy :=
                    Track.set_session session
                      (Track.set_number (Track.number track + trackCount)
                         track) in
                  let s2 := set_s_tracks (<[t := copy]> (s_tracks s1)) s1 in
                  match merge_indexes (o_leadout me) gap sourceCounter
                          (Track.indexes copy) with
                  | Raise e => (s2, Some (Raise e))
                  | Ok d =>
                      let s3 :=
                        set_s_tracks
                          (<[t := Track.set_indexes d copy]> (s_tracks s2))
                          s2 in
                      match s_lists s3 !! o_tracks me with
                      | None => (s3, None)
                      | Some mine =>
                          let s4 :=
                            set_s_lists
                              (<[o_tracks me := mine ++ [t]]> (s_lists s3))
                              s3 in
                          merge_loop fuel' s4 self olist (S k) session gap
                                     trackCount sourceCounter
                      end
                  end
              | _, _ => (s, None)
              end
          end
      end
  end.

(** [self.tracks[-1].getLastIndex().counter]. *)
Definition sourceCounter_of (mine : list Track.t) : result (option Z) :=
  let* last := py_getitem mine (-1) in
  let* index := Track.getLastIndex last in
  Ok (Index.counter index).

Definition merge (s : Store) (self other : positive) (session : option Z)
  : Store * option (result unit) :=
  let gap := _getSessionGap session in
  match s_tables s !! self, s_tables s !! other with
  | Some me, Some you =>
      match read_tracks s (o_tracks me), s_lists s !! o_tracks you with
      | Some mine, Some yours =>
          match sourceCounter_of mine with
          | Raise e => (s, Some (Raise e))
          | Ok sourceCounter =>
              match merge_loop (S (length yours)) s self (o_tracks you) O
                      session gap (Z.of_nat (length mine)) sourceCounter with
              | (s', Some (Ok _)) =>
                  match s_tables s' !! self, s_tables s' !! other with
                  | Some me', Some you' =>
                      match
                        (let* mine := as_int (o_leadout me') in
                         let* yours := as_int (o_leadout you') in
                         Ok (mine + (yours + gap)))
                      with
                      | Raise e => (s', Some (Raise e))
                      | Ok lo =>
                          (set_s_tables
                             (<[self := set_o_leadout (Some lo) me']>
                                (s_tables s')) s',
                           Some (Ok tt))
                      end
                  | _, _ => (s', None)
                  end
              | (s', out) => (s', out)
              end
          end
      | _, _ => (s, None)
      end
  | _, _ => (s, None)
  end.

(** ** Pregap, frame length, AccurateRip ids *)

(** [Track.getPregap]. *)
Definition getPregap (tr : Track.t) : result Z :=
  if negb (existsb (Z.eqb 0) (keys (Track.indexes tr))) then Ok 0
  else
    let* i1 := dict_getitem (Track.indexes tr) 1 in
    let* i0 := dict_getitem (Track.indexes tr) 0 in
    let* a1 := as_int (Index.absolute i1) in
    let* a0 := as_int (Index.absolute i0) in
    Ok (a1 - a0).

Definition getFrameLength (tb : Table) (data : bool) : result Z :=
  let* last :=
    if data then py_getitem (tracks tb) (-1)
    else py_getitem (tracks tb) (getAudioTracks tb - 1) in
  let* e := getTrackEnd tb (Track.number last) in
  let leadout := e + 1 in
  let* s := getTrackStart tb 1 in
  let* s := as_int s in
  Ok (leadout - s).

(** [offset or 1]. *)
Definition or_1 (offset : Z) : Z := if offset =? 0 then 1 else offset.

(** The [for track in self.tracks] loop of [accuraterip_ids]. *)
Fixpoint accuraterip_sums (tb : Table) (l : list Track.t) (discId1 discId2 : Z)
  : result (Z * Z) :=
  match l with
  | [] => Ok (discId1, discId2)
  | track :: l' =>
      if negb (Track.audio track) then accuraterip_sums tb l' discId1 discId2
      else
        let* offset := getTrackStart tb (Track.number track) in
        let* offset := as_int offset in
        accuraterip_sums tb l' (discId1 + offset)
          (discId2 + or_1 offset * Track.number track)
  end.

Definition accuraterip_ids (tb : Table) : result (string * string) :=
  let* (discId1, discId2) := accuraterip_sums tb (tracks tb) 0 0 in
  let* last := py_getitem (tracks tb) (-1) in
  let* e := getTrackEnd tb (Track.number last) in
  let offset := e + 1 in
  let discId1 := discId1 + offset in
  let discId2 := discId2 + offset * (getAudioTracks tb + 1) in
  let discId1 := Z.land discId1 0xffffffff in
  let discId2 := Z.land discId2 0xffffffff in
  Ok (format_0x false 8 discId1, format_0x false 8 discId2).

(** ** clearFiles and canCue *)

Definition clear_index (ix : Index.t) : Index.t :=
  Index.set_relative None (Index.set_path None ix).

Fixpoint clearFiles_loop (fuel : nat) (tb : Table) (t i : Z)
  : Table * option (result unit) :=
  match fuel with
  | O => (tb, None)
  | S fuel' =>
      match lookup_index tb t i with
      | Raise e => (tb, Some (Raise e))
      | Ok _ =>
          let tb' := alter_index clear_index t i tb in
          match getNextTrackIndex tb' t i with
          | Ok (t', i') => clearFiles_loop fuel' tb' t' i'
          | Raise IndexError => (tb', Some (Ok tt))
          | Raise e => (tb', Some (Raise e))
          end
      end
  end.

Definition clearFiles (tb : Table) : Table * option (result unit) :=
  match
    (let* first := py_getitem (tracks tb) 0 in
     let* index := Track.getFirstIndex first in
     Ok (Track.number first, Index.number index))
  with
  | Raise e => (tb, Some (Raise e))
  | Ok (t, i) => clearFiles_loop (walk_fuel tb) tb t i
  end.

Definition has_relative (ix : Index.t) : bool :=
  match Index.relative ix with Some _ => true | None => false end.

Definition canCue (tb : Table) : bool :=
  if negb (hasTOC tb) then false
  else forallb (fun t => forallb has_relative (values (Track.indexes t)))
               (tracks tb).

(** ** The quantities the specification speaks of *)

(** The absolute offset of index 1 of a track, when it is resolved. *)
Definition index1_absolute (t : Track.t) : option Z :=
  ix ← dict_get (Track.indexes t) 1; Index.absolute ix.

(** The tracks are numbered 1, 2, ... in the order of the list. *)
Definition numbered (l : list Track.t) : Prop :=
  forall (k : nat) (t : Track.t),
    l !! k = Some t -> Track.number t = Z.of_nat k + 1.

(** The [k]-th decimal digit of [z] and the sum of the decimal digits. *)
Definition decimal_digit (z : Z) (k : nat) : Z := (z / 10 ^ Z.of_nat k) mod 10.

Definition digit_sum (z : Z) : Z :=
  fold_right Z.add 0
    (map (decimal_digit z) (seq 0 (S (Z.to_nat (Z.log2 z))))).

(** The CDDB value as the specification packs it, for a divisor [m] of the
    checksum: [starts] are the offsets of index 1 of the tracks and [lo] is
    the leadout. *)
Definition cddb_checksum (starts : list Z) : Z :=
  fold_right Z.add 0 (map (fun s => digit_sum ((s + 150) / 75)) starts).

Definition cddb_seconds (starts : list Z) (lo : Z) : Z :=
  lo / 75 - hd 0 starts / 75.

Definition cddb_packed (m : Z) (starts : list Z) (lo : Z) : Z :=
  Z.lor (Z.lor (Z.shiftl (cddb_checksum starts mod m) 24)
               (Z.shiftl (cddb_seconds starts lo) 8))
        (Z.of_nat (length starts)).

(** A number written with exactly [k] lowercase hexadecimal digits. *)
Fixpoint fixed_hex (k : nat) (z : Z) : string :=
  match k with
  | O => ""
  | S k' => fixed_hex k' (z / 16) +:+ String (hex_digit false (z mod 16)) ""
  end.

(** The leadout that enters the MusicBrainz values. *)
Definition effective_leadout (tb : Table) : option Z :=
  if hasDataTracks tb then
    t ← last (tracks tb); a ← index1_absolute t; Some (a - 11400)
  else leadout tb.

(** The 150-compensated offsets of the audio tracks among [l]. *)
Definition audio_offsets (l : list Track.t) : list (option Z) :=
  map (fun t => a ← index1_absolute t; Some (a + 150))
      (List.filter (fun t => Track.audio t) l).

(** The characters of a MusicBrainz disc id. *)
Definition mb_char (c : ascii) : bool :=
  let n := nat_of_ascii c in
  ((65 <=? n) && (n <=? 90) || (97 <=? n) && (n <=? 122)
   || (48 <=? n) && (n <=? 57) || (n =? 46) || (n =? 95) || (n =? 45))%nat.

(** The characters of standard base 64 text, padding included. *)
Definition b64_text_char (c : ascii) : bool :=
  existsb (Ascii.eqb c) (list_ascii_of_string b64_alphabet)
  || Ascii.eqb c "=".

(** The index stored at position [q] of the dictionary of the track at
    position [p]. *)
Definition index_at (tb : Table) (p q : nat) : option Index.t :=
  t ← tracks tb !! p; e ← Track.indexes t !! q; Some (snd e).

(** What the specification promises of [setFile]: an index that the call
    changes lies in the range of the file. *)
Definition setFile_within_range (tb : Table) (track index : Z)
    (path : option string) (length : Z) (counter : option Z) : Prop :=
  forall (i0 : Index.t) (start : Z) (p q : nat) (ix ix' : Index.t),
    lookup_index tb track index = Ok i0 ->
    Index.absolute i0 = Some start ->
    index_at tb p q = Some ix ->
    index_at (fst (setFile tb track index path length counter)) p q
      = Some ix' ->
    ix' <> ix ->
    exists a, Index.absolute ix = Some a /\ start <= a <= start + length - 1.

(** The keys of every dictionary of indexes are pairwise distinct, as the
    keys of a Python dictionary are. *)
Definition dicts_ok (tb : Table) : Prop :=
  Forall (fun t => NoDup (keys (Track.indexes t))) (tracks tb).

(** Two tables of the same shape whose indexes are pairwise related by [R]:
    what a mutator that only writes to fields of indexes leaves to relate a
    table and its successor. *)
Section TableRel.
Variable R : Index.t -> Index.t -> Prop.

Definition entry_rel (e e' : Z * Index.t) : Prop :=
  fst e' = fst e /\ R (snd e) (snd e').

Definition track_rel (tr tr' : Track.t) : Prop :=
  Forall2 entry_rel (Track.indexes tr) (Track.indexes tr')
  /\ tr' = Track.set_indexes (Track.indexes tr') tr.

Definition table_rel (tb tb' : Table) : Prop :=
  Forall2 track_rel (tracks tb) (tracks tb')
  /\ tb' = set_tracks (tracks tb') tb.
End TableRel.

(** An index and what [absolutize] may have made of it. *)
Definition absolutized (ix ix' : Index.t) : Prop :=
  ix' = ix \/ ix' = absolutize_index ix.

(** An index and what [setFile] may have made of it for a file that ends at
    [end_]: the absolute offset stays, and only an index that passes the
    test of the loop is written to. *)
Definition filed (end_ : Z) (ix ix' : Index.t) : Prop :=
  ix' = ix
  \/ (Index.absolute ix' = Index.absolute ix
      /\ Index.number ix' = Index.number ix
      /\ py2_le (Index.absolute ix) end_ = true).

(** The pairs [(track, index)] that the traversal passes when it starts
    at [(t, i)]: the pair itself and every pair that [getNextTrackIndex]
    returns from one that is passed. *)
Inductive reachable (tb : Table) (t i : Z) : Z -> Z -> Prop :=
| reachable_start : reachable tb t i t i
| reachable_next (t1 i1 t2 i2 : Z) :
    reachable tb t i t1 i1 ->
    getNextTrackIndex tb t1 i1 = Ok (t2, i2) ->
    reachable tb t i t2 i2.

(** An index and what [setFile] may have made of it on a table where no
    offset that the traversal reaches lies below [start]: only an index
    whose offset is in the range of the file is written to. *)
Definition filed_within (start end_ : Z) (ix ix' : Index.t) : Prop :=
  ix' = ix
  \/ (Index.absolute ix' = Index.absolute ix
      /\ exists a, Index.absolute ix = Some a /\ start <= a <= end_).

(** An index and what [clearFiles] may have made of it. *)
Definition cleared (ix ix' : Index.t) : Prop :=
  ix' = ix \/ ix' = clear_index ix.

(** An index and what [absolutize] may have made of it, given that the
    test on the absolute offset passed. *)
Definition absolutized_checked (ix ix' : Index.t) : Prop :=
  ix' = ix \/ (ix' = absolutize_index ix /\ check_absolute ix = Ok tt).

(** What [setFile] writes to an index whose absolute offset is [a]. *)
Definition file_index (path : option string) (start : Z)
    (counter : option Z) (a : Z) (ix : Index.t) : Index.t :=
  Index.set_counter counter
    (Index.set_relative (Some (a - start)) (Index.set_path path ix)).

(** An index and what [setFile] may have made of it: nothing, the three
    fields of the file, or the path alone when the absolute offset is
    missing. *)
Definition assigned (path : option string) (start : Z) (counter : option Z)
    (ix ix' : Index.t) : Prop :=
  ix' = ix
  \/ (exists a, Index.absolute ix = Some a
                /\ ix' = file_index path start counter a ix)
  \/ (Index.absolute ix = None /\ ix' = Index.set_path path ix).

(** The characters of lowercase hexadecimal text. *)
Definition lower_hex_char (c : ascii) : bool :=
  existsb (Ascii.eqb c) (list_ascii_of_string "0123456789abcdef").

(** ** The measure of the walk over the indexes *)

(** The number of indexes of the track that [self.tracks[u - 1]] gives. *)
Definition len_at (tb : Table) (u : Z) : nat :=
  match py_getitem (tracks tb) (u - 1) with
  | Ok tr => length (Track.indexes tr)
  | Raise _ => O
  end.

(** The indexes of the [k] tracks that follow track number [t]. *)
Fixpoint indexes_after (tb : Table) (k : nat) (t : Z) : nat :=
  match k with
  | O => O
  | S k' => (len_at tb (t + 1) + indexes_after tb k' (t + 1))%nat
  end.

(** What the walk has before it at [(t, i)]: the indexes of track [t] from
    the position of [i] in [keys()] on, and those of the tracks up to the
    last one. *)
Definition walk_rank (tb : Table) (t i : Z) : nat :=
  match py_getitem (tracks tb) (t - 1) with
  | Ok tr =>
      match list_index (keys (Track.indexes tr)) i with
      | Ok pos =>
          (length (Track.indexes tr) - Z.to_nat pos
           + indexes_after tb (Z.to_nat (len_tracks tb - t)) t)%nat
      | Raise _ => O
      end
  | Raise _ => O
  end.

(** Two tables that differ in the fields of their indexes only. *)
Definition same_shape : Table -> Table -> Prop :=
  table_rel (fun _ _ => True).

(** The walk starts at the entry that [keys()] lists first: the first
    track has number 1, and its lowest index number is the first key and
    the number of the index stored there. *)
Definition starts_at_first (tb : Table) : Prop :=
  exists (tr : Track.t) (ix : Index.t),
    tracks tb !! O = Some tr
    /\ Track.number tr = 1
    /\ Track.getFirstIndex tr = Ok ix
    /\ keys (Track.indexes tr) !! O = Some (Index.number ix).

(** Every track has an index. *)
Definition tracks_have_indexes (tb : Table) : Prop :=
  Forall (fun t => Track.indexes t <> []) (tracks tb).

(** The position [(p', q')] comes before [(p, q)] in the walk. *)
Definition before (p' q' p q : nat) : Prop :=
  (p' < p)%nat \/ (p' = p /\ (q' < q)%nat).

Definition before_dec (p' q' p q : nat) : Decision (before p' q' p q) :=
  _ : Decision ((p' < p)%nat \/ (p' = p /\ (q' < q)%nat)).
#[global] Existing Instance before_dec.

(** The position [(p', q')] is in the part of the walk that starts at
    [(p0, q0)] and stops before [(p, q)]. *)
Definition passed (p0 q0 p q p' q' : nat) : Prop :=
  ~ before p' q' p0 q0 /\ before p' q' p q.

Definition passed_dec (p0 q0 p q p' q' : nat)
  : Decision (passed p0 q0 p q p' q') :=
  _ : Decision (~ before p' q' p0 q0 /\ before p' q' p q).
#[global] Existing Instance passed_dec.

(** [tb] is [tb0] with [f] applied to the indexes that the walk from
    [(p0, q0)] has passed when it stands at [(p, q)]. *)
Definition swept (f : Index.t -> Index.t) (tb0 : Table)
    (p0 q0 p q : nat) (tb : Table) : Prop :=
  same_shape tb0 tb
  /\ forall p' q' : nat,
       index_at tb p' q'
       = if decide (passed p0 q0 p q p' q')
         then f <$> index_at tb0 p' q'
         else index_at tb0 p' q'.

(** Every index is stored under its number. *)
Definition keyed_by_number (tb : Table) : Prop :=
  forall (p q : nat) (tr : Track.t) (e : Z * Index.t),
    tracks tb !! p = Some tr ->
    Track.indexes tr !! q = Some e ->
    Index.number (snd e) = fst e.

(** What [setFile] writes to an index that passes the test of its loop. *)
Definition file_entry (path : option string) (start : Z)
    (counter : option Z) (ix : Index.t) : Index.t :=
  match Index.absolute ix with
  | Some a => file_index path start counter a ix
  | None => Index.set_path path ix
  end.

(** ** What [merge] makes of a track of the other table *)

(** An index moved by [offset] sectors and [c] sources. *)
Definition shift_index (offset c : Z) (ix : Index.t) : Index.t :=
  let ix :=
    match Index.absolute ix with
    | Some a => Index.set_absolute (Some (a + offset)) ix
    | None => ix
    end in
  match Index.counter ix with
  | Some k => Index.set_counter (Some (k + c)) ix
  | None => ix
  end.

Definition shift_track (session : option Z) (trackCount offset c : Z)
    (t : Track.t) : Track.t :=
  let copy :=
    Track.set_session session
      (Track.set_number (Track.number t + trackCount) t) in
  Track.set_indexes
    (map (fun e => (fst e, shift_index offset c (snd e)))
         (Track.indexes copy))
    copy.

(** No index of these tracks has a counter. *)
Definition no_counters (ts : list Track.t) : Prop :=
  Forall (fun t =>
            Forall (fun e => Index.counter (snd e) = None) (Track.indexes t))
         ts.

(** ** Tables used as examples *)

Definition mkIndex (number : Z) (absolute : option Z) (path : option string)
    (relative counter : option Z) : Index.t :=
  Index.mk number absolute path relative counter.

(** [Track(number, audio)] followed by calls to [index]. *)
Definition mkTrack (number : Z) (audio : bool) (ixs : list Index.t)
  : Track.t :=
  Track.mk number audio (map (fun i => (Index.number i, i)) ixs)
           None ∅ None None.

Definition mkTOC (l : list Track.t) (lo : Z) : Table :=
  mkTable l (Some lo) None ∅ None.

(** The scenario of the specification: two audio tracks of one session. *)
Definition two_tracks : Table :=
  mkTOC [mkTrack 1 true [mkIndex 1 (Some 0) None None None];
         mkTrack 2 true [mkIndex 1 (Some 15000) None None None]]
        30150.

(** Thirty tracks of 155 seconds each. *)
Definition thirty_tracks : Table :=
  mkTOC (map (fun k => mkTrack (Z.of_nat k + 1) true
                         [mkIndex 1 (Some (Z.of_nat k * 11625)) None None
                                  None])
             (seq 0 30))
        348750.

(** A hundred audio tracks of two seconds each. *)
Definition hundred_tracks : Table :=
  mkTOC (map (fun k => mkTrack (Z.of_nat k + 1) true
                         [mkIndex 1 (Some (Z.of_nat k * 150)) None None None])
             (seq 0 100))
        15000.

(** A table assembled from one file: relative offsets and counters, no
    absolute offset yet. *)
Definition from_one_file : Table :=
  mkTOC [mkTrack 1 true [mkIndex 0 None (Some "a.wav") (Some 0) (Some 0);
                         mkIndex 1 None (Some "a.wav") (Some 150) (Some 0)];
         mkTrack 2 true [mkIndex 1 None (Some "a.wav") (Some 15000) (Some 0)]]
        30150.

(** A table assembled from two files, one per track. *)
Definition from_two_files : Table :=
  mkTOC [mkTrack 1 true [mkIndex 0 None (Some "a.wav") (Some 0) (Some 0);
                         mkIndex 1 None (Some "a.wav") (Some 150) (Some 0)];
         mkTrack 2 true [mkIndex 1 None (Some "b.wav") (Some 0) (Some 1)]]
        30150.

(** Two tracks whose offsets do not ascend. *)
Definition out_of_order : Table :=
  mkTOC [mkTrack 1 true [mkIndex 1 (Some 100) None None None];
         mkTrack 2 true [mkIndex 1 (Some 50) None None None]]
        1000.

(** A track that has index 1 and index 8 and none between.  CPython 2.7
    keeps a small dictionary of integers in the order of the keys modulo 8,
    so [keys()] of [{1: ..., 8: ...}] is [[8, 1]]. *)
Definition index_1_and_8 : Table :=
  mkTOC [mkTrack 1 true [mkIndex 8 (Some 5000) None None None;
                         mkIndex 1 (Some 0) None None None]]
        10000.

(** One track as [clearFiles] leaves it: the absolute offset and the
    counter are there, the relative offset is gone. *)
Definition cleared_files : Table :=
  mkTOC [mkTrack 1 true [mkIndex 1 (Some 0) None None (Some 0)]] 1000.

(** One audio track from one file, whose pre-emphasis flag is [False]. *)
Definition no_pre_emphasis : Table :=
  mkTOC [Track.mk 1 true
           [(1, mkIndex 1 (Some 0) (Some "a.wav") (Some 0) (Some 0))]
           None ∅ None (Some false)]
        1000.

(** A store with two tables: an audio session of two tracks and a second
    session with one data track. *)
Definition two_sessions : Store :=
  mkStore
    {[ 1%positive := mkTableObj 1 (Some 30150) None ∅ None;
       2%positive := mkTableObj 2 (Some 5000) None ∅ None ]}
    {[ 1%positive := [1%positive; 2%positive];
       2%positive := [3%positive] ]}
    {[ 1%positive :=
         mkTrack 1 true [mkIndex 1 (Some 0) (Some "a.wav") (Some 0) (Some 0)];
       2%positive :=
         mkTrack 2 true
           [mkIndex 1 (Some 15000) (Some "a.wav") (Some 15000) (Some 0)];
       3%positive :=
         mkTrack 1 false
           [mkIndex 1 (Some 0) (Some "b.iso") (Some 0) (Some 1)] ]}.

(** The same two tables, the first one built from a table of contents
    with [Track.index(1, absolute=...)]: its indexes have no counter. *)
Definition two_sessions_uncounted : Store :=
  mkStore
    {[ 1%positive := mkTableObj 1 (Some 30150) None ∅ None;
       2%positive := mkTableObj 2 (Some 5000) None ∅ None ]}
    {[ 1%positive := [1%positive; 2%positive];
       2%positive := [3%positive] ]}
    {[ 1%positive := mkTrack 1 true [mkIndex 1 (Some 0) None None None];
       2%positive := mkTrack 2 true [mkIndex 1 (Some 15000) None None None];
       3%positive :=
         mkTrack 1 false
           [mkIndex 1 (Some 0) (Some "b.iso") (Some 0) (Some 1)] ]}.

(** The same store after [getMusicBrainzDiscId] on the first table. *)
Definition two_sessions_cached : Store :=
  set_s_tables
    (<[1%positive := mkTableObj 1 (Some 30150) None ∅
                       (Some "KTJhSUpNg798PQihgkuYevO8ngc-")]>
       (s_tables two_sessions))
    two_sessions.

(** A data track in front of an audio track. *)
Definition data_track_first : Table :=
  mkTOC [mkTrack 1 false [mkIndex 1 (Some 0) None None None];
         mkTrack 2 true [mkIndex 1 (Some 15000) None None None]]
        30150.

(** An audio track followed by the data track of a second session. *)
Definition with_data_track : Table :=
  mkTOC [mkTrack 1 true [mkIndex 1 (Some 0) None None None];
         Track.set_session (Some 2)
           (mkTrack 2 false [mkIndex 1 (Some 26400) None None None])]
        30000.

(** * Properties *)

(** ** The model of SHA-1 and of the disc id on known values *)

Example sha1_abc :
  SHA1.digest (bytes_of_string "abc")
  = [0xa9; 0x99; 0x3e; 0x36; 0x47; 0x06; 0x81; 0x6a; 0xba; 0x3e;
     0x25; 0x71; 0x78; 0x50; 0xc2; 0x6c; 0x9c; 0xd0; 0xd8; 0x9d].
Proof. vm_compute. reflexivity. Qed.

Example sha1_empty :
  SHA1.digest []
  = [0xda; 0x39; 0xa3; 0xee; 0x5e; 0x6b; 0x4b; 0x0d; 0x32; 0x55;
     0xbf; 0xef; 0x95; 0x60; 0x18; 0x90; 0xaf; 0xd8; 0x07; 0x09].
Proof. vm_compute. reflexivity. Qed.

(** ** Python lists *)

Lemma py_getitem_lookup {A : Type} (l : list A) (k : nat) (x : A) :
  l !! k = Some x -> py_getitem l (Z.of_nat k) = Ok x.
Proof.
  intros H. unfold py_getitem, py_norm.
  destruct (Z.ltb_spec (Z.of_nat k) 0) as [Hk|Hk]; [lia|].
  destruct (Z.ltb_spec (Z.of_nat k) 0) as [Hk'|Hk']; [lia|].
  rewrite Nat2Z.id, H. reflexivity.
Qed.

Lemma py_getitem_nat {A : Type} (l : list A) (k : nat) :
  py_getitem l (Z.of_nat k)
  = match l !! k with Some x => Ok x | None => Raise IndexError end.
Proof.
  unfold py_getitem, py_norm.
  destruct (Z.ltb_spec (Z.of_nat k) 0) as [Hk|Hk]; [lia|].
  destruct (Z.ltb_spec (Z.of_nat k) 0) as [Hk'|Hk']; [lia|].
  rewrite Nat2Z.id. reflexivity.
Qed.

Lemma py_getitem_minus_1 {A : Type} (l : list A) :
  py_getitem l (-1)
  = match last l with Some x => Ok x | None => Raise IndexError end.
Proof.
  rewrite last_lookup. destruct l as [|y l']; [reflexivity|].
  unfold py_getitem, py_norm. cbn [Z.ltb Z.compare].
  replace (-1 + Z.of_nat (length (y :: l'))) with (Z.of_nat (length l'))
    by (cbn [length]; lia).
  destruct (Z.ltb_spec (Z.of_nat (length l')) 0) as [Hk|Hk]; [lia|].
  rewrite Nat2Z.id. reflexivity.
Qed.

Lemma py_getitem_last {A : Type} (l : list A) (x : A) :
  last l = Some x -> py_getitem l (-1) = Ok x.
Proof. intros H. rewrite py_getitem_minus_1, H. reflexivity. Qed.

Lemma py2_gt_irrefl (a : option Z) : py2_gt a a = false.
Proof. destruct a; cbn; [apply Z.ltb_irrefl | reflexivity]. Qed.

(** ** Track lengths *)

Lemma getTrackStart_numbered (tb : Table) (k : nat) (t : Track.t) (s : Z) :
  numbered (tracks tb) ->
  tracks tb !! k = Some t ->
  index1_absolute t = Some s ->
  getTrackStart tb (Track.number t) = Ok (Some s).
Proof.
  intros Hnum Hk Hs. rewrite (Hnum k t Hk).
  unfold getTrackStart.
  replace (Z.of_nat k + 1 - 1) with (Z.of_nat k) by lia.
  rewrite (py_getitem_lookup _ _ _ Hk). cbn [rbind].
  unfold index1_absolute in Hs. unfold Track.getIndex, dict_getitem.
  destruct (dict_get (Track.indexes t) 1) as [ix|]; [|discriminate].
  cbn in Hs |- *. congruence.
Qed.

Lemma getTrackEnd_last (tb : Table) (lo : Z) :
  leadout tb = Some lo ->
  getTrackEnd tb (len_tracks tb) = Ok (lo - 1).
Proof.
  intros Hlo. unfold getTrackEnd. rewrite Hlo. cbn [as_int rbind].
  rewrite Z.ltb_irrefl. reflexivity.
Qed.

(** C3, as the code has it: in the scenario of two audio tracks of one
    session, with index 1 of track 1 at 0, index 1 of track 2 at 15000 and
    the leadout at 30150, [getTrackLength(1)] is 15000 and
    [getTrackLength(2)] is 30150 - 15000 = 15150. *)
Theorem getTrackLength_two_track_scenario
    (tb : Table) (t1 t2 : Track.t) :
  tracks tb = [t1; t2] ->
  Track.audio t1 = true -> Track.audio t2 = true ->
  Track.session t1 = Track.session t2 ->
  index1_absolute t1 = Some 0 ->
  index1_absolute t2 = Some 15000 ->
  leadout tb = Some 30150 ->
  getTrackLength tb 1 = Ok 15000 /\ getTrackLength tb 2 = Ok 15150.
Proof.
  intros Htr _ _ Hses H1 H2 Hlo.
  unfold index1_absolute in H1, H2.
  destruct (dict_get (Track.indexes t1) 1) as [i1|] eqn:E1; [|discriminate].
  destruct (dict_get (Track.indexes t2) 1) as [i2|] eqn:E2; [|discriminate].
  cbn in H1, H2.
  unfold getTrackLength, getTrackEnd, getTrackStart, len_tracks,
    Track.getIndex, dict_getitem.
  rewrite Htr, Hlo. simpl. rewrite E1, E2. simpl. rewrite H1, H2. simpl.
  rewrite Hses, py2_gt_irrefl. split; reflexivity.
Qed.

Lemma getTrackLength_two_track_scenario_witness :
  getTrackLength two_tracks 1 = Ok 15000
  /\ getTrackLength two_tracks 2 = Ok 15150.
Proof.
  apply (getTrackLength_two_track_scenario two_tracks
           (mkTrack 1 true [mkIndex 1 (Some 0) None None None])
           (mkTrack 2 true [mkIndex 1 (Some 15000) None None None]));
    reflexivity.
Defined.

(** The scenario of C3 as the specification states it does not hold: the
    second length is not 15151. *)
Lemma getTrackLength_scenario_not_15151 :
  ~ (getTrackLength two_tracks 1 = Ok 15000
     /\ getTrackLength two_tracks 2 = Ok 15151).
Proof. intros [_ H]. vm_compute in H. discriminate H. Qed.

(** ** CDDB disc id *)

Lemma decimal_digit_0 (z : Z) : decimal_digit z 0 = z mod 10.
Proof. unfold decimal_digit. cbn. rewrite Z.div_1_r. reflexivity. Qed.

Lemma decimal_digit_S (z : Z) (k : nat) :
  decimal_digit z (S k) = decimal_digit (z / 10) k.
Proof.
  unfold decimal_digit. rewrite Nat2Z.inj_succ, Z.pow_succ_r by lia.
  rewrite Z.div_div by lia. reflexivity.
Qed.

Lemma digits_of_zero (n k : nat) :
  fold_right Z.add 0 (map (decimal_digit 0) (seq k n)) = 0.
Proof.
  revert k. induction n as [|n IH]; intros k; cbn [seq map fold_right].
  - reflexivity.
  - rewrite IH. unfold decimal_digit. rewrite Z.div_0_l; [reflexivity|].
    apply Z.pow_nonzero; lia.
Qed.

Lemma cddbSum_loop_digits (fuel : nat) :
  forall ret i : Z,
    0 <= i < 2 ^ Z.of_nat fuel ->
    cddbSum_loop fuel ret i
    = ret + fold_right Z.add 0 (map (decimal_digit i) (seq 0 fuel)).
Proof.
  induction fuel as [|fuel IH]; intros ret i Hi.
  - cbn. lia.
  - cbn [cddbSum_loop]. destruct (Z.ltb_spec 0 i) as [Hpos|Hzero].
    + rewrite IH.
      * cbn [seq map fold_right]. rewrite <- seq_shift, map_map.
        rewrite decimal_digit_0.
        rewrite (map_ext (fun k => decimal_digit i (S k))
                         (decimal_digit (i / 10)))
          by (intros k; apply decimal_digit_S).
        lia.
      * rewrite Nat2Z.inj_succ, Z.pow_succ_r in Hi by lia.
        split; [apply Z.div_pos; lia|].
        apply Z.div_lt_upper_bound; lia.
    + assert (i = 0) as -> by lia. rewrite digits_of_zero. lia.
Qed.

(** [_cddbSum] is the sum of the decimal digits. *)
Lemma _cddbSum_digit_sum (i : Z) : 0 <= i -> _cddbSum i = digit_sum i.
Proof.
  intros Hi. unfold _cddbSum, digit_sum. rewrite cddbSum_loop_digits.
  - lia.
  - rewrite Nat2Z.inj_succ, Z2Nat.id by apply Z.log2_nonneg.
    destruct (Z.eq_dec i 0) as [->|Hne]; [cbn; lia|].
    split; [lia|]. apply Z.log2_spec. lia.
Qed.

Lemma cddb_offsets_spec (tb : Table) (l : list Track.t) :
  forall (starts res : list Z) (n : Z),
    Forall2 (fun t s => getTrackStart tb (Track.number t) = Ok (Some s))
            l starts ->
    Forall (fun s => 0 <= s + 150) starts ->
    cddb_offsets tb l res n
    = Ok (res ++ map (fun s => s + 150) starts, n + cddb_checksum starts).
Proof.
  induction l as [|t l IH]; intros starts res n H2 Hpos.
  - inversion H2; subst. cbn. rewrite app_nil_r, Z.add_0_r. reflexivity.
  - inversion H2 as [|? s ? starts' Hs Hrest]; subst.
    inversion Hpos as [|? ? Hs0 Hpos']; subst.
    cbn [cddb_offsets]. rewrite Hs. cbn [rbind as_int].
    rewrite (IH starts' _ _ Hrest Hpos').
    unfold FRAMES_PER_SECOND. change (2 * 75) with 150.
    rewrite _cddbSum_digit_sum by (apply Z.div_pos; lia).
    unfold cddb_checksum. cbn [map fold_right].
    rewrite <- app_assoc. cbn [app]. f_equal. f_equal. lia.
Qed.

(** *** Eight hexadecimal digits *)

Lemma zeros_succ_r (n : nat) : zeros (S n) = zeros n +:+ "0".
Proof.
  induction n as [|n IH]; [reflexivity|].
  change (String "0" (zeros (S n)) = String "0" (zeros n +:+ "0")).
  f_equal. exact IH.
Qed.

Lemma append_assoc (a b c : string) : (a +:+ b) +:+ c = a +:+ (b +:+ c).
Proof.
  induction a as [|x a IH]; [reflexivity|].
  change (String x ((a +:+ b) +:+ c) = String x (a +:+ (b +:+ c))).
  f_equal. exact IH.
Qed.

Lemma append_nil_r (a : string) : a +:+ "" = a.
Proof.
  induction a as [|x a IH]; [reflexivity|].
  change (String x (a +:+ "") = String x a). f_equal. exact IH.
Qed.

Lemma length_append (a b : string) :
  String.length (a +:+ b) = (String.length a + String.length b)%nat.
Proof.
  induction a as [|x a IH]; [reflexivity|].
  change (S (String.length (a +:+ b))
          = S (String.length a + String.length b)).
  f_equal. exact IH.
Qed.

Lemma fixed_hex_zero (k : nat) :
  fixed_hex k 0 = zeros k.
Proof.
  induction k as [|k IH]; [reflexivity|].
  cbn [fixed_hex]. rewrite Z.div_0_l, IH by lia.
  rewrite zeros_succ_r. reflexivity.
Qed.

(** The digits that [hex_loop] puts in front of [acc] are those of
    [fixed_hex], without the leading zeroes. *)
Lemma hex_loop_fixed (k : nat) :
  forall (fuel : nat) (z : Z) (acc : string),
    0 <= z < 16 ^ Z.of_nat k ->
    z < 2 ^ Z.of_nat fuel ->
    exists ds : string,
      hex_loop false fuel z acc = ds +:+ acc
      /\ (String.length ds <= k)%nat
      /\ zeros (k - String.length ds) +:+ ds = fixed_hex k z.
Proof.
  induction k as [|k IH]; intros fuel z acc Hz Hfuel.
  - assert (z = 0) as -> by (cbn in Hz; lia).
    exists "". destruct fuel; cbn; auto.
  - destruct fuel as [|fuel].
    { assert (z = 0) as -> by (cbn in Hfuel; lia).
      exists "". cbn [hex_loop String.length]. split; [reflexivity|].
      split; [lia|]. rewrite append_nil_r, Nat.sub_0_r, fixed_hex_zero.
      reflexivity. }
    cbn [hex_loop]. destruct (Z.leb_spec z 0) as [Hle|Hpos].
    { assert (z = 0) as -> by lia.
      exists "". cbn [String.length]. split; [reflexivity|].
      split; [lia|]. rewrite append_nil_r, Nat.sub_0_r, fixed_hex_zero.
      reflexivity. }
    rewrite Nat2Z.inj_succ, Z.pow_succ_r in Hz, Hfuel by lia.
    destruct (IH fuel (z / 16) (String (hex_digit false (z mod 16)) acc))
      as (ds & Hds & Hlen & Hfix).
    { split; [apply Z.div_pos; lia|]. apply Z.div_lt_upper_bound; lia. }
    { apply Z.div_lt_upper_bound; lia. }
    exists (ds +:+ String (hex_digit false (z mod 16)) "").
    rewrite Hds, append_assoc. split; [reflexivity|].
    rewrite length_append. cbn [String.length]. split; [lia|].
    cbn [fixed_hex]. rewrite <- Hfix, <- append_assoc.
    replace (S k - (String.length ds + 1))%nat
      with (k - String.length ds)%nat by lia.
    reflexivity.
Qed.

Lemma format_0x_fixed_hex (k : nat) (z : Z) :
  (0 < k)%nat -> 0 <= z < 16 ^ Z.of_nat k ->
  format_0x false k z = fixed_hex k z.
Proof.
  intros Hk Hz. unfold format_0x.
  destruct (Z.ltb_spec z 0) as [?|_]; [lia|].
  unfold zfill, hex. destruct (Z.leb_spec z 0) as [Hle|Hpos].
  - assert (z = 0) as -> by lia. rewrite fixed_hex_zero.
    destruct k as [|k]; [lia|]. cbn [String.length].
    replace (S k - 1)%nat with k by lia. rewrite zeros_succ_r. reflexivity.
  - destruct (hex_loop_fixed k (S (Z.to_nat (Z.log2 z))) z "" Hz)
      as (ds & Hds & _ & Hfix).
    { rewrite Nat2Z.inj_succ, Z2Nat.id by apply Z.log2_nonneg.
      apply Z.log2_spec. lia. }
    rewrite Hds, append_nil_r. exact Hfix.
Qed.

Lemma lor_below (a b n : Z) :
  0 <= n -> 0 <= a < 2 ^ n -> 0 <= b < 2 ^ n -> 0 <= Z.lor a b < 2 ^ n.
Proof.
  intros Hn Ha Hb. split; [apply Z.lor_nonneg; lia|].
  destruct (Z.eq_dec (Z.lor a b) 0) as [->|Hne]; [apply Z.pow_pos_nonneg; lia|].
  assert (0 < Z.lor a b) by (pose proof (proj2 (Z.lor_nonneg a b)); lia).
  assert (Hn0 : 0 < n).
  { destruct (Z.eq_dec n 0) as [->|]; [|lia]. cbn in Ha, Hb.
    assert (a = 0) as -> by lia. assert (b = 0) as -> by lia.
    exfalso. apply Hne. reflexivity. }
  assert (Hlog : forall x, 0 <= x < 2 ^ n -> Z.log2 x < n).
  { intros x Hx. destruct (Z.eq_dec x 0) as [->|]; [cbn; lia|].
    apply Z.log2_lt_pow2; lia. }
  apply Z.log2_lt_pow2; [lia|]. rewrite Z.log2_lor by lia.
  apply Z.max_lub_lt; apply Hlog; assumption.
Qed.

Lemma cddb_packed_range (m : Z) (starts : list Z) (lo : Z) :
  0 < m <= 256 ->
  0 <= cddb_seconds starts lo < 2 ^ 24 ->
  Z.of_nat (length starts) < 256 ->
  0 <= cddb_packed m starts lo < 16 ^ Z.of_nat 8.
Proof.
  intros Hm Ht Hlen. change (16 ^ Z.of_nat 8) with (2 ^ 32).
  unfold cddb_packed.
  pose proof (Z.mod_pos_bound (cddb_checksum starts) m ltac:(lia)) as Hn.
  apply lor_below; [lia| |lia]. apply lor_below; [lia| |].
  - rewrite Z.shiftl_mul_pow2 by lia. change (2 ^ 24) with 16777216.
    change (2 ^ 32) with 4294967296. lia.
  - rewrite Z.shiftl_mul_pow2 by lia. change (2 ^ 24) with 16777216 in Ht.
    change (2 ^ 8) with 256. change (2 ^ 32) with 4294967296. lia.
Qed.

Lemma lookup_map {A B : Type} (f : A -> B) (l : list A) (i : nat) :
  map f l !! i = f <$> (l !! i).
Proof.
  revert i. induction l as [|x l IH]; intros [|i]; cbn; auto.
Qed.

Lemma starts_Forall2 (tb : Table) (starts : list Z) :
  numbered (tracks tb) ->
  map index1_absolute (tracks tb) = map Some starts ->
  Forall2 (fun t s => getTrackStart tb (Track.number t) = Ok (Some s))
          (tracks tb) starts.
Proof.
  intros Hnum Hmap. apply Forall2_same_length_lookup_2.
  - apply (f_equal (@length _)) in Hmap.
    rewrite !length_map in Hmap. exact Hmap.
  - intros i t s Ht Hs. apply (getTrackStart_numbered tb i t s Hnum Ht).
    apply (f_equal (fun l => l !! i)) in Hmap.
    rewrite !lookup_map, Ht, Hs in Hmap. cbn in Hmap. congruence.
Qed.

(** C1, as the code has it: on a table with at least one track, numbered
    from 1, whose indexes 1 and leadout are resolved, [getCDDBDiscId] is
    ["%08x"] of [((n mod 255) << 24) | (t << 8) | trackCount] with [n] the
    sum over the tracks of the digit sum of [(start + 150) // 75] and
    [t = leadout // 75 - start1 // 75]; the divisor of the checksum is
    [0xff], not 256.  When [t] fits 24 bits and there are fewer than 256
    tracks this is exactly eight lowercase hexadecimal digits. *)
Theorem getCDDBDiscId_packed (tb : Table) (starts : list Z) (lo : Z) :
  tracks tb <> [] ->
  numbered (tracks tb) ->
  map index1_absolute (tracks tb) = map Some starts ->
  Forall (fun s => 0 <= s + 150) starts ->
  leadout tb = Some lo ->
  getCDDBDiscId tb = Ok (format_0x false 8 (cddb_packed 255 starts lo))
  /\ (0 <= cddb_seconds starts lo < 2 ^ 24 ->
      Z.of_nat (length starts) < 256 ->
      format_0x false 8 (cddb_packed 255 starts lo)
      = fixed_hex 8 (cddb_packed 255 starts lo)).
Proof.
  intros Hne Hnum Hmap Hpos Hlo. split.
  - pose proof (starts_Forall2 tb starts Hnum Hmap) as H2.
    assert (Hlen : length (tracks tb) = length starts)
      by (eapply Forall2_length; eassumption).
    unfold getCDDBDiscId, getCDDBValues.
    rewrite (cddb_offsets_spec tb _ starts _ _ H2 Hpos). cbn [rbind].
    destruct (last (tracks tb)) as [tl|] eqn:Hlast;
      [|apply last_None in Hlast; contradiction].
    rewrite (py_getitem_last _ _ Hlast). cbn [rbind].
    assert (Hnl : Track.number tl = len_tracks tb).
    { rewrite last_lookup in Hlast. rewrite (Hnum _ _ Hlast).
      unfold len_tracks. destruct (tracks tb); [contradiction|].
      cbn [length Nat.pred]. lia. }
    rewrite Hnl, (getTrackEnd_last tb lo Hlo). cbn [rbind].
    destruct (tracks tb) as [|t0 rest] eqn:Htr; [contradiction|].
    destruct starts as [|s0 starts']; [discriminate|].
    assert (H0 : getTrackStart tb 1 = Ok (Some s0)).
    { inversion H2 as [|? ? ? ? Hs0 _]; subst.
      assert (Hn0 : Track.number t0 = 1).
      { apply (Hnum 0%nat t0). reflexivity. }
      rewrite Hn0 in Hs0. exact Hs0. }
    rewrite H0. cbn [rbind as_int].
    unfold py_getitem, py_norm. cbn [Z.ltb Z.compare lookup list_lookup].
    change (Z.to_nat 0) with 0%nat. cbn [lookup list_lookup].
    unfold cddb_packed, cddb_seconds, FRAMES_PER_SECOND, len_tracks.
    rewrite Htr, Hlen. cbn [hd].
    replace (lo - 1 + 1) with lo by lia. rewrite Z.add_0_l. reflexivity.
  - intros Ht Hl. apply format_0x_fixed_hex; [lia|].
    apply cddb_packed_range; [lia | assumption | assumption].
Qed.

Lemma two_tracks_numbered : numbered (tracks two_tracks).
Proof.
  intros [|[|k]] t H; cbn in H; inversion H; reflexivity.
Qed.

Lemma getCDDBDiscId_packed_witness :
  getCDDBDiscId two_tracks
  = Ok (format_0x false 8 (cddb_packed 255 [0; 15000] 30150))
  /\ (0 <= cddb_seconds [0; 15000] 30150 < 2 ^ 24 ->
      Z.of_nat (length [0; 15000]) < 256 ->
      format_0x false 8 (cddb_packed 255 [0; 15000] 30150)
      = fixed_hex 8 (cddb_packed 255 [0; 15000] 30150)).
Proof.
  apply (getCDDBDiscId_packed two_tracks [0; 15000] 30150).
  - discriminate.
  - exact two_tracks_numbered.
  - reflexivity.
  - repeat constructor; lia.
  - reflexivity.
Defined.

(** C1 as the specification states it, with the checksum taken modulo 256,
    fails on a disc of thirty tracks whose checksum is 444. *)
Lemma getCDDBDiscId_not_mod_256 :
  let starts := map (fun k => Z.of_nat k * 11625) (seq 0 30) in
  map index1_absolute (tracks thirty_tracks) = map Some starts
  /\ leadout thirty_tracks = Some 348750
  /\ cddb_checksum starts = 444
  /\ getCDDBDiscId thirty_tracks
     <> Ok (format_0x false 8 (cddb_packed 256 starts 348750)).
Proof.
  cbv zeta. split; [reflexivity|]. split; [reflexivity|].
  split; [vm_compute; reflexivity|].
  intros H. vm_compute in H. discriminate H.
Qed.

(** ** MusicBrainz values *)

Lemma omap_lookup_seq {A : Type} (l : list A) (n : nat) :
  forall a : nat, omap (fun k => l !! k) (seq a n) = take n (drop a l).
Proof.
  induction n as [|n IH]; intros a; [reflexivity|].
  cbn [seq omap list_omap]. rewrite IH.
  destruct (l !! a) as [x|] eqn:Hx.
  - rewrite (drop_S l x a Hx). reflexivity.
  - apply lookup_ge_None in Hx.
    rewrite !drop_ge by lia. rewrite !take_nil. reflexivity.
Qed.

Lemma audio_offsets_app (l1 l2 : list Track.t) :
  audio_offsets (l1 ++ l2) = audio_offsets l1 ++ audio_offsets l2.
Proof.
  unfold audio_offsets. rewrite List.filter_app, map_app. reflexivity.
Qed.

Lemma mb_offsets_spec (tb : Table) (ks : list nat) :
  forall res vs : list Z,
    mb_offsets tb (map (fun k => 1 + Z.of_nat k) ks) res = Ok vs ->
    exists offs : list Z,
      vs = res ++ offs
      /\ map Some offs
         = audio_offsets (omap (fun k => tracks tb !! k) ks).
Proof.
  induction ks as [|k ks IH]; intros res vs H.
  - cbn in H. inversion H; subst. exists []. rewrite app_nil_r. auto.
  - cbn [map mb_offsets] in H.
    replace (1 + Z.of_nat k - 1) with (Z.of_nat k) in H by lia.
    rewrite py_getitem_nat in H. cbn [omap list_omap].
    destruct (tracks tb !! k) as [t|] eqn:Ht.
    + change (t :: omap (fun k => tracks tb !! k) ks)
        with ([t] ++ omap (fun k => tracks tb !! k) ks).
      rewrite audio_offsets_app.
      unfold audio_offsets at 1. cbn [List.filter].
      destruct (Track.audio t) eqn:Ha; cbn [negb] in H.
      * unfold Track.getIndex, dict_getitem in H.
        unfold index1_absolute.
        cbn [map mbind option_bind].
        destruct (dict_get (Track.indexes t) 1) as [ix|];
          [|discriminate]. cbn [rbind mbind option_bind] in H |- *.
        destruct (Index.absolute ix) as [a|]; [|discriminate].
        cbn [rbind as_int] in H.
        destruct (IH _ _ H) as (offs & -> & Hoffs).
        exists ((a + 150) :: offs). rewrite <- app_assoc.
        split; [reflexivity|]. cbn. rewrite Hoffs. reflexivity.
      * cbn [map app]. apply IH. exact H.
    + apply IH. exact H.
Qed.

Lemma py_range_1_100 :
  py_range 1 100 = map (fun k => 1 + Z.of_nat k) (seq 0 99).
Proof. reflexivity. Qed.

(** The part of [_getMusicBrainzValues] in front of its loop, for any
    range of the loop. *)
Lemma mb_leadout_spec (tb : Table) (rng vs : list Z) :
  (let* leadout :=
     if hasDataTracks tb then
       let* last := py_getitem (tracks tb) (-1) in
       let* _ := py_assert (negb (Track.audio last)) in
       let* ix := Track.getIndex last 1 in
       let* a := as_int (Index.absolute ix) in
       Ok (Some (a - 11250 - 150))
     else Ok (leadout tb) in
   let* lo := as_int leadout in
   mb_offsets tb rng ([1; getAudioTracks tb] ++ [150 + lo])) = Ok vs ->
  exists eff : Z,
    effective_leadout tb = Some eff
    /\ mb_offsets tb rng [1; getAudioTracks tb; 150 + eff] = Ok vs.
Proof.
  unfold effective_leadout. intros H.
  destruct (hasDataTracks tb).
  - rewrite py_getitem_minus_1 in H.
    destruct (last (tracks tb)) as [t|]; [|discriminate].
    cbn [rbind mbind option_bind] in H |- *.
    destruct (Track.audio t); [discriminate|]. cbn [negb py_assert rbind] in H.
    unfold Track.getIndex, dict_getitem, index1_absolute in *.
    destruct (dict_get (Track.indexes t) 1) as [ix|]; [|discriminate].
    cbn [rbind mbind option_bind] in H |- *.
    destruct (Index.absolute ix) as [a|]; [|discriminate].
    cbn [rbind as_int mbind option_bind] in H |- *.
    exists (a - 11400). split; [reflexivity|].
    replace (a - 11400) with (a - 11250 - 150) by lia. exact H.
  - cbn [rbind] in H. destruct (leadout tb) as [lo|]; [|discriminate].
    cbn [rbind as_int] in H. exists lo. split; [reflexivity | exact H].
Qed.

Lemma mb_offsets_first_99 (tb : Table) (res vs : list Z) :
  mb_offsets tb (py_range 1 100) res = Ok vs ->
  exists offs : list Z,
    vs = res ++ offs
    /\ map Some offs = audio_offsets (take 99 (tracks tb)).
Proof.
  intros H. rewrite py_range_1_100 in H.
  destruct (mb_offsets_spec tb (seq 0 99) _ _ H) as (offs & -> & Hoffs).
  exists offs. rewrite omap_lookup_seq, drop_0 in Hoffs. auto.
Qed.

(** C5, as the code has it: the MusicBrainz values are 1, the number of
    audio tracks, 150 plus the effective leadout, and then the
    150-compensated offsets of index 1 of the audio tracks among the first
    99 tracks, in track order. *)
Theorem _getMusicBrainzValues_shape (tb : Table) (vs : list Z) :
  _getMusicBrainzValues tb = Ok vs ->
  exists (eff : Z) (offs : list Z),
    effective_leadout tb = Some eff
    /\ vs = 1 :: getAudioTracks tb :: (150 + eff) :: offs
    /\ map Some offs = audio_offsets (take 99 (tracks tb)).
Proof.
  intros H.
  destruct (mb_leadout_spec tb (py_range 1 100) vs H) as (eff & Heff & Hloop).
  destruct (mb_offsets_first_99 tb _ vs Hloop) as (offs & Hvs & Hoffs).
  exists eff, offs. auto.
Qed.

Lemma _getMusicBrainzValues_shape_witness :
  exists (eff : Z) (offs : list Z),
    effective_leadout with_data_track = Some eff
    /\ [1; 1; 15150; 150] = 1 :: getAudioTracks with_data_track
                              :: (150 + eff) :: offs
    /\ map Some offs = audio_offsets (take 99 (tracks with_data_track)).
Proof.
  apply (_getMusicBrainzValues_shape with_data_track [1; 1; 15150; 150]).
  reflexivity.
Defined.

(** C5 as the specification states it, with the offsets of all the audio
    tracks, fails on a table of a hundred audio tracks: the value list has
    99 offsets. *)
Lemma _getMusicBrainzValues_hundred_tracks :
  exists vs : list Z,
    _getMusicBrainzValues hundred_tracks = Ok vs
    /\ length (drop 3 vs) = 99%nat
    /\ length (audio_offsets (tracks hundred_tracks)) = 100%nat
    /\ map Some (drop 3 vs) <> audio_offsets (tracks hundred_tracks).
Proof.
  eexists. split; [vm_compute; reflexivity|].
  split; [reflexivity|]. split; [reflexivity|].
  intros H. apply (f_equal (@length _)) in H. vm_compute in H. discriminate H.
Qed.

(** ** MusicBrainz disc id *)

Lemma sha1_digest_length (msg : list Z) : length (SHA1.digest msg) = 20%nat.
Proof.
  unfold SHA1.digest.
  destruct (SHA1.blocks (length (SHA1.pad msg)) SHA1.init (SHA1.pad msg))
    as [[[[h0 h1] h2] h3] h4].
  reflexivity.
Qed.

Lemma str_split_cons (sep : ascii) (s : string) :
  exists h t, str_split sep s = h :: t.
Proof.
  destruct s as [|c s]; cbn [str_split]; [eauto|].
  destruct (Ascii.eqb c sep); [eauto|].
  destruct (str_split sep s); eauto.
Qed.

Lemma str_join_cons_char (sep : string) (c : ascii) (h : string)
    (t : list string) :
  str_join sep (String c h :: t) = String c (str_join sep (h :: t)).
Proof. destruct t; reflexivity. Qed.

(** Splitting at a character and joining with another replaces the one by
    the other. *)
Lemma str_join_split (a b : ascii) (s : string) :
  str_join (String b "") (str_split a s)
  = str_map (fun c => if Ascii.eqb c a then b else c) s.
Proof.
  induction s as [|c s IH]; [reflexivity|].
  cbn [str_split str_map]. destruct (Ascii.eqb c a).
  - destruct (str_split_cons a s) as (h & t & Hs).
    rewrite Hs in IH |- *. cbn [str_join]. rewrite <- IH. reflexivity.
  - destruct (str_split_cons a s) as (h & t & Hs).
    rewrite Hs in IH |- *. rewrite str_join_cons_char, IH. reflexivity.
Qed.

Lemma str_map_length (f : ascii -> ascii) (s : string) :
  String.length (str_map f s) = String.length s.
Proof. induction s as [|c s IH]; cbn; [reflexivity | now rewrite IH]. Qed.

Lemma str_map_Forall (P : ascii -> Prop) (f : ascii -> ascii) (s : string) :
  Forall (fun c => P (f c)) (list_ascii_of_string s) ->
  Forall P (list_ascii_of_string (str_map f s)).
Proof.
  induction s as [|c s IH]; cbn; intros H; [constructor|].
  inversion H; subst. constructor; auto.
Qed.

Lemma b64_char_text (i : Z) : b64_text_char (b64_char i) = true.
Proof.
  unfold b64_char. generalize (Z.to_nat i). intros n.
  do 64 (destruct n as [|n]; [reflexivity|]). reflexivity.
Qed.

Lemma b64_text_char_mb (c : ascii) :
  b64_text_char c = true ->
  mb_char
    ((fun c => if Ascii.eqb c "=" then "-"%char else c)
       ((fun c => if Ascii.eqb c "+" then "."%char
                  else if Ascii.eqb c "/" then "_"%char else c) c)) = true.
Proof.
  destruct c as [[] [] [] [] [] [] [] []]; intros H;
    first [reflexivity | discriminate H].
Qed.

Lemma disc_id_of_digest (d : list Z) :
  length d = 20%nat ->
  let s := str_join "-" (str_split "=" (b64encode d "." "_")) in
  String.length s = 28%nat
  /\ Forall (fun c => mb_char c = true) (list_ascii_of_string s).
Proof.
  intros Hd. cbv zeta. rewrite str_join_split. unfold b64encode.
  do 20 (destruct d as [|? d]; [discriminate Hd|]).
  destruct d; [|discriminate Hd]. clear Hd.
  split.
  - rewrite !str_map_length. reflexivity.
  - apply str_map_Forall, str_map_Forall.
    cbn [b2a_base64 list_ascii_of_string].
    repeat (constructor;
            [apply b64_text_char_mb; first [apply b64_char_text | reflexivity]|]).
    constructor.
Qed.

Lemma mb_offsets_prefix (tb : Table) (rng : list Z) :
  forall res vs : list Z,
    mb_offsets tb rng res = Ok vs -> exists more, vs = res ++ more.
Proof.
  induction rng as [|i rng IH]; intros res vs H; cbn [mb_offsets] in H.
  - inversion H; subst. exists []. now rewrite app_nil_r.
  - destruct (py_getitem (tracks tb) (i - 1)) as [t|]; [|eauto].
    destruct (negb (Track.audio t)); [eauto|].
    destruct (Track.getIndex t 1) as [ix|]; [|discriminate].
    cbn [rbind] in H. destruct (as_int (Index.absolute ix)); [|discriminate].
    cbn [rbind] in H. destruct (IH _ _ H) as [more ->].
    exists ((a + 150) :: more). rewrite <- app_assoc. reflexivity.
Qed.

Lemma mb_message_total (tb : Table) (vs : list Z) :
  _getMusicBrainzValues tb = Ok vs -> exists msg, mb_message vs = Ok msg.
Proof.
  unfold _getMusicBrainzValues. intros H.
  destruct (if hasDataTracks tb then _ else _) as [lo|]; [|discriminate].
  cbn [rbind] in H. destruct (as_int lo) as [l|]; [|discriminate].
  cbn [rbind] in H. destruct (mb_offsets_prefix _ _ _ _ H) as [more ->].
  unfold mb_message. cbn. eauto.
Qed.

(** C4: on a table whose cache is empty and whose MusicBrainz values can
    be computed, [getMusicBrainzDiscId] returns a string of 28 characters
    over [A-Za-z0-9._-] and stores it in the table; asking again on the
    table it left returns the same string and leaves the table as it is. *)
Theorem getMusicBrainzDiscId_28_chars_cached (tb : Table) (vs : list Z) :
  truthy_str (mbdiscid tb) = false ->
  _getMusicBrainzValues tb = Ok vs ->
  exists s : string,
    getMusicBrainzDiscId tb = (set_mbdiscid (Some s) tb, Ok s)
    /\ String.length s = 28%nat
    /\ Forall (fun c => mb_char c = true) (list_ascii_of_string s)
    /\ getMusicBrainzDiscId (set_mbdiscid (Some s) tb)
       = (set_mbdiscid (Some s) tb, Ok s).
Proof.
  intros Hcache Hvs.
  destruct (mb_message_total tb vs Hvs) as [msg Hmsg].
  pose proof (sha1_digest_length (bytes_of_string msg)) as Hlen.
  destruct (disc_id_of_digest _ Hlen) as [H28 Hchars].
  set (s := str_join "-" (str_split "=" (b64encode
              (SHA1.digest (bytes_of_string msg)) "." "_"))) in *.
  exists s. split; [|split; [exact H28 | split; [exact Hchars|]]].
  - unfold getMusicBrainzDiscId. rewrite Hcache, Hvs. cbn [rbind].
    rewrite Hmsg. cbn [rbind]. rewrite Hlen. cbn [py_assert rbind Z.eqb].
    fold s. rewrite H28. reflexivity.
  - unfold getMusicBrainzDiscId. cbn [mbdiscid set_mbdiscid truthy_str].
    destruct s as [|c s']; [discriminate H28|]. reflexivity.
Qed.

Lemma getMusicBrainzDiscId_28_chars_cached_witness :
  exists s : string,
    getMusicBrainzDiscId two_tracks = (set_mbdiscid (Some s) two_tracks, Ok s)
    /\ String.length s = 28%nat
    /\ Forall (fun c => mb_char c = true) (list_ascii_of_string s)
    /\ getMusicBrainzDiscId (set_mbdiscid (Some s) two_tracks)
       = (set_mbdiscid (Some s) two_tracks, Ok s).
Proof.
  apply (getMusicBrainzDiscId_28_chars_cached two_tracks
           [1; 2; 30300; 150; 15150]); reflexivity.
Defined.

(** The example of the MusicBrainz documentation: six tracks, leadout at
    sector 95462. *)
Example mb_documentation_example :
  (let* msg := mb_message [1; 6; 95462; 150; 15363; 32314; 46592; 63414;
                           80489] in
   Ok (str_join "-" (str_split "="
         (b64encode (SHA1.digest (bytes_of_string msg)) "." "_"))))
  = Ok "49HHV7Eb8UKF3aQiNmu1GR8vKTY-".
Proof. vm_compute. reflexivity. Qed.

(** ** Tables of the same shape *)

Section TableRelFacts.
Variable R : Index.t -> Index.t -> Prop.
Hypothesis R_refl : forall ix, R ix ix.

Lemma entry_rel_refl (e : Z * Index.t) : entry_rel R e e.
Proof. split; [reflexivity | apply R_refl]. Qed.

Lemma entries_rel_refl (d : dict Index.t) : Forall2 (entry_rel R) d d.
Proof.
  induction d as [|e d IH]; constructor;
    [apply entry_rel_refl | exact IH].
Qed.

Lemma track_rel_refl (tr : Track.t) : track_rel R tr tr.
Proof.
  split; [apply entries_rel_refl | destruct tr; reflexivity].
Qed.

Lemma table_rel_refl (tb : Table) : table_rel R tb tb.
Proof.
  split; [|destruct tb; reflexivity].
  induction (tracks tb) as [|tr l IH]; constructor;
    [apply track_rel_refl | exact IH].
Qed.

Lemma keys_rel (d d' : dict Index.t) :
  Forall2 (entry_rel R) d d' -> keys d' = keys d.
Proof.
  induction 1 as [|e e' d d' [Hk _] _ IH]; [reflexivity|].
  unfold keys in *. cbn [map]. rewrite Hk, IH. reflexivity.
Qed.

Lemma dict_get_rel (d d' : dict Index.t) (k : Z) :
  Forall2 (entry_rel R) d d' ->
  option_Forall2 R (dict_get d k) (dict_get d' k).
Proof.
  induction 1 as [|[k1 ix] [k1' ix'] d d' [Hk Hr] _ IH]; [constructor|].
  cbn in Hk, Hr. subst k1'. cbn [dict_get].
  destruct (k1 =? k); [constructor; exact Hr | exact IH].
Qed.

Lemma dict_alter_rel (f : Index.t -> Index.t) (k : Z) (d : dict Index.t) :
  (forall ix, dict_get d k = Some ix -> R ix (f ix)) ->
  Forall2 (entry_rel R) d (dict_alter f k d).
Proof.
  induction d as [|[k1 ix] d IH]; intros Hf; [constructor|].
  cbn [dict_alter dict_get] in *. destruct (k1 =? k).
  - constructor.
    + split; [reflexivity | apply Hf; reflexivity].
    + apply entries_rel_refl.
  - constructor; [apply entry_rel_refl | apply IH, Hf].
Qed.

Lemma py_getitem_Forall2 {A : Type} (P : A -> A -> Prop) (l l' : list A)
    (k : Z) :
  Forall2 P l l' ->
  match py_getitem l k, py_getitem l' k with
  | Ok x, Ok x' => P x x'
  | Raise e, Raise e' => e = e'
  | _, _ => False
  end.
Proof.
  intros H. unfold py_getitem. rewrite <- (Forall2_length _ _ _ H).
  destruct (py_norm (Z.of_nat (length l)) k <? 0); [reflexivity|].
  destruct (l !! Z.to_nat (py_norm (Z.of_nat (length l)) k)) as [x|] eqn:Hx.
  - destruct (Forall2_lookup_l _ _ _ _ _ H Hx) as (x' & -> & HP). exact HP.
  - destruct (l' !! Z.to_nat (py_norm (Z.of_nat (length l)) k)) as [x'|] eqn:Hx';
      [|reflexivity].
    destruct (Forall2_lookup_r _ _ _ _ _ H Hx') as (x & Hx2 & _). congruence.
Qed.

Lemma tracks_rel_getitem (tb tb' : Table) (k : Z) :
  table_rel R tb tb' ->
  match py_getitem (tracks tb) k, py_getitem (tracks tb') k with
  | Ok tr, Ok tr' => track_rel R tr tr'
  | Raise e, Raise e' => e = e'
  | _, _ => False
  end.
Proof. intros [H _]. apply py_getitem_Forall2. exact H. Qed.

Lemma len_tracks_rel (tb tb' : Table) :
  table_rel R tb tb' -> len_tracks tb' = len_tracks tb.
Proof.
  intros [H _]. unfold len_tracks. rewrite (Forall2_length _ _ _ H).
  reflexivity.
Qed.

Lemma getNextTrackIndex_rel (tb tb' : Table) (t i : Z) :
  table_rel R tb tb' ->
  getNextTrackIndex tb' t i = getNextTrackIndex tb t i.
Proof.
  intros H. unfold getNextTrackIndex.
  rewrite (len_tracks_rel _ _ H).
  pose proof (tracks_rel_getitem tb tb' (t - 1) H) as H1.
  pose proof (tracks_rel_getitem tb tb' (t + 1 - 1) H) as H2.
  destruct (py_getitem (tracks tb) (t - 1)) as [tr|e],
           (py_getitem (tracks tb') (t - 1)) as [tr'|e'];
    try contradiction; [|subst; reflexivity].
  cbn [rbind]. rewrite (keys_rel _ _ (proj1 H1)).
  destruct (list_index (keys (Track.indexes tr)) i) as [p|]; [|reflexivity].
  cbn [rbind].
  destruct (p + 1 <? Z.of_nat (length (keys (Track.indexes tr))));
    [reflexivity|].
  destruct (len_tracks tb <? t + 1); [reflexivity|].
  destruct (py_getitem (tracks tb) (t + 1 - 1)) as [tr2|e],
           (py_getitem (tracks tb') (t + 1 - 1)) as [tr2'|e'];
    try contradiction; [|subst; reflexivity].
  cbn [rbind]. rewrite (keys_rel _ _ (proj1 H2)). reflexivity.
Qed.

Lemma lookup_index_rel (tb tb' : Table) (t i : Z) :
  table_rel R tb tb' ->
  match lookup_index tb t i, lookup_index tb' t i with
  | Ok ix, Ok ix' => R ix ix'
  | Raise e, Raise e' => e = e'
  | _, _ => False
  end.
Proof.
  intros H. unfold lookup_index, dict_getitem.
  pose proof (tracks_rel_getitem tb tb' (t - 1) H) as H1.
  destruct (py_getitem (tracks tb) (t - 1)) as [tr|e],
           (py_getitem (tracks tb') (t - 1)) as [tr'|e'];
    try contradiction; [|exact H1].
  cbn [rbind]. pose proof (dict_get_rel _ _ i (proj1 H1)) as H2.
  inversion H2; [assumption | reflexivity].
Qed.

Lemma total_indexes_rel (tb tb' : Table) :
  table_rel R tb tb' -> total_indexes tb' = total_indexes tb.
Proof.
  intros [H _]. unfold total_indexes.
  induction H as [|tr tr' l l' [Hd _] _ IH]; [reflexivity|].
  cbn [fold_right]. rewrite IH, (Forall2_length _ _ _ Hd). reflexivity.
Qed.

Lemma index_at_rel (tb tb' : Table) (p q : nat) :
  table_rel R tb tb' ->
  option_Forall2 R (index_at tb p q) (index_at tb' p q).
Proof.
  intros [H _]. unfold index_at.
  destruct (tracks tb !! p) as [tr|] eqn:Htr.
  - destruct (Forall2_lookup_l _ _ _ _ _ H Htr) as (tr' & -> & [Hd _]).
    simpl.
    destruct (Track.indexes tr !! q) as [e|] eqn:He.
    + destruct (Forall2_lookup_l _ _ _ _ _ Hd He) as (e' & He' & [_ Hr]).
      unfold dict in *. rewrite He'. simpl. constructor. exact Hr.
    + simpl.
      destruct (Track.indexes tr' !! q) as [e'|] eqn:He'; [|constructor].
      destruct (Forall2_lookup_r _ _ _ _ _ Hd He') as (e & He2 & _).
      unfold dict in *. congruence.
  - simpl. destruct (tracks tb' !! p) as [tr'|] eqn:Htr'; [|constructor].
    destruct (Forall2_lookup_r _ _ _ _ _ H Htr') as (tr & Htr2 & _).
    congruence.
Qed.

(** A write to the index at [(t, i)] relates the table to its successor
    when it relates that index to what is written. *)
Lemma alter_index_rel (f : Index.t -> Index.t) (tb : Table) (t i : Z) :
  (forall ix, lookup_index tb t i = Ok ix -> R ix (f ix)) ->
  table_rel R tb (alter_index f t i tb).
Proof.
  intros Hf. unfold alter_index.
  destruct (py_norm (len_tracks tb) (t - 1) <? 0) eqn:Hneg;
    [apply table_rel_refl|].
  split; [|reflexivity]. cbn [tracks set_tracks].
  apply Forall2_same_length_lookup_2; [now rewrite length_alter|].
  intros n tr tr' Hn Hn'.
  destruct (decide (n = Z.to_nat (py_norm (len_tracks tb) (t - 1))))
    as [->|Hne].
  - rewrite list_lookup_alter_eq, Hn in Hn'. cbn in Hn'.
    inversion Hn'; subst tr'. split; [|reflexivity].
    cbn [alter_track_index Track.indexes Track.set_indexes].
    apply dict_alter_rel. intros ix Hix. apply Hf.
    unfold lookup_index, py_getitem, len_tracks in *.
    rewrite Hneg, Hn. cbn [rbind]. unfold dict_getitem. rewrite Hix.
    reflexivity.
  - rewrite list_lookup_alter_ne in Hn' by congruence.
    assert (tr' = tr) as -> by congruence. apply track_rel_refl.
Qed.
End TableRelFacts.

Lemma table_rel_trans (R : Index.t -> Index.t -> Prop) (a b c : Table) :
  (forall x y z, R x y -> R y z -> R x z) ->
  table_rel R a b -> table_rel R b c -> table_rel R a c.
Proof.
  intros Htr [Hab Eb] [Hbc Ec]. split.
  - eapply Forall2_trans; [|exact Hab | exact Hbc].
    intros x y z [Hxy Ey] [Hyz Ez]. split.
    + eapply Forall2_trans; [|exact Hxy | exact Hyz].
      intros e1 e2 e3 [K1 R1] [K2 R2]. split; [congruence | eauto].
    + rewrite Ez, Ey. reflexivity.
  - rewrite Ec, Eb. reflexivity.
Qed.

Lemma entries_rel_eq (d d' : dict Index.t) :
  Forall2 (entry_rel eq) d d' -> d' = d.
Proof.
  induction 1 as [|[k x] [k' x'] d d' [Hk Hx] _ IH]; [reflexivity|].
  cbn in Hk, Hx. subst. reflexivity.
Qed.

Lemma tracks_rel_eq (l l' : list Track.t) :
  Forall2 (track_rel eq) l l' -> l' = l.
Proof.
  induction 1 as [|tr tr' l l' [Hd Et] _ IH]; [reflexivity|].
  subst l'. f_equal. rewrite Et, (entries_rel_eq _ _ Hd).
  destruct tr; reflexivity.
Qed.

Lemma table_rel_eq (tb tb' : Table) : table_rel eq tb tb' -> tb' = tb.
Proof.
  intros [H E]. rewrite E, (tracks_rel_eq _ _ H). destruct tb; reflexivity.
Qed.

(** A write that leaves the index as it is leaves the table as it is. *)
Lemma alter_index_id (f : Index.t -> Index.t) (tb : Table) (t i : Z) :
  (forall ix, lookup_index tb t i = Ok ix -> f ix = ix) ->
  alter_index f t i tb = tb.
Proof.
  intros Hf. apply table_rel_eq. apply alter_index_rel; [reflexivity|].
  intros ix Hix. symmetry. apply Hf, Hix.
Qed.

Lemma dict_get_alter (f : Index.t -> Index.t) (k : Z) (d : dict Index.t) :
  dict_get (dict_alter f k d) k = f <$> dict_get d k.
Proof.
  induction d as [|[k1 ix] d IH]; [reflexivity|].
  cbn [dict_alter dict_get]. destruct (k1 =? k) eqn:E; cbn [dict_get];
    rewrite E; [reflexivity | exact IH].
Qed.

Lemma py_getitem_alter {A : Type} (g : A -> A) (l : list A) (k : Z) (x : A) :
  py_getitem l k = Ok x ->
  (py_norm (Z.of_nat (length l)) k <? 0) = false
  /\ py_getitem (alter g (Z.to_nat (py_norm (Z.of_nat (length l)) k)) l) k
     = Ok (g x).
Proof.
  unfold py_getitem. rewrite length_alter.
  destruct (py_norm (Z.of_nat (length l)) k <? 0); [discriminate|].
  rewrite list_lookup_alter_eq.
  destruct (l !! Z.to_nat (py_norm (Z.of_nat (length l)) k)); [|discriminate].
  intros H. inversion H; subst. split; reflexivity.
Qed.

(** Reading back the index that was just written. *)
Lemma lookup_index_alter (f : Index.t -> Index.t) (tb : Table) (t i : Z)
    (ix : Index.t) :
  lookup_index tb t i = Ok ix ->
  lookup_index (alter_index f t i tb) t i = Ok (f ix).
Proof.
  unfold lookup_index, alter_index, len_tracks. intros H.
  destruct (py_getitem (tracks tb) (t - 1)) as [tr|] eqn:Htr; [|discriminate].
  cbn [rbind] in H.
  destruct (py_getitem_alter (alter_track_index f i) _ _ _ Htr) as [-> Hget].
  cbn [tracks set_tracks]. rewrite Hget. cbn [rbind].
  unfold dict_getitem in *.
  cbn [alter_track_index Track.indexes Track.set_indexes].
  rewrite dict_get_alter.
  destruct (dict_get (Track.indexes tr) i); [|discriminate].
  inversion H; subst. reflexivity.
Qed.

(** ** absolutize *)

Lemma absolutized_refl (ix : Index.t) : absolutized ix ix.
Proof. left. reflexivity. Qed.

Lemma absolutize_index_idem (ix : Index.t) :
  absolutize_index (absolutize_index ix) = absolutize_index ix.
Proof. reflexivity. Qed.

Lemma absolutized_trans (x y z : Index.t) :
  absolutized x y -> absolutized y z -> absolutized x z.
Proof.
  intros [->| ->] [->| ->]; unfold absolutized; auto.
Qed.

Lemma absolutized_fields (ix ix' : Index.t) :
  absolutized ix ix' ->
  Index.number ix' = Index.number ix
  /\ Index.counter ix' = Index.counter ix
  /\ Index.relative ix' = Index.relative ix.
Proof. intros [->| ->]; auto. Qed.

Lemma check_absolute_absolutized (ix : Index.t) :
  check_absolute (absolutize_index ix) = Ok tt.
Proof.
  unfold check_absolute, absolutize_index. cbn.
  destruct (Index.relative ix) as [r|]; [|reflexivity].
  cbn. rewrite Z.eqb_refl. reflexivity.
Qed.

Lemma absolutize_fetch_lookup (tb : Table) (t i : Z) (ix : Index.t) :
  absolutize_fetch tb t i = Ok ix -> lookup_index tb t i = Ok ix.
Proof.
  unfold absolutize_fetch, lookup_index, Track.getIndex. intros H.
  destruct (py_getitem (tracks tb) (t - 1)) as [tr|]; [|discriminate].
  cbn [rbind] in *.
  destruct (dict_getitem (Track.indexes tr) i) as [ix0|]; [|discriminate].
  cbn [rbind] in H. destruct (Track.number tr =? t); [|discriminate].
  cbn [py_assert rbind] in H.
  destruct (Index.number ix0 =? i); [|discriminate]. exact H.
Qed.

(** Tables of the same shape whose indexes keep their numbers give the same
    outcome of the fetch, on related indexes. *)
Lemma absolutize_fetch_rel (R : Index.t -> Index.t -> Prop)
    (tb tb' : Table) (t i : Z) :
  (forall x y, R x y -> Index.number y = Index.number x) ->
  table_rel R tb tb' ->
  match absolutize_fetch tb t i, absolutize_fetch tb' t i with
  | Ok ix, Ok ix' => R ix ix'
  | Raise e, Raise e' => e = e'
  | _, _ => False
  end.
Proof.
  intros Hnum Hrel. unfold absolutize_fetch, Track.getIndex, dict_getitem.
  pose proof (py_getitem_Forall2 _ _ _ (t - 1) (proj1 Hrel)) as H1.
  destruct (py_getitem (tracks tb) (t - 1)) as [tr|e],
           (py_getitem (tracks tb') (t - 1)) as [tr'|e'];
    try contradiction; [|exact H1].
  cbn [rbind]. destruct H1 as [Hd Et].
  pose proof (dict_get_rel R _ _ i Hd) as H2.
  assert (Hn : Track.number tr' = Track.number tr)
    by (rewrite Et; reflexivity).
  rewrite Hn.
  inversion H2 as [x y Hxy Ex Ey|Ex Ey]; cbn [rbind]; [|reflexivity].
  destruct (Track.number tr =? t); cbn [py_assert rbind]; [|reflexivity].
  rewrite (Hnum _ _ Hxy).
  destruct (Index.number x =? i); cbn [py_assert rbind];
    [exact Hxy | reflexivity].
Qed.

Lemma absolutize_fetch_alter (f : Index.t -> Index.t) (tb : Table) (t i : Z)
    (ix : Index.t) :
  (forall x, Index.number (f x) = Index.number x) ->
  absolutize_fetch tb t i = Ok ix ->
  absolutize_fetch (alter_index f t i tb) t i = Ok (f ix).
Proof.
  intros Hnum H.
  pose proof (lookup_index_alter f tb t i ix (absolutize_fetch_lookup _ _ _ _ H))
    as Hl.
  unfold absolutize_fetch, lookup_index, Track.getIndex in *.
  unfold alter_index, len_tracks in *.
  destruct (py_getitem (tracks tb) (t - 1)) as [tr|] eqn:Htr; [|discriminate].
  destruct (py_getitem_alter (alter_track_index f i) _ _ _ Htr) as [Hneg Hget].
  rewrite Hneg in *. cbn [tracks set_tracks] in *. rewrite Hget in *.
  cbn [rbind] in *. rewrite Hl. cbn [rbind].
  destruct (dict_getitem (Track.indexes tr) i) as [ix0|]; [|discriminate].
  cbn [rbind] in H.
  cbn [alter_track_index Track.number Track.set_indexes].
  destruct (Track.number tr =? t); [|discriminate].
  cbn [py_assert rbind] in H |- *.
  destruct (Index.number ix0 =? i) eqn:En; [|discriminate].
  inversion H; subst ix0. rewrite Hnum, En. reflexivity.
Qed.

(** [absolutize] only writes absolute offsets, each the relative offset of
    its index. *)
Lemma absolutize_loop_rel (fuel : nat) :
  forall (c : option Z) (tb : Table) (t i : Z),
    table_rel absolutized tb (fst (absolutize_loop fuel c tb t i)).
Proof.
  induction fuel as [|fuel IH]; intros c tb t i; cbn [absolutize_loop].
  - apply table_rel_refl, absolutized_refl.
  - destruct (absolutize_fetch tb t i) as [index|e] eqn:Hf;
      [|apply table_rel_refl, absolutized_refl].
    destruct (Index.counter index) as [c0|];
      [|apply table_rel_refl, absolutized_refl].
    destruct (negb (opt_Z_eqb (Some c0) c));
      [apply table_rel_refl, absolutized_refl|].
    destruct (check_absolute index);
      [|apply table_rel_refl, absolutized_refl].
    assert (H1 : table_rel absolutized tb
                   (alter_index absolutize_index t i tb)).
    { apply alter_index_rel; [apply absolutized_refl|].
      intros ix _. right. reflexivity. }
    destruct (getNextTrackIndex (alter_index absolutize_index t i tb) t i)
      as [[t' i']|[]]; cbn [fst]; try exact H1.
    eapply table_rel_trans; [exact absolutized_trans | exact H1 | apply IH].
Qed.

Lemma absolutize_loop_idem (fuel : nat) :
  forall (c : option Z) (tb tb' : Table) (t i : Z),
    absolutize_loop fuel c tb t i = (tb', Some (Ok tt)) ->
    absolutize_loop fuel c tb' t i = (tb', Some (Ok tt)).
Proof.
  induction fuel as [|fuel IH]; intros c tb tb' t i H; [discriminate H|].
  cbn [absolutize_loop] in H |- *.
  destruct (absolutize_fetch tb t i) as [index|e] eqn:Hf; [|discriminate H].
  destruct (Index.counter index) as [c0|] eqn:Hc.
  2: { inversion H; subst tb'. rewrite Hf, Hc. reflexivity. }
  destruct (negb (opt_Z_eqb (Some c0) c)) eqn:Hm.
  { inversion H; subst tb'. rewrite Hf, Hc, Hm. reflexivity. }
  destruct (check_absolute index) eqn:Hchk; [|discriminate H].
  set (tb1 := alter_index absolutize_index t i tb) in *.
  assert (Hf1 : absolutize_fetch tb1 t i = Ok (absolutize_index index))
    by (apply absolutize_fetch_alter; [reflexivity | exact Hf]).
  assert (Hrel : table_rel absolutized tb1 tb').
  { pose proof (absolutize_loop_rel fuel c tb1) as Hl.
    destruct (getNextTrackIndex tb1 t i) as [[t' i']|[]];
      try discriminate H.
    - specialize (Hl t' i'). rewrite H in Hl. exact Hl.
    - inversion H; subst tb'. apply table_rel_refl, absolutized_refl. }
  assert (Hf' : absolutize_fetch tb' t i = Ok (absolutize_index index)).
  { pose proof (absolutize_fetch_rel absolutized tb1 tb' t i
                  (fun x y Hxy => proj1 (absolutized_fields x y Hxy)) Hrel)
      as Hr.
    rewrite Hf1 in Hr.
    destruct (absolutize_fetch tb' t i) as [ix'|]; [|contradiction].
    destruct Hr as [->| ->]; reflexivity. }
  rewrite Hf'. cbn [absolutize_index Index.set_absolute Index.counter].
  rewrite Hc, Hm. fold (absolutize_index index).
  rewrite check_absolute_absolutized.
  rewrite (alter_index_id absolutize_index tb' t i).
  2: { intros ix Hix.
       rewrite (absolutize_fetch_lookup _ _ _ _ Hf') in Hix.
       inversion Hix; subst ix. reflexivity. }
  rewrite (getNextTrackIndex_rel absolutized tb1 tb' t i Hrel).
  destruct (getNextTrackIndex tb1 t i) as [[t' i']|[]]; try discriminate H.
  - apply IH with (tb := tb1). exact H.
  - reflexivity.
Qed.

(** C7: when [absolutize] succeeds, running it again on the table it left
    succeeds too and leaves that table as it is. *)
Theorem absolutize_idempotent (tb tb' : Table) :
  absolutize tb = (tb', Some (Ok tt)) ->
  absolutize tb' = (tb', Some (Ok tt)).
Proof.
  unfold absolutize. intros H.
  destruct (py_getitem (tracks tb) 0) as [first|] eqn:Hfirst;
    [|discriminate H].
  cbn [rbind] in H.
  destruct (Track.getFirstIndex first) as [index|] eqn:Hindex;
    [|discriminate H].
  cbn [rbind] in H.
  assert (Hrel : table_rel absolutized tb tb').
  { pose proof (absolutize_loop_rel (walk_fuel tb) (Index.counter index) tb
                  (Track.number first) (Index.number index)) as Hl.
    rewrite H in Hl. exact Hl. }
  pose proof (py_getitem_Forall2 _ _ _ 0 (proj1 Hrel)) as H0.
  rewrite Hfirst in H0.
  destruct (py_getitem (tracks tb') 0) as [first'|]; [|contradiction].
  cbn [rbind]. destruct H0 as [Hd Et].
  unfold Track.getFirstIndex in Hindex |- *.
  rewrite (keys_rel _ _ _ Hd).
  destruct (py_getitem (sorted_keys (keys (Track.indexes first))) 0)
    as [k|]; [|discriminate Hindex].
  cbn [rbind] in Hindex |- *. unfold dict_getitem in Hindex |- *.
  pose proof (dict_get_rel absolutized _ _ k Hd) as Hk.
  destruct (dict_get (Track.indexes first) k) as [ix|]; [|discriminate Hindex].
  inversion Hindex; subst ix.
  inversion Hk as [x index' Hxy Ex Ey|]; subst. cbn [rbind].
  destruct (absolutized_fields _ _ Hxy) as (Hn & Hc & _).
  rewrite Hn, Hc.
  assert (Hnum : Track.number first' = Track.number first)
    by (rewrite Et; reflexivity).
  rewrite Hnum.
  unfold walk_fuel. rewrite (total_indexes_rel absolutized tb tb' Hrel).
  apply absolutize_loop_idem with (tb := tb). exact H.
Qed.

Lemma absolutize_idempotent_witness :
  absolutize (fst (absolutize from_one_file))
  = (fst (absolutize from_one_file), Some (Ok tt)).
Proof.
  apply (absolutize_idempotent from_one_file). vm_compute. reflexivity.
Defined.

(** ** setFile *)

Lemma filed_refl (end_ : Z) (ix : Index.t) : filed end_ ix ix.
Proof. left. reflexivity. Qed.

Lemma filed_trans (end_ : Z) (x y z : Index.t) :
  filed end_ x y -> filed end_ y z -> filed end_ x z.
Proof.
  intros [->|(Ha & Hn & Hle)] [->|(Ha' & Hn' & Hle')]; unfold filed.
  - left. reflexivity.
  - right. auto.
  - right. auto.
  - right. rewrite Ha', Hn', Ha. auto.
Qed.

Lemma setFile_next_lookup (tb : Table) (track index t' i' : Z)
    (ix : Index.t) :
  setFile_next tb track index = Ok (t', i', ix) ->
  lookup_index tb t' i' = Ok ix.
Proof.
  unfold setFile_next. destruct (getNextTrackIndex tb track index)
    as [[t2 i2]|]; [|discriminate].
  cbn [rbind]. destruct (lookup_index tb t2 i2) as [ix2|] eqn:E;
    [|discriminate].
  cbn [rbind]. intros H. inversion H; subst. exact E.
Qed.

(** [setFile] keeps the shape of the table and the absolute offsets, and
    writes only to indexes whose absolute offset passes the test of its
    loop. *)
Lemma setFile_loop_rel (path : option string) (start end_ : Z)
    (counter : option Z) (fuel : nat) :
  forall (tb : Table) (track index : Z) (i : Index.t),
    lookup_index tb track index = Ok i ->
    table_rel (filed end_) tb
      (fst (setFile_loop fuel path start end_ counter tb track index i)).
Proof.
  induction fuel as [|fuel IH]; intros tb track index i Hi;
    cbn [setFile_loop].
  - apply table_rel_refl, filed_refl.
  - destruct (py2_le (Index.absolute i) end_) eqn:Hle;
      [|apply table_rel_refl, filed_refl].
    set (tb1 := alter_index (Index.set_path path) track index tb).
    assert (H1 : table_rel (filed end_) tb tb1).
    { apply alter_index_rel; [apply filed_refl|].
      intros ix Hix. rewrite Hi in Hix. inversion Hix; subst ix.
      right. auto. }
    assert (Hi1 : lookup_index tb1 track index = Ok (Index.set_path path i))
      by (apply lookup_index_alter; exact Hi).
    destruct (as_int (Index.absolute i)) as [a|e]; [|exact H1].
    set (tb2 := alter_index _ track index tb1).
    assert (H2 : table_rel (filed end_) tb tb2).
    { eapply table_rel_trans; [apply filed_trans | exact H1|].
      apply alter_index_rel; [apply filed_refl|].
      intros ix Hix. rewrite Hi1 in Hix. inversion Hix; subst ix.
      right. auto. }
    destruct (setFile_next tb2 track index) as [[[t' i'] ix']|[]] eqn:Hnext;
      cbn [fst]; try exact H2.
    eapply table_rel_trans; [apply filed_trans | exact H2|].
    apply IH. eapply setFile_next_lookup. exact Hnext.
Qed.

Lemma setFile_rel (tb : Table) (track index : Z) (path : option string)
    (length : Z) (counter : option Z) (i0 : Index.t) (start : Z) :
  lookup_index tb track index = Ok i0 ->
  Index.absolute i0 = Some start ->
  table_rel (filed (start + length - 1)) tb
    (fst (setFile tb track index path length counter)).
Proof.
  intros Hi Hs. unfold setFile. rewrite Hi. cbn [rbind]. rewrite Hs.
  cbn [py_assert rbind as_int]. apply setFile_loop_rel. exact Hi.
Qed.

Lemma dict_alter_compose (f g : Index.t -> Index.t) (k : Z)
    (d : dict Index.t) :
  dict_alter g k (dict_alter f k d) = dict_alter (fun x => g (f x)) k d.
Proof.
  induction d as [|[k1 v] d IH]; [reflexivity|].
  cbn [dict_alter]. destruct (k1 =? k) eqn:E; cbn [dict_alter]; rewrite E.
  - reflexivity.
  - rewrite IH. reflexivity.
Qed.

(** Two writes to the same index are one write. *)
Lemma alter_index_compose (f g : Index.t -> Index.t) (t i : Z) (tb : Table) :
  alter_index g t i (alter_index f t i tb)
  = alter_index (fun x => g (f x)) t i tb.
Proof.
  unfold alter_index.
  destruct (py_norm (len_tracks tb) (t - 1) <? 0) eqn:E; [rewrite E; auto|].
  unfold len_tracks in *. cbn [tracks set_tracks].
  rewrite length_alter, E. unfold set_tracks.
  cbn [tracks leadout catalog cdtext mbdiscid]. f_equal.
  rewrite list_alter_alter_eq. apply list_alter_ext; [|reflexivity].
  intros tr _. unfold compose, alter_track_index.
  cbn [Track.set_indexes Track.indexes Track.number Track.audio Track.isrc
       Track.cdtext Track.session Track.pre_emphasis].
  rewrite dict_alter_compose. reflexivity.
Qed.

Lemma filed_within_refl (start end_ : Z) (ix : Index.t) :
  filed_within start end_ ix ix.
Proof. left. reflexivity. Qed.

Lemma filed_within_trans (start end_ : Z) (x y z : Index.t) :
  filed_within start end_ x y -> filed_within start end_ y z ->
  filed_within start end_ x z.
Proof.
  intros [->|(Ha & a & Hx & Hr)] [->|(Ha' & a' & Hy & Hr')];
    unfold filed_within; [auto | eauto | eauto |].
  right. split; [congruence | eauto].
Qed.

Section SetFileReach.
Variables (tb0 : Table) (track0 index0 : Z).
Variables (path : option string) (start end_ : Z) (counter : option Z).
Hypothesis from_start :
  forall (t i : Z) (ix : Index.t),
    reachable tb0 track0 index0 t i ->
    lookup_index tb0 t i = Ok ix ->
    exists a, Index.absolute ix = Some a /\ start <= a.

(** The loop writes where the traversal stands, so on such a table it
    writes to offsets between [start] and [end_] only. *)
Lemma setFile_loop_within (fuel : nat) :
  forall (tb : Table) (t i : Z) (ix : Index.t),
    reachable tb0 track0 index0 t i ->
    table_rel (filed_within start end_) tb0 tb ->
    lookup_index tb t i = Ok ix ->
    table_rel (filed_within start end_) tb0
      (fst (setFile_loop fuel path start end_ counter tb t i ix)).
Proof.
  induction fuel as [|fuel IH]; intros tb t i ix Hre Hrel Hix;
    cbn [setFile_loop]; [exact Hrel|].
  destruct (py2_le (Index.absolute ix) end_) eqn:Hle; [|exact Hrel].
  assert (Hin : exists a, Index.absolute ix = Some a /\ start <= a <= end_).
  { pose proof (lookup_index_rel _ tb0 tb t i Hrel) as Hl.
    rewrite Hix in Hl.
    destruct (lookup_index tb0 t i) as [ix0|] eqn:Hix0; [|contradiction].
    destruct (from_start t i ix0 Hre Hix0) as (a & Ha & Hs).
    assert (Hsame : Index.absolute ix = Some a)
      by (destruct Hl as [->|(Hl & _)]; congruence).
    exists a. split; [exact Hsame|]. rewrite Hsame in Hle.
    cbn [py2_le] in Hle. lia. }
  destruct Hin as (a & Ha & Hr). rewrite Ha. cbn [as_int].
  rewrite alter_index_compose.
  match goal with
  | |- context [setFile_next ?tb2 t i] => set (tb' := tb2)
  end.
  assert (Hstep : table_rel (filed_within start end_) tb tb').
  { apply alter_index_rel; [apply filed_within_refl|].
    intros ix1 Hix1. rewrite Hix in Hix1. injection Hix1 as <-.
    right. split; [reflexivity | eauto]. }
  assert (Hrel' : table_rel (filed_within start end_) tb0 tb')
    by (eapply table_rel_trans;
        [apply filed_within_trans | exact Hrel | exact Hstep]).
  destruct (setFile_next tb' t i) as [[[t' i'] ix']|[]] eqn:Hnext;
    cbn [fst]; try exact Hrel'.
  apply IH; [|exact Hrel' | exact (setFile_next_lookup _ _ _ _ _ _ Hnext)].
  apply (reachable_next _ _ _ t i); [exact Hre|].
  unfold setFile_next in Hnext.
  rewrite (getNextTrackIndex_rel _ tb0 tb' t i Hrel') in Hnext.
  destruct (getNextTrackIndex tb0 t i) as [[t2 i2]|]; [|discriminate].
  cbn [rbind] in Hnext.
  destruct (lookup_index tb' t2 i2); [|discriminate].
  cbn [rbind] in Hnext. congruence.
Qed.
End SetFileReach.

(** C10, with what the code needs: the loop compares an offset with
    [start + length - 1] only, and moves forward from the starting index.
    On every table, an index whose offset lies beyond
    [start + length - 1] is left as it was.  On a table where every index
    that the traversal reaches from the starting index has a resolved
    offset that is not below [start], the call changes no index whose
    offset lies outside [start, start + length - 1]: such an index keeps
    its path, relative offset and counter. *)
Theorem setFile_changes_within_range
    (tb : Table) (track index : Z) (path : option string) (length : Z)
    (counter : option Z) (i0 : Index.t) (start : Z) :
  lookup_index tb track index = Ok i0 ->
  Index.absolute i0 = Some start ->
  (forall (p q : nat) (ix : Index.t) (a : Z),
     index_at tb p q = Some ix ->
     Index.absolute ix = Some a ->
     start + length - 1 < a ->
     index_at (fst (setFile tb track index path length counter)) p q
     = Some ix)
  /\ ((forall (t i : Z) (ix : Index.t),
         reachable tb track index t i ->
         lookup_index tb t i = Ok ix ->
         exists a, Index.absolute ix = Some a /\ start <= a) ->
      setFile_within_range tb track index path length counter).
Proof.
  intros Hi Hs. split.
  - intros p q ix a Hix Ha Hlt.
    pose proof (index_at_rel _ _ _ p q
                  (setFile_rel tb track index path length counter i0 start
                     Hi Hs)) as H.
    rewrite Hix in H. inversion H as [x ix' Hf Ex Ey|]; subst.
    destruct Hf as [->|(_ & _ & Hle)]; [reflexivity|].
    rewrite Ha in Hle. cbn [py2_le] in Hle. lia.
  - intros Hfrom i1 start1 p q ix ix' Hi1 Hs1 Hix Hix' Hne.
    assert (start1 = start) as -> by congruence.
    assert (Hrel : table_rel (filed_within start (start + length - 1)) tb
                     (fst (setFile tb track index path length counter))).
    { unfold setFile. rewrite Hi. cbn [rbind]. rewrite Hs.
      cbn [py_assert rbind as_int].
      apply (setFile_loop_within tb track index path start
               (start + length - 1) counter Hfrom);
        [constructor | apply table_rel_refl, filed_within_refl | exact Hi]. }
    pose proof (index_at_rel _ _ _ p q Hrel) as H.
    rewrite Hix, Hix' in H. inversion H as [x y Hf Ex Ey|]; subst.
    destruct Hf as [->|(_ & Hin)]; [contradiction | exact Hin].
Qed.

Lemma setFile_changes_within_range_witness :
  (forall (p q : nat) (ix : Index.t) (a : Z),
     index_at two_tracks p q = Some ix ->
     Index.absolute ix = Some a ->
     15000 + 100 - 1 < a ->
     index_at (fst (setFile two_tracks 2 1 (Some "b.wav") 100 (Some 1))) p q
     = Some ix)
  /\ setFile_within_range two_tracks 2 1 (Some "b.wav") 100 (Some 1).
Proof.
  destruct (setFile_changes_within_range two_tracks 2 1 (Some "b.wav") 100
              (Some 1) (mkIndex 1 (Some 15000) None None None) 15000
              eq_refl eq_refl) as [Hup Hin].
  split; [exact Hup|]. apply Hin. intros t i ix Hre Hl.
  assert (Hpair : t = 2 /\ i = 1).
  { clear Hl. induction Hre as [|t1 i1 t2 i2 _ [-> ->] Hn]; [auto|].
    vm_compute in Hn. discriminate Hn. }
  destruct Hpair as [-> ->]. vm_compute in Hl. injection Hl as <-.
  exists 15000. split; [reflexivity | lia].
Defined.

(** C10 as the specification states it fails on a table whose offsets do
    not ascend: every index has a resolved offset, and the file that starts
    at offset 100 and is 10 frames long is also assigned to the index at
    offset 50. *)
Lemma setFile_assigns_below_start :
  (forall (p q : nat) (ix : Index.t),
     index_at out_of_order p q = Some ix ->
     exists a, Index.absolute ix = Some a)
  /\ ~ setFile_within_range out_of_order 1 1 (Some "a.wav") 10 (Some 0).
Proof.
  split.
  - intros [|[|p]] [|q] ix H; cbn in H; try discriminate;
      injection H as <-; eauto.
  - intros H.
    destruct (H (mkIndex 1 (Some 100) None None None) 100 1%nat 0%nat
                (mkIndex 1 (Some 50) None None None)
                (mkIndex 1 (Some 50) (Some "a.wav") (Some (-50)) (Some 0)))
      as (a & Ha & Hr); try reflexivity.
    + discriminate.
    + inversion Ha; subst a. lia.
Qed.

(** ** The code on the inputs where it leaves the specification *)

(** C2 on a track whose dictionary of indexes iterates as [[8, 1]]:
    [getNextTrackIndex] follows the order of [keys()], which it does not
    sort, so index 1 comes after index 8 and the walk ends at index 1. *)
Theorem getNextTrackIndex_follows_dict_order :
  keys (Track.indexes (mkTrack 1 true
                         [mkIndex 8 (Some 5000) None None None;
                          mkIndex 1 (Some 0) None None None])) = [8; 1]
  /\ getNextTrackIndex index_1_and_8 1 8 = Ok (1, 1)
  /\ getNextTrackIndex index_1_and_8 1 1 = Raise IndexError.
Proof. repeat split; reflexivity. Qed.

(** C8 on an index whose absolute offset is set and whose relative offset
    is [None], as [clearFiles] leaves it: building the message of the
    [ValueError] raises a [TypeError] instead. *)
Theorem absolutize_unset_relative_TypeError :
  absolutize cleared_files = (cleared_files, Some (Raise TypeError)).
Proof. reflexivity. Qed.

(** C9 on a track whose pre-emphasis flag is [False]: the cue sheet has a
    [FLAGS PRE] line for it, since the test is [is not None]. *)
Theorem cue_flags_pre_for_False
    (getRelativePath : string -> string -> string) (framesToMSF : Z -> string)
    (version cuePath program : string) :
  Track.pre_emphasis <$> tracks no_pre_emphasis = [Some false]
  /\ cue_lines getRelativePath framesToMSF version cuePath program
       no_pre_emphasis
     = Some (Ok ["REM DISCID 02000D01";
                 "REM COMMENT " +:+ dquote +:+ program +:+ " " +:+ version
                   +:+ dquote;
                 "FILE " +:+ dquote +:+ getRelativePath "a.wav" cuePath
                   +:+ dquote +:+ " WAVE";
                 "  TRACK 01 AUDIO";
                 "    FLAGS PRE";
                 "    INDEX 01 " +:+ framesToMSF 0;
                 ""]).
Proof. split; reflexivity. Qed.

(** ** merge *)

Lemma merge_index_total (lo gap c : Z) (ix : Index.t) :
  exists ix', merge_index (Some lo) gap (Some c) ix = Ok ix'.
Proof.
  unfold merge_index. destruct (Index.absolute ix); cbn [as_int rbind];
    match goal with
    | |- context [Index.counter ?i] => destruct (Index.counter i)
    end; cbn [as_int rbind]; eauto.
Qed.

Lemma merge_indexes_total (lo gap c : Z) (d : dict Index.t) :
  exists d', merge_indexes (Some lo) gap (Some c) d = Ok d'.
Proof.
  induction d as [|[k ix] d [d' IH]]; cbn [merge_indexes]; [eauto|].
  destruct (merge_index_total lo gap c ix) as [ix' ->]. cbn [rbind].
  rewrite IH. cbn [rbind]. eauto.
Qed.

Lemma fresh_track_unused (m : gmap positive Track.t) :
  m !! fresh (dom m) = None.
Proof. apply not_elem_of_dom, is_fresh. Qed.

Section MergeLoop.
Variables (self olist : positive) (session : option Z).
Variables (gap trackCount : Z) (sourceCounter : option Z).

(** What the loop leaves alone: the table objects, every list but the
    one of [self], and every track object that was there. *)
Lemma merge_loop_frame (fuel : nat) :
  forall (s : Store) (k : nat) (me : TableObj),
    s_tables s !! self = Some me ->
    let s' := fst (merge_loop fuel s self olist k session gap trackCount
                              sourceCounter) in
    s_tables s' = s_tables s
    /\ (forall l, l <> o_tracks me -> s_lists s' !! l = s_lists s !! l)
    /\ s_tracks s ⊆ s_tracks s'.
Proof.
  induction fuel as [|fuel IH]; intros s k me Hme; cbn [merge_loop].
  - cbn. auto.
  - destruct (s_lists s !! olist) as [refs|]; [|cbn; auto].
    destruct (refs !! k) as [tr|]; [|cbn; auto].
    destruct (s_tracks s !! tr) as [track|]; [|cbn; auto].
    rewrite Hme. unfold deepcopy.
    cbn [set_s_tracks set_s_lists s_tables s_lists s_tracks].
    set (t := fresh (dom (s_tracks s))).
    assert (Ht : s_tracks s !! t = None) by apply fresh_track_unused.
    destruct (merge_indexes (o_leadout me) gap sourceCounter _) as [d|e].
    + rewrite !insert_insert_eq.
      destruct (s_lists s !! o_tracks me) as [mine|].
      * match goal with
        | |- context [merge_loop fuel ?s4] =>
            destruct (IH s4 (S k) me Hme) as (Htab & Hlist & Htr)
        end.
        cbn [s_tables s_lists s_tracks] in Htab, Hlist, Htr.
        cbn zeta. split; [exact Htab|]. split.
        -- intros l Hl. rewrite (Hlist l Hl).
           apply lookup_insert_ne. congruence.
        -- etransitivity; [|exact Htr]. apply insert_subseteq. exact Ht.
      * cbn. split; [reflexivity|]. split; [reflexivity|].
        apply insert_subseteq. exact Ht.
    + rewrite !insert_insert_eq. cbn. split; [reflexivity|].
      split; [reflexivity|]. apply insert_subseteq. exact Ht.
Qed.

(** With distinct lists and shifts that cannot fail, the loop ends after
    one turn per track of the other table. *)
Lemma merge_loop_total (n : nat) :
  forall (s : Store) (k : nat) (me : TableObj) (yours : list positive),
    s_tables s !! self = Some me ->
    (forall d, exists d',
        merge_indexes (o_leadout me) gap sourceCounter d = Ok d') ->
    s_lists s !! olist = Some yours ->
    olist <> o_tracks me ->
    is_Some (s_lists s !! o_tracks me) ->
    Forall (fun r => is_Some (s_tracks s !! r)) yours ->
    (k + n = length yours)%nat ->
    snd (merge_loop (S n) s self olist k session gap trackCount
                    sourceCounter) = Some (Ok tt).
Proof.
  induction n as [|n IH];
    intros s k me yours Hme Hshift Hyours Hne [mine Hmine] Hall Hk.
  - cbn [merge_loop]. rewrite Hyours.
    rewrite lookup_ge_None_2 by lia. reflexivity.
  - remember (S n) as fuel eqn:Hfuel. cbn [merge_loop]. subst fuel.
    rewrite Hyours.
    destruct (lookup_lt_is_Some_2 yours k ltac:(lia)) as [tr Htr].
    rewrite Htr.
    destruct (proj1 (Forall_lookup _ _) Hall k tr Htr) as [track Htrack].
    rewrite Htrack, Hme. unfold deepcopy.
    cbn [set_s_tracks set_s_lists s_tables s_lists s_tracks].
    match goal with
    | |- context [merge_indexes (o_leadout me) gap sourceCounter ?d] =>
        destruct (Hshift d) as [d' ->]
    end.
    rewrite Hmine.
    apply (IH _ (S k) me yours);
      cbn [set_s_tracks set_s_lists s_tables s_lists s_tracks];
      try assumption.
    + rewrite lookup_insert_ne by congruence. exact Hyours.
    + rewrite lookup_insert_eq. eauto.
    + eapply Forall_impl; [exact Hall|]. intros r [x Hx].
      rewrite !insert_insert_eq.
      destruct (decide (fresh (dom (s_tracks s)) = r)) as [->|Hr].
      * rewrite lookup_insert_eq. eauto.
      * rewrite lookup_insert_ne by exact Hr. eauto.
    + lia.
Qed.
End MergeLoop.

(** A table reads the same in a store that kept its object, its list and
    its tracks. *)
Lemma read_table_frame (s s' : Store) (r : positive) (o : TableObj)
    (tb : Table) :
  s_tables s !! r = Some o ->
  s_tables s' !! r = Some o ->
  s_lists s' !! o_tracks o = s_lists s !! o_tracks o ->
  s_tracks s ⊆ s_tracks s' ->
  read_table s r = Some tb ->
  read_table s' r = Some tb.
Proof.
  unfold read_table, read_tracks. intros Ho Ho' Hlist Htr.
  rewrite Ho, Ho'. cbn [mbind option_bind]. rewrite Hlist.
  destruct (s_lists s !! o_tracks o) as [refs|]; [|discriminate].
  cbn [mbind option_bind].
  destruct (mapM (fun r0 => s_tracks s !! r0) refs) as [ts|] eqn:Hts;
    [|discriminate].
  assert (Hts' : mapM (fun r0 => s_tracks s' !! r0) refs = Some ts).
  { apply mapM_Some. apply mapM_Some in Hts.
    eapply Forall2_impl; [exact Hts|]. intros x y Hx. cbn beta in Hx |- *.
    exact (lookup_weaken _ _ _ _ Hx Htr). }
  rewrite Hts'. auto.
Qed.

Lemma merge_indexes_uncounted (lo gap : Z) (d : dict Index.t) :
  Forall (fun e => Index.counter (snd e) = None) d ->
  exists d', merge_indexes (Some lo) gap None d = Ok d'.
Proof.
  induction 1 as [|[k ix] d Hc _ [d' IH]]; cbn [merge_indexes]; [eauto|].
  cbn [snd] in Hc. unfold merge_index.
  destruct (Index.absolute ix); cbn [as_int rbind Index.counter
                                      Index.set_absolute];
    rewrite Hc; cbn [rbind]; rewrite IH; cbn [rbind]; eauto.
Qed.

Section MergeLoopOn.
Variables (self olist : positive) (session : option Z).
Variables (gap trackCount : Z) (sourceCounter : option Z).

(** With distinct lists, the loop ends after one turn per track of the
    other table when the shifts of the indexes of these tracks do not
    fail. *)
Lemma merge_loop_total_on (n : nat) :
  forall (s : Store) (k : nat) (me : TableObj) (yours : list positive)
         (ytracks : list Track.t),
    s_tables s !! self = Some me ->
    s_lists s !! olist = Some yours ->
    olist <> o_tracks me ->
    is_Some (s_lists s !! o_tracks me) ->
    Forall2 (fun r t => s_tracks s !! r = Some t) yours ytracks ->
    Forall (fun t => exists d',
                merge_indexes (o_leadout me) gap sourceCounter
                  (Track.indexes t) = Ok d') ytracks ->
    (k + n = length yours)%nat ->
    snd (merge_loop (S n) s self olist k session gap trackCount
                    sourceCounter) = Some (Ok tt).
Proof.
  induction n as [|n IH];
    intros s k me yours ytracks Hme Hyours Hne [mine Hmine] Hrefs Hshift Hk.
  - cbn [merge_loop]. rewrite Hyours.
    rewrite lookup_ge_None_2 by lia. reflexivity.
  - remember (S n) as fuel eqn:Hfuel. cbn [merge_loop]. subst fuel.
    rewrite Hyours.
    destruct (lookup_lt_is_Some_2 yours k ltac:(lia)) as [tr Htr].
    rewrite Htr.
    destruct (Forall2_lookup_l _ _ _ _ _ Hrefs Htr) as (track & Hyt & Htrack).
    rewrite Htrack, Hme. unfold deepcopy.
    cbn [set_s_tracks set_s_lists s_tables s_lists s_tracks
         Track.indexes Track.set_session Track.set_number].
    destruct (proj1 (Forall_lookup _ _) Hshift k track Hyt) as [d' ->].
    rewrite Hmine.
    apply (IH _ (S k) me yours ytracks);
      cbn [set_s_tracks set_s_lists s_tables s_lists s_tracks];
      try assumption.
    + rewrite lookup_insert_ne by congruence. exact Hyours.
    + rewrite lookup_insert_eq. eauto.
    + eapply Forall2_impl; [exact Hrefs|]. intros r t0 Hr. cbn beta in *.
      rewrite !insert_insert_eq.
      apply (lookup_weaken _ _ _ _ Hr).
      apply insert_subseteq, fresh_track_unused.
    + lia.
Qed.
End MergeLoopOn.

(** C6, with what the code needs.  [this.merge(other, session)] for two
    tables that do not share their list of tracks: whatever the outcome,
    [other] reads as before.  When both leadouts are resolved and the last
    index of [this] has a counter (or no index of [other] has one, so that
    no counter is moved), [merge] returns and the leadout of [this] is its
    old value plus the leadout of [other] plus the session gap. *)
Theorem merge_leadout_and_frame
    (s : Store) (self other : positive) (session : option Z)
    (me you : TableObj) (mine : list Track.t) (O : Table) :
  s_tables s !! self = Some me ->
  s_tables s !! other = Some you ->
  o_tracks me <> o_tracks you ->
  read_tracks s (o_tracks me) = Some mine ->
  read_table s other = Some O ->
  read_table (fst (merge s self other session)) other = Some O
  /\ (forall (l lo : Z) (sc : option Z),
        o_leadout me = Some l ->
        leadout O = Some lo ->
        sourceCounter_of mine = Ok sc ->
        (sc = None -> no_counters (tracks O)) ->
        snd (merge s self other session) = Some (Ok tt)
        /\ o_leadout <$> s_tables (fst (merge s self other session)) !! self
           = Some (Some (l + lo + _getSessionGap session))).
Proof.
  intros Hme Hyou Hne Hmine HO.
  assert (Hso : self <> other) by (intros ->; congruence).
  assert (Hyours : exists yours,
             s_lists s !! o_tracks you = Some yours
             /\ Forall2 (fun r t => s_tracks s !! r = Some t) yours (tracks O)
             /\ leadout O = o_leadout you).
  { unfold read_table, read_tracks in HO. rewrite Hyou in HO.
    cbn [mbind option_bind] in HO.
    destruct (s_lists s !! o_tracks you) as [yours|]; [|discriminate].
    cbn [mbind option_bind] in HO. exists yours. split; [reflexivity|].
    destruct (mapM (fun r => s_tracks s !! r) yours) as [ts|] eqn:Hts;
      [|discriminate].
    cbn [mbind option_bind] in HO. injection HO as <-.
    cbn [tracks leadout]. split; [|reflexivity].
    apply mapM_Some in Hts. exact Hts. }
  destruct Hyours as (yours & Hyours & Hrefs & HlO).
  assert (Hmylist : is_Some (s_lists s !! o_tracks me)).
  { unfold read_tracks in Hmine.
    destruct (s_lists s !! o_tracks me); [eauto | discriminate]. }
  unfold merge. rewrite Hme, Hyou, Hmine, Hyours.
  destruct (sourceCounter_of mine) as [sc|e] eqn:Hsc.
  2: { cbn [fst snd]. split; [exact HO|]. intros l lo sc _ _ Hc.
       discriminate Hc. }
  pose proof (merge_loop_frame self (o_tracks you) session
                (_getSessionGap session) (Z.of_nat (length mine)) sc
                (S (length yours)) s 0 me Hme) as Hframe.
  pose proof (fun Hshift =>
                merge_loop_total_on self (o_tracks you) session
                  (_getSessionGap session) (Z.of_nat (length mine)) sc
                  (length yours) s 0 me yours (tracks O) Hme Hyours
                  (fun E => Hne (eq_sym E)) Hmylist Hrefs Hshift eq_refl)
    as Htotal.
  destruct (merge_loop (S (length yours)) s self (o_tracks you) 0 session
              (_getSessionGap session) (Z.of_nat (length mine)) sc)
    as [s' out].
  cbn [fst snd] in Hframe, Htotal. destruct Hframe as (Htab & Hlist & Htr).
  assert (HO' : read_table s' other = Some O).
  { eapply read_table_frame; [exact Hyou | rewrite Htab; exact Hyou | |
                               exact Htr | exact HO].
    apply Hlist. congruence. }
  assert (HO2 : forall v,
             read_table
               (set_s_tables (<[self := set_o_leadout v me]> (s_tables s'))
                  s') other = Some O).
  { intros v. eapply read_table_frame; [exact Hyou | | | | exact HO].
    - cbn [set_s_tables s_tables].
      rewrite lookup_insert_ne by exact Hso. rewrite Htab. exact Hyou.
    - cbn [set_s_tables s_lists]. apply Hlist. congruence.
    - exact Htr. }
  split.
  - destruct out as [[[]|e]|]; cbn [fst]; try exact HO'.
    rewrite Htab, Hme, Hyou.
    destruct (o_leadout me) as [l|]; cbn [as_int rbind fst];
      [|exact HO'].
    destruct (o_leadout you) as [lo|]; cbn [as_int rbind fst];
      [rewrite <- Htab; apply HO2 | exact HO'].
  - intros l lo sc' Hl Hlo Hc Hnc. injection Hc as <-.
    assert (Hout : out = Some (Ok tt)).
    { apply Htotal. rewrite Hl. destruct sc as [c|].
      - apply Forall_forall. intros t _. apply merge_indexes_total.
      - eapply Forall_impl; [exact (Hnc eq_refl)|]. intros t Ht.
        apply merge_indexes_uncounted. exact Ht. }
    subst out. rewrite Htab, Hme, Hyou, Hl, <- HlO, Hlo.
    cbn [as_int rbind fst snd]. split; [reflexivity|].
    cbn [set_s_tables s_tables]. rewrite lookup_insert_eq.
    cbn. do 2 f_equal. lia.
Qed.

Lemma merge_leadout_and_frame_witness :
  let O := mkTable [mkTrack 1 false
                      [mkIndex 1 (Some 0) (Some "b.iso") (Some 0) (Some 1)]]
                   (Some 5000) None ∅ None in
  read_table (fst (merge two_sessions 1 2 (Some 2))) 2 = Some O
  /\ snd (merge two_sessions 1 2 (Some 2)) = Some (Ok tt)
  /\ o_leadout <$> s_tables (fst (merge two_sessions 1 2 (Some 2)))
                    !! 1%positive
     = Some (Some (30150 + 5000 + _getSessionGap (Some 2))).
Proof.
  cbv zeta.
  destruct (merge_leadout_and_frame two_sessions 1 2 (Some 2)
              (mkTableObj 1 (Some 30150) None ∅ None)
              (mkTableObj 2 (Some 5000) None ∅ None)
              [mkTrack 1 true
                 [mkIndex 1 (Some 0) (Some "a.wav") (Some 0) (Some 0)];
               mkTrack 2 true
                 [mkIndex 1 (Some 15000) (Some "a.wav") (Some 15000)
                    (Some 0)]]
              (mkTable [mkTrack 1 false
                          [mkIndex 1 (Some 0) (Some "b.iso") (Some 0)
                             (Some 1)]]
                       (Some 5000) None ∅ None)
              eq_refl eq_refl ltac:(discriminate) eq_refl eq_refl)
    as [Hframe Hsum].
  split; [exact Hframe|].
  apply (Hsum 30150 5000 (Some 0)); first [reflexivity | discriminate].
Defined.

(** C6 as the specification states it fails on a table whose indexes
    have no counter: [this] is not empty and its leadout is resolved, yet
    [i.counter += sourceCounter] raises [TypeError] on the first index of
    [other], and the leadout of [this] stays what it was. *)
Lemma merge_without_counter_TypeError :
  (exists mine,
      read_tracks two_sessions_uncounted 1 = Some mine /\ mine <> [])
  /\ o_leadout <$> s_tables two_sessions_uncounted !! 1%positive
     = Some (Some 30150)
  /\ o_leadout <$> s_tables two_sessions_uncounted !! 2%positive
     = Some (Some 5000)
  /\ snd (merge two_sessions_uncounted 1 2 (Some 2)) = Some (Raise TypeError)
  /\ o_leadout <$> s_tables (fst (merge two_sessions_uncounted 1 2 (Some 2)))
                    !! 1%positive
     = Some (Some 30150)
  /\ 30150 <> 30150 + 5000 + _getSessionGap (Some 2).
Proof.
  split; [eexists; split; [reflexivity | discriminate]|].
  repeat split; try reflexivity. discriminate.
Qed.

(** * Further properties of the code *)

(** ** Offsets *)

Lemma getTrackEnd_next (tb : Table) (lo : Z) (k : nat)
    (this next : Track.t) (s : Z) :
  leadout tb = Some lo ->
  tracks tb !! k = Some this ->
  tracks tb !! S k = Some next ->
  index1_absolute next = Some s ->
  getTrackEnd tb (Z.of_nat (S k))
  = Ok (if py2_gt (Track.session next) (Track.session this)
        then s - 1 - _getSessionGap (Track.session next)
        else s - 1).
Proof.
  intros Hlo Hthis Hnext Hs.
  unfold getTrackEnd. rewrite Hlo. cbn [as_int rbind].
  assert (Hlt : (Z.of_nat (S k) <? len_tracks tb) = true).
  { apply Z.ltb_lt. unfold len_tracks.
    apply lookup_lt_Some in Hnext. lia. }
  rewrite Hlt, (py_getitem_lookup _ _ _ Hnext). cbn [rbind].
  replace (Z.of_nat (S k) - 1) with (Z.of_nat k) by lia.
  rewrite (py_getitem_lookup _ _ _ Hthis).
  unfold index1_absolute in Hs. unfold Track.getIndex, dict_getitem.
  destruct (dict_get (Track.indexes next) 1) as [ix|]; [|discriminate Hs].
  cbn [mbind option_bind] in Hs. cbn [rbind]. rewrite Hs.
  cbn [as_int rbind].
  destruct (py2_gt (Track.session next) (Track.session this)); reflexivity.
Qed.

(** [getTrackEnd], case by case: without a leadout it raises [TypeError]
    for every track number; for the number of the last track it is the
    leadout minus one; for a track followed by another it is one frame
    before index 1 of the next track, less the session gap when the next
    track is in a later session. *)
Theorem getTrackEnd_cases (tb : Table) :
  (leadout tb = None -> forall n, getTrackEnd tb n = Raise TypeError)
  /\ (forall lo, leadout tb = Some lo ->
        getTrackEnd tb (len_tracks tb) = Ok (lo - 1))
  /\ (forall lo (k : nat) this next s,
        leadout tb = Some lo ->
        tracks tb !! k = Some this ->
        tracks tb !! S k = Some next ->
        index1_absolute next = Some s ->
        getTrackEnd tb (Z.of_nat (S k))
        = Ok (if py2_gt (Track.session next) (Track.session this)
              then s - 1 - _getSessionGap (Track.session next)
              else s - 1)).
Proof.
  split; [|split].
  - intros H n. unfold getTrackEnd. rewrite H. reflexivity.
  - intros lo H. apply getTrackEnd_last. exact H.
  - intros lo k this next s. apply getTrackEnd_next.
Qed.

Lemma hasTOC_tracks_index1 (l : list Track.t) :
  hasTOC_tracks l = true ->
  Forall (fun t => exists s, index1_absolute t = Some s) l.
Proof.
  induction l as [|t l IH]; cbn [hasTOC_tracks]; intros H; constructor.
  - unfold index1_absolute.
    destruct (dict_get (Track.indexes t) 1) as [ix|]; [|discriminate H].
    cbn [mbind option_bind].
    destruct (Index.absolute ix) as [a|]; [eauto | discriminate H].
  - apply IH.
    destruct (dict_get (Track.indexes t) 1) as [ix|]; [|discriminate H].
    destruct (Index.absolute ix); [exact H | discriminate H].
Qed.

Lemma getTrackStart_position (tb : Table) (k : nat) (t : Track.t) (s : Z) :
  tracks tb !! k = Some t ->
  index1_absolute t = Some s ->
  getTrackStart tb (Z.of_nat (S k)) = Ok (Some s).
Proof.
  intros Hk Hs. unfold getTrackStart.
  replace (Z.of_nat (S k) - 1) with (Z.of_nat k) by lia.
  rewrite (py_getitem_lookup _ _ _ Hk). cbn [rbind].
  unfold index1_absolute in Hs. unfold Track.getIndex, dict_getitem.
  destruct (dict_get (Track.indexes t) 1) as [ix|]; [|discriminate Hs].
  cbn [mbind option_bind] in Hs. cbn [rbind]. rewrite Hs. reflexivity.
Qed.

(** On a table that [hasTOC] accepts, [getTrackStart] is resolved and
    [getTrackLength] returns for every track number from 1 to the number
    of tracks. *)
Theorem hasTOC_track_queries (tb : Table) (k : nat) :
  hasTOC tb = true ->
  (k < length (tracks tb))%nat ->
  (exists s, getTrackStart tb (Z.of_nat (S k)) = Ok (Some s))
  /\ (exists n, getTrackLength tb (Z.of_nat (S k)) = Ok n).
Proof.
  unfold hasTOC. intros H Hk.
  destruct (leadout tb) as [lo|] eqn:Hlo; [|discriminate H].
  destruct (negb (truthy_int (Some lo))); [discriminate H|].
  pose proof (hasTOC_tracks_index1 _ H) as Hall.
  destruct (lookup_lt_is_Some_2 _ _ Hk) as [t Ht].
  destruct (proj1 (Forall_lookup _ _) Hall k t Ht) as [s Hs].
  pose proof (getTrackStart_position tb k t s Ht Hs) as Hstart.
  split; [eauto|].
  unfold getTrackLength. rewrite Hstart.
  destruct (tracks tb !! S k) as [next|] eqn:Hnext.
  - destruct (proj1 (Forall_lookup _ _) Hall (S k) next Hnext) as [s' Hs'].
    rewrite (getTrackEnd_next tb lo k t next s' Hlo Ht Hnext Hs').
    cbn [rbind as_int]. eauto.
  - assert (Hlast : Z.of_nat (S k) = len_tracks tb).
    { apply lookup_ge_None in Hnext. unfold len_tracks. lia. }
    rewrite Hlast, (getTrackEnd_last tb lo Hlo). cbn [rbind as_int]. eauto.
Qed.

Lemma hasTOC_track_queries_witness :
  (exists s, getTrackStart two_tracks (Z.of_nat 2) = Ok (Some s))
  /\ (exists n, getTrackLength two_tracks (Z.of_nat 2) = Ok n).
Proof.
  apply (hasTOC_track_queries two_tracks 1); [reflexivity | cbn; lia].
Defined.

(** ** CDDB *)

(** [_cddbSum] is the sum of the decimal digits of a number that is not
    negative, and 0 for a negative one. *)
Theorem _cddbSum_decimal (i : Z) :
  (0 <= i -> _cddbSum i = digit_sum i) /\ (i <= 0 -> _cddbSum i = 0).
Proof.
  split; [apply _cddbSum_digit_sum|].
  intros Hi. unfold _cddbSum. cbn [cddbSum_loop].
  destruct (Z.ltb_spec 0 i); [lia | reflexivity].
Qed.

(** The full result of [getCDDBValues] on a table numbered from 1 with
    resolved offsets: the disc id value, the number of audio tracks, the
    offset of every track plus 150, and the leadout in seconds. *)
Theorem getCDDBValues_list (tb : Table) (starts : list Z) (lo : Z) :
  tracks tb <> [] ->
  numbered (tracks tb) ->
  map index1_absolute (tracks tb) = map Some starts ->
  Forall (fun s => 0 <= s + 150) starts ->
  leadout tb = Some lo ->
  getCDDBValues tb
  = Ok (cddb_packed 255 starts lo :: getAudioTracks tb
          :: map (fun s => s + 150) starts ++ [lo / 75]).
Proof.
  intros Hne Hnum Hmap Hpos Hlo.
  pose proof (starts_Forall2 tb starts Hnum Hmap) as H2.
  assert (Hlen : length (tracks tb) = length starts)
    by (eapply Forall2_length; eassumption).
  unfold getCDDBValues.
  rewrite (cddb_offsets_spec tb _ starts _ _ H2 Hpos). cbn [rbind].
  destruct (last (tracks tb)) as [tl|] eqn:Hlast;
    [|apply last_None in Hlast; contradiction].
  rewrite (py_getitem_last _ _ Hlast). cbn [rbind].
  assert (Hnl : Track.number tl = len_tracks tb).
  { rewrite last_lookup in Hlast. rewrite (Hnum _ _ Hlast).
    unfold len_tracks. destruct (tracks tb); [contradiction|].
    cbn [length Nat.pred]. lia. }
  rewrite Hnl, (getTrackEnd_last tb lo Hlo). cbn [rbind].
  destruct (tracks tb) as [|t0 rest] eqn:Htr; [contradiction|].
  destruct starts as [|s0 starts']; [discriminate|].
  assert (H0 : getTrackStart tb 1 = Ok (Some s0)).
  { inversion H2 as [|? ? ? ? Hs0 _]; subst.
    assert (Hn0 : Track.number t0 = 1) by (apply (Hnum 0%nat t0); reflexivity).
    rewrite Hn0 in Hs0. exact Hs0. }
  rewrite H0. cbn [rbind as_int].
  unfold cddb_packed, cddb_seconds, FRAMES_PER_SECOND, len_tracks.
  rewrite Htr, Hlen. cbn [hd].
  replace (lo - 1 + 1) with lo by lia. rewrite Z.add_0_l.
  rewrite <- app_assoc. reflexivity.
Qed.

Lemma getCDDBValues_list_witness :
  getCDDBValues two_tracks
  = Ok (cddb_packed 255 [0; 15000] 30150 :: getAudioTracks two_tracks
          :: map (fun s => s + 150) [0; 15000] ++ [30150 / 75]).
Proof.
  apply (getCDDBValues_list two_tracks [0; 15000] 30150).
  - discriminate.
  - exact two_tracks_numbered.
  - reflexivity.
  - repeat constructor; lia.
  - reflexivity.
Defined.

(** ** MusicBrainz *)

(** When the table has a data track and its last track is an audio track,
    [_getMusicBrainzValues] fails its assertion. *)
Theorem _getMusicBrainzValues_data_track_not_last (tb : Table) (t : Track.t) :
  hasDataTracks tb = true ->
  last (tracks tb) = Some t ->
  Track.audio t = true ->
  _getMusicBrainzValues tb = Raise AssertionError.
Proof.
  intros Hd Hl Ha. unfold _getMusicBrainzValues.
  rewrite Hd, (py_getitem_last _ _ Hl). cbn [rbind]. rewrite Ha. reflexivity.
Qed.

Lemma _getMusicBrainzValues_data_track_not_last_witness :
  _getMusicBrainzValues data_track_first = Raise AssertionError.
Proof.
  apply (_getMusicBrainzValues_data_track_not_last data_track_first
           (mkTrack 2 true [mkIndex 1 (Some 15000) None None None]));
    reflexivity.
Defined.

(** ** clearFiles *)

Lemma cleared_refl (ix : Index.t) : cleared ix ix.
Proof. left. reflexivity. Qed.

Lemma cleared_trans (x y z : Index.t) :
  cleared x y -> cleared y z -> cleared x z.
Proof. intros [->| ->] [->| ->]; unfold cleared; auto. Qed.

Lemma clearFiles_loop_rel (fuel : nat) :
  forall (tb : Table) (t i : Z),
    table_rel cleared tb (fst (clearFiles_loop fuel tb t i)).
Proof.
  induction fuel as [|fuel IH]; intros tb t i; cbn [clearFiles_loop].
  - apply table_rel_refl, cleared_refl.
  - destruct (lookup_index tb t i) as [ix|e];
      [|apply table_rel_refl, cleared_refl].
    assert (H1 : table_rel cleared tb (alter_index clear_index t i tb)).
    { apply alter_index_rel; [apply cleared_refl|].
      intros ix0 _. right. reflexivity. }
    destruct (getNextTrackIndex (alter_index clear_index t i tb) t i)
      as [[t' i']|[]]; cbn [fst]; try exact H1.
    eapply table_rel_trans; [exact cleared_trans | exact H1 | apply IH].
Qed.

Lemma clearFiles_rel (tb : Table) :
  table_rel cleared tb (fst (clearFiles tb)).
Proof.
  unfold clearFiles.
  destruct (let* first := py_getitem (tracks tb) 0 in _) as [[t i]|e].
  - apply clearFiles_loop_rel.
  - apply table_rel_refl, cleared_refl.
Qed.

(** Whatever its outcome, [clearFiles] keeps the shape of the table and,
    of every index, the number, the absolute offset and the counter; an
    index is either left as it was or has lost its path and its relative
    offset. *)
Theorem clearFiles_keeps_offsets (tb : Table) (p q : nat) (ix : Index.t) :
  index_at tb p q = Some ix ->
  exists ix',
    index_at (fst (clearFiles tb)) p q = Some ix'
    /\ Index.number ix' = Index.number ix
    /\ Index.absolute ix' = Index.absolute ix
    /\ Index.counter ix' = Index.counter ix
    /\ (ix' = ix
        \/ (Index.path ix' = None /\ Index.relative ix' = None)).
Proof.
  intros Hix.
  pose proof (index_at_rel _ _ _ p q (clearFiles_rel tb)) as H.
  rewrite Hix in H. inversion H as [x ix' Hc Ex Ey|]; subst.
  exists ix'. split; [reflexivity|].
  destruct Hc as [->| ->].
  - repeat split; try reflexivity. left. reflexivity.
  - repeat split; try reflexivity. right. split; reflexivity.
Qed.

Lemma clearFiles_keeps_offsets_witness :
  exists ix',
    index_at (fst (clearFiles from_one_file)) 1 0 = Some ix'
    /\ Index.number ix' = 1
    /\ Index.absolute ix' = None
    /\ Index.counter ix' = Some 0
    /\ (ix' = mkIndex 1 None (Some "a.wav") (Some 15000) (Some 0)
        \/ (Index.path ix' = None /\ Index.relative ix' = None)).
Proof.
  apply (clearFiles_keeps_offsets from_one_file 1 0
           (mkIndex 1 None (Some "a.wav") (Some 15000) (Some 0))).
  reflexivity.
Defined.

(** An index without a relative offset keeps [canCue] from holding. *)
Lemma canCue_needs_relative (tb : Table) (t i : Z) (ix : Index.t) :
  lookup_index tb t i = Ok ix ->
  Index.relative ix = None ->
  canCue tb = false.
Proof.
  unfold lookup_index, canCue, py_getitem, dict_getitem. intros H Hr.
  destruct (negb (hasTOC tb)); [reflexivity|].
  destruct (py_norm (Z.of_nat (length (tracks tb))) (t - 1) <? 0);
    [discriminate H|].
  destruct (tracks tb !! _) as [tr|] eqn:Htr; [|discriminate H].
  cbn [rbind] in H.
  destruct (dict_get (Track.indexes tr) i) as [ix0|] eqn:Hget;
    [|discriminate H].
  inversion H; subst ix0.
  apply not_true_is_false. intros Hall.
  rewrite forallb_forall in Hall.
  assert (Hin : In tr (tracks tb)).
  { apply list_elem_of_In, list_elem_of_lookup. eauto. }
  specialize (Hall tr Hin). rewrite forallb_forall in Hall.
  assert (Hix : In ix (values (Track.indexes tr))).
  { clear -Hget. induction (Track.indexes tr) as [|[k v] d IH];
      [discriminate Hget|].
    cbn [dict_get] in Hget. cbn [values map snd].
    destruct (k =? i); [inversion Hget; left; reflexivity | right; auto]. }
  specialize (Hall ix Hix). unfold has_relative in Hall.
  rewrite Hr in Hall. discriminate Hall.
Qed.

(** After a [clearFiles] that returns, [canCue] is false. *)
Theorem clearFiles_then_canCue (tb tb' : Table) :
  clearFiles tb = (tb', Some (Ok tt)) ->
  canCue tb' = false.
Proof.
  unfold clearFiles. intros H.
  destruct (let* first := py_getitem (tracks tb) 0 in _) as [[t i]|e];
    [|discriminate H].
  destruct (walk_fuel tb) as [|fuel]; [discriminate H|].
  cbn [clearFiles_loop] in H.
  destruct (lookup_index tb t i) as [ix|e] eqn:Hix; [|discriminate H].
  pose proof (lookup_index_alter clear_index tb t i ix Hix) as H1.
  set (tb1 := alter_index clear_index t i tb) in *.
  assert (Hrel : table_rel cleared tb1 tb').
  { pose proof (clearFiles_loop_rel fuel tb1) as Hl.
    destruct (getNextTrackIndex tb1 t i) as [[t' i']|[]];
      try discriminate H.
    - specialize (Hl t' i'). rewrite H in Hl. exact Hl.
    - inversion H; subst tb'. apply table_rel_refl, cleared_refl. }
  pose proof (lookup_index_rel cleared tb1 tb' t i Hrel) as Hr.
  rewrite H1 in Hr.
  destruct (lookup_index tb' t i) as [ix'|] eqn:Hix'; [|contradiction].
  apply (canCue_needs_relative tb' t i ix' Hix').
  destruct Hr as [->| ->]; reflexivity.
Qed.

Lemma clearFiles_then_canCue_witness :
  canCue (fst (clearFiles from_one_file)) = false.
Proof.
  apply (clearFiles_then_canCue from_one_file). vm_compute. reflexivity.
Defined.

(** ** absolutize keeps the absolute offsets that are there *)

Lemma absolutized_checked_refl (ix : Index.t) : absolutized_checked ix ix.
Proof. left. reflexivity. Qed.

Lemma absolutized_checked_trans (x y z : Index.t) :
  absolutized_checked x y -> absolutized_checked y z ->
  absolutized_checked x z.
Proof.
  intros [->|[-> Hx]] [->|[-> Hy]]; unfold absolutized_checked; auto.
Qed.

Lemma absolutize_loop_checked (fuel : nat) :
  forall (c : option Z) (tb : Table) (t i : Z),
    table_rel absolutized_checked tb (fst (absolutize_loop fuel c tb t i)).
Proof.
  induction fuel as [|fuel IH]; intros c tb t i; cbn [absolutize_loop].
  - apply table_rel_refl, absolutized_checked_refl.
  - destruct (absolutize_fetch tb t i) as [index|e] eqn:Hf;
      [|apply table_rel_refl, absolutized_checked_refl].
    destruct (Index.counter index) as [c0|];
      [|apply table_rel_refl, absolutized_checked_refl].
    destruct (negb (opt_Z_eqb (Some c0) c));
      [apply table_rel_refl, absolutized_checked_refl|].
    destruct (check_absolute index) as [[]|e] eqn:Hchk;
      [|apply table_rel_refl, absolutized_checked_refl].
    assert (H1 : table_rel absolutized_checked tb
                   (alter_index absolutize_index t i tb)).
    { apply alter_index_rel; [apply absolutized_checked_refl|].
      intros ix Hix. rewrite (absolutize_fetch_lookup _ _ _ _ Hf) in Hix.
      inversion Hix; subst ix. right. auto. }
    destruct (getNextTrackIndex (alter_index absolutize_index t i tb) t i)
      as [[t' i']|[]]; cbn [fst]; try exact H1.
    eapply table_rel_trans;
      [exact absolutized_checked_trans | exact H1 | apply IH].
Qed.

(** Whatever its outcome, [absolutize] leaves every absolute offset that
    is set as it is: it never replaces one by a different value. *)
Theorem absolutize_keeps_absolute (tb : Table) (p q : nat) (ix : Index.t)
    (a : Z) :
  index_at tb p q = Some ix ->
  Index.absolute ix = Some a ->
  exists ix',
    index_at (fst (absolutize tb)) p q = Some ix'
    /\ Index.absolute ix' = Some a.
Proof.
  intros Hix Ha.
  assert (Hrel : table_rel absolutized_checked tb (fst (absolutize tb))).
  { unfold absolutize.
    destruct (let* first := py_getitem (tracks tb) 0 in _) as [[[t i] c]|e].
    - apply absolutize_loop_checked.
    - apply table_rel_refl, absolutized_checked_refl. }
  pose proof (index_at_rel _ _ _ p q Hrel) as H.
  rewrite Hix in H. inversion H as [x ix' Hc Ex Ey|]; subst.
  exists ix'. split; [reflexivity|].
  destruct Hc as [->|[-> Hchk]]; [exact Ha|].
  unfold check_absolute in Hchk. rewrite Ha in Hchk.
  cbn [absolutize_index Index.set_absolute Index.absolute].
  destruct (Index.relative ix) as [r|]; cbn in Hchk.
  - destruct (Z.eqb_spec a r) as [->|]; [reflexivity | discriminate Hchk].
  - discriminate Hchk.
Qed.

Lemma absolutize_keeps_absolute_witness :
  exists ix',
    index_at (fst (absolutize cleared_files)) 0 0 = Some ix'
    /\ Index.absolute ix' = Some 0.
Proof.
  apply (absolutize_keeps_absolute cleared_files 0 0
           (mkIndex 1 (Some 0) None None (Some 0)) 0); reflexivity.
Defined.

(** ** setFile writes the three fields of the file *)

Lemma assigned_refl (path : option string) (start : Z) (counter : option Z)
    (ix : Index.t) :
  assigned path start counter ix ix.
Proof. left. reflexivity. Qed.

Lemma assigned_trans (path : option string) (start : Z) (counter : option Z)
    (x y z : Index.t) :
  assigned path start counter x y -> assigned path start counter y z ->
  assigned path start counter x z.
Proof.
  unfold assigned.
  intros [->|[(a & Ha & ->)|(Hn & ->)]] [->|[(b & Hb & ->)|(Hm & ->)]];
    eauto.
Qed.

Lemma setFile_loop_assigned (path : option string) (start end_ : Z)
    (counter : option Z) (fuel : nat) :
  forall (tb : Table) (track index : Z) (i : Index.t),
    lookup_index tb track index = Ok i ->
    table_rel (assigned path start counter) tb
      (fst (setFile_loop fuel path start end_ counter tb track index i)).
Proof.
  induction fuel as [|fuel IH]; intros tb track index i Hi;
    cbn [setFile_loop].
  - apply table_rel_refl, assigned_refl.
  - destruct (py2_le (Index.absolute i) end_);
      [|apply table_rel_refl, assigned_refl].
    destruct (Index.absolute i) as [a|] eqn:Ha; cbn [as_int].
    + rewrite alter_index_compose.
      fold (file_index path start counter a).
      set (tb2 := alter_index (file_index path start counter a) track index
                    tb).
      assert (H2 : table_rel (assigned path start counter) tb tb2).
      { apply alter_index_rel; [apply assigned_refl|].
        intros ix Hix. rewrite Hi in Hix. inversion Hix; subst ix.
        right; left. eauto. }
      destruct (setFile_next tb2 track index) as [[[t' i'] ix']|[]] eqn:Hnext;
        cbn [fst]; try exact H2.
      eapply table_rel_trans; [apply assigned_trans | exact H2|].
      apply IH. eapply setFile_next_lookup. exact Hnext.
    + cbn [fst]. apply alter_index_rel; [apply assigned_refl|].
      intros ix Hix. rewrite Hi in Hix. inversion Hix; subst ix.
      right; right. auto.
Qed.

(** Whatever its outcome, [setFile] leaves an index with a resolved
    absolute offset [a] either as it was or with the path and the counter
    of the call and the relative offset [a - start]; the number and the
    absolute offset stay. *)
Theorem setFile_writes_file_fields
    (tb : Table) (track index : Z) (path : option string) (length : Z)
    (counter : option Z) (i0 : Index.t) (start : Z) (p q : nat)
    (ix : Index.t) (a : Z) :
  lookup_index tb track index = Ok i0 ->
  Index.absolute i0 = Some start ->
  index_at tb p q = Some ix ->
  Index.absolute ix = Some a ->
  exists ix',
    index_at (fst (setFile tb track index path length counter)) p q
      = Some ix'
    /\ (ix' = ix
        \/ ix' = Index.mk (Index.number ix) (Some a) path (Some (a - start))
                          counter).
Proof.
  intros Hi Hs Hix Ha.
  assert (Hrel : table_rel (assigned path start counter) tb
                   (fst (setFile tb track index path length counter))).
  { unfold setFile. rewrite Hi. cbn [rbind]. rewrite Hs.
    cbn [py_assert rbind as_int]. apply setFile_loop_assigned. exact Hi. }
  pose proof (index_at_rel _ _ _ p q Hrel) as H.
  rewrite Hix in H. inversion H as [x ix' Hc Ex Ey|]; subst.
  exists ix'. split; [reflexivity|].
  destruct Hc as [->|[(b & Hb & ->)|(Hn & _)]]; [auto| |congruence].
  right. rewrite Ha in Hb. inversion Hb; subst b.
  destruct ix as [n ab pa re co]. cbn in Ha. subst ab. reflexivity.
Qed.

Lemma setFile_writes_file_fields_witness :
  exists ix',
    index_at (fst (setFile two_tracks 1 1 (Some "a.wav") 30150 (Some 0)))
             1 0 = Some ix'
    /\ (ix' = mkIndex 1 (Some 15000) None None None
        \/ ix' = Index.mk
                   (Index.number (mkIndex 1 (Some 15000) None None None))
                   (Some 15000) (Some "a.wav") (Some (15000 - 0)) (Some 0)).
Proof.
  apply (setFile_writes_file_fields two_tracks 1 1 (Some "a.wav") 30150
           (Some 0) (mkIndex 1 (Some 0) None None None) 0 1 0
           (mkIndex 1 (Some 15000) None None None) 15000); reflexivity.
Defined.

(** With a length of at least one frame, the index [setFile] starts from
    is assigned the file with relative offset 0. *)
Theorem setFile_assigns_start
    (tb : Table) (track index : Z) (path : option string) (length : Z)
    (counter : option Z) (i0 : Index.t) (start : Z) :
  lookup_index tb track index = Ok i0 ->
  Index.absolute i0 = Some start ->
  1 <= length ->
  lookup_index (fst (setFile tb track index path length counter)) track index
  = Ok (Index.mk (Index.number i0) (Some start) path (Some 0) counter).
Proof.
  intros Hi Hs Hlen. unfold setFile. rewrite Hi. cbn [rbind]. rewrite Hs.
  cbn [py_assert rbind as_int]. unfold walk_fuel. cbn [setFile_loop].
  rewrite Hs. cbn [py2_le as_int].
  destruct (Z.leb_spec start (start + length - 1)) as [_|]; [|lia].
  rewrite alter_index_compose. fold (file_index path start counter start).
  set (tb2 := alter_index (file_index path start counter start) track index
                tb).
  assert (H2 : lookup_index tb2 track index
               = Ok (file_index path start counter start i0))
    by (apply lookup_index_alter; exact Hi).
  assert (Hw : file_index path start counter start i0
               = Index.mk (Index.number i0) (Some start) path (Some 0)
                          counter).
  { destruct i0 as [n ab pa re co]. cbn in Hs. subst ab.
    unfold file_index. cbn. rewrite Z.sub_diag. reflexivity. }
  destruct (setFile_next tb2 track index) as [[[t' i'] ix']|[]] eqn:Hnext;
    cbn [fst]; try (rewrite H2, Hw; reflexivity).
  pose proof (setFile_loop_assigned path start (start + length - 1) counter
                (2 * total_indexes tb) tb2 t' i' ix'
                (setFile_next_lookup _ _ _ _ _ _ Hnext)) as Hrel.
  pose proof (lookup_index_rel _ _ _ track index Hrel) as Hr.
  rewrite H2 in Hr.
  match goal with
  | |- lookup_index ?T _ _ = _ => set (tb' := T) in *
  end.
  destruct (lookup_index tb' track index) as [ix2|]; [|contradiction].
  rewrite <- Hw. f_equal.
  destruct Hr as [->|[(b & Hb & ->)|(Hn & _)]]; [reflexivity| |].
  - rewrite Hw in Hb |- *. cbn in Hb. inversion Hb; subst b.
    unfold file_index. cbn. rewrite Z.sub_diag. reflexivity.
  - rewrite Hw in Hn. discriminate Hn.
Qed.

Lemma setFile_assigns_start_witness :
  lookup_index (fst (setFile two_tracks 1 1 (Some "a.wav") 30150 (Some 0)))
               1 1
  = Ok (Index.mk (Index.number (mkIndex 1 (Some 0) None None None)) (Some 0)
                 (Some "a.wav") (Some 0) (Some 0)).
Proof.
  apply (setFile_assigns_start two_tracks 1 1 (Some "a.wav") 30150 (Some 0)
           (mkIndex 1 (Some 0) None None None) 0);
    first [reflexivity | lia].
Defined.

(** ** getNextTrackIndex, read off the lists *)

Lemma list_index_app (pre post : list Z) (x : Z) :
  ~ In x pre ->
  list_index (pre ++ x :: post) x = Ok (Z.of_nat (length pre)).
Proof.
  induction pre as [|y pre IH]; intros Hnot; cbn [app list_index length].
  - rewrite Z.eqb_refl. reflexivity.
  - destruct (Z.eqb_spec y x) as [->|_]; [exfalso; apply Hnot; left; auto|].
    rewrite IH by (intros H; apply Hnot; right; exact H).
    cbn [rbind]. f_equal. lia.
Qed.

(** [getNextTrackIndex] on the track after [done] and the key [i] after
    [kpre] in the order of [keys()]: the next key of the track when there
    is one, else the first key of the next track; [IndexError] when there
    is no next track, and also when the next track has no index. *)
Theorem getNextTrackIndex_by_position
    (tb : Table) (done later : list Track.t) (tr : Track.t)
    (kpre kpost : list Z) (i : Z) :
  tracks tb = done ++ tr :: later ->
  keys (Track.indexes tr) = kpre ++ i :: kpost ->
  ~ In i kpre ->
  let t := Z.of_nat (length done) + 1 in
  getNextTrackIndex tb t i
  = match kpost with
    | k' :: _ => Ok (t, k')
    | [] =>
        match later with
        | [] => Raise IndexError
        | tr2 :: _ =>
            match keys (Track.indexes tr2) with
            | k2 :: _ => Ok (t + 1, k2)
            | [] => Raise IndexError
            end
        end
    end.
Proof.
  intros Htr Hkeys Hnot t. unfold getNextTrackIndex, len_tracks.
  subst t. replace (Z.of_nat (length done) + 1 - 1)
    with (Z.of_nat (length done)) by lia.
  rewrite py_getitem_nat, Htr, list_lookup_middle by reflexivity.
  cbn [rbind]. rewrite Hkeys, (list_index_app _ _ _ Hnot). cbn [rbind].
  rewrite !length_app. cbn [length].
  destruct kpost as [|k' kpost]; cbn [length].
  - match goal with
    | |- context [?a <? ?b] => destruct (Z.ltb_spec a b) as [|_]; [lia|]
    end.
    destruct later as [|tr2 later]; cbn [length].
    + match goal with
      | |- context [?a <? ?b] => destruct (Z.ltb_spec a b) as [_|]; [|lia]
      end.
      reflexivity.
    + match goal with
      | |- context [?a <? ?b] => destruct (Z.ltb_spec a b) as [|_]; [lia|]
      end.
      replace (Z.of_nat (length done) + 1 + 1 - 1)
        with (Z.of_nat (S (length done))) by lia.
      rewrite py_getitem_nat.
      replace (done ++ tr :: tr2 :: later)
        with ((done ++ [tr]) ++ tr2 :: later)
        by (rewrite <- app_assoc; reflexivity).
      rewrite list_lookup_middle by (rewrite length_app; cbn; lia).
      cbn [rbind]. change 0 with (Z.of_nat 0). rewrite py_getitem_nat.
      destruct (keys (Track.indexes tr2)); reflexivity.
  - match goal with
    | |- context [?a <? ?b] => destruct (Z.ltb_spec a b) as [_|]; [|lia]
    end.
    replace (Z.of_nat (length kpre) + 1) with (Z.of_nat (S (length kpre)))
      by lia.
    rewrite py_getitem_nat.
    replace (kpre ++ i :: k' :: kpost) with ((kpre ++ [i]) ++ k' :: kpost)
      by (rewrite <- app_assoc; reflexivity).
    rewrite list_lookup_middle by (rewrite length_app; cbn; lia).
    reflexivity.
Qed.

Lemma getNextTrackIndex_by_position_witness :
  let t := Z.of_nat (length (@nil Track.t)) + 1 in
  getNextTrackIndex from_one_file t 1
  = match @nil Z with
    | k' :: _ => Ok (t, k')
    | [] =>
        match [mkTrack 2 true
                 [mkIndex 1 None (Some "a.wav") (Some 15000) (Some 0)]] with
        | [] => Raise IndexError
        | tr2 :: _ =>
            match keys (Track.indexes tr2) with
            | k2 :: _ => Ok (t + 1, k2)
            | [] => Raise IndexError
            end
        end
    end.
Proof.
  apply (getNextTrackIndex_by_position from_one_file []
           [mkTrack 2 true
              [mkIndex 1 None (Some "a.wav") (Some 15000) (Some 0)]]
           (mkTrack 1 true
              [mkIndex 0 None (Some "a.wav") (Some 0) (Some 0);
               mkIndex 1 None (Some "a.wav") (Some 150) (Some 0)])
           [0] [] 1).
  - reflexivity.
  - reflexivity.
  - intros [H|[]]. discriminate H.
Defined.

(** ** AccurateRip ids *)

Lemma land_mask32 (x : Z) : Z.land x 0xffffffff = x mod 2 ^ 32.
Proof. change 0xffffffff with (Z.ones 32). apply Z.land_ones. lia. Qed.

Lemma fixed_hex_length (k : nat) (z : Z) :
  String.length (fixed_hex k z) = k.
Proof.
  revert z. induction k as [|k IH]; intros z; [reflexivity|].
  cbn [fixed_hex]. rewrite length_append, IH. cbn. lia.
Qed.

Lemma hex_digit_lower (d : Z) : lower_hex_char (hex_digit false d) = true.
Proof.
  unfold hex_digit. generalize (Z.to_nat d). intros n.
  do 16 (destruct n as [|n]; [reflexivity|]). reflexivity.
Qed.

Lemma chars_append (a b : string) :
  list_ascii_of_string (a +:+ b)
  = list_ascii_of_string a ++ list_ascii_of_string b.
Proof.
  induction a as [|c a IH]; [reflexivity|].
  change (c :: list_ascii_of_string (a +:+ b)
          = c :: (list_ascii_of_string a ++ list_ascii_of_string b)).
  f_equal. exact IH.
Qed.

Lemma fixed_hex_chars (k : nat) (z : Z) :
  Forall (fun c => lower_hex_char c = true)
         (list_ascii_of_string (fixed_hex k z)).
Proof.
  revert z. induction k as [|k IH]; intros z; [constructor|].
  cbn [fixed_hex]. rewrite chars_append. apply Forall_app. split.
  - apply IH.
  - constructor; [apply hex_digit_lower | constructor].
Qed.

Lemma format_mask32 (x : Z) :
  format_0x false 8 (Z.land x 0xffffffff) = fixed_hex 8 (x mod 2 ^ 32).
Proof.
  rewrite land_mask32. apply format_0x_fixed_hex; [lia|].
  change (16 ^ Z.of_nat 8) with (2 ^ 32). apply Z.mod_pos_bound. lia.
Qed.

(** Whenever [accuraterip_ids] returns, each of the two ids is exactly
    eight lowercase hexadecimal digits. *)
Theorem accuraterip_ids_eight_hex_digits (tb : Table) (a b : string) :
  accuraterip_ids tb = Ok (a, b) ->
  String.length a = 8%nat
  /\ String.length b = 8%nat
  /\ Forall (fun c => lower_hex_char c = true) (list_ascii_of_string a)
  /\ Forall (fun c => lower_hex_char c = true) (list_ascii_of_string b).
Proof.
  unfold accuraterip_ids. intros H.
  destruct (accuraterip_sums tb (tracks tb) 0 0) as [[d1 d2]|];
    [|discriminate H].
  cbn [rbind] in H.
  destruct (py_getitem (tracks tb) (-1)) as [tl|]; [|discriminate H].
  cbn [rbind] in H.
  destruct (getTrackEnd tb (Track.number tl)) as [e|]; [|discriminate H].
  cbn [rbind] in H. rewrite !format_mask32 in H.
  match type of H with
  | Ok (fixed_hex 8 ?x, fixed_hex 8 ?y) = _ =>
      assert (Ha : a = fixed_hex 8 x) by congruence;
      assert (Hb : b = fixed_hex 8 y) by congruence
  end.
  rewrite Ha, Hb, !fixed_hex_length. auto using fixed_hex_chars.
Qed.

Lemma accuraterip_ids_eight_hex_digits_witness :
  String.length "0000b05e" = 8%nat
  /\ String.length "000160bc" = 8%nat
  /\ Forall (fun c => lower_hex_char c = true)
            (list_ascii_of_string "0000b05e")
  /\ Forall (fun c => lower_hex_char c = true)
            (list_ascii_of_string "000160bc").
Proof.
  apply (accuraterip_ids_eight_hex_digits data_track_first).
  vm_compute. reflexivity.
Defined.

Lemma getTrackStart_own_index (tb : Table) (k : nat) (t : Track.t) :
  numbered (tracks tb) ->
  tracks tb !! k = Some t ->
  getTrackStart tb (Track.number t)
  = (let* i := Track.getIndex t 1 in Ok (Index.absolute i)).
Proof.
  intros Hnum Hk. rewrite (Hnum k t Hk). unfold getTrackStart.
  replace (Z.of_nat k + 1 - 1) with (Z.of_nat k) by lia.
  rewrite (py_getitem_lookup _ _ _ Hk). reflexivity.
Qed.

Lemma accuraterip_sums_spec (tb : Table) (l : list Track.t) :
  Forall (fun t => getTrackStart tb (Track.number t)
                   = (let* i := Track.getIndex t 1 in Ok (Index.absolute i)))
         l ->
  forall (es : list (Z * Z)) (d1 d2 : Z),
    map (fun t => (Track.number t, index1_absolute t))
        (List.filter (fun t => Track.audio t) l)
    = map (fun e => (fst e, Some (snd e))) es ->
    accuraterip_sums tb l d1 d2
    = Ok (d1 + fold_right Z.add 0 (map snd es),
          d2 + fold_right Z.add 0 (map (fun e => or_1 (snd e) * fst e) es)).
Proof.
  induction 1 as [|t l Ht _ IH]; intros es d1 d2 Hes;
    cbn [accuraterip_sums List.filter] in *.
  - destruct es; [|discriminate Hes]. cbn. rewrite !Z.add_0_r. reflexivity.
  - destruct (Track.audio t); cbn [negb].
    + destruct es as [|[n s] es]; [discriminate Hes|].
      cbn [map fst snd] in Hes. inversion Hes as [[Hn Hs Hrest]].
      rewrite Ht. unfold index1_absolute in Hs.
      unfold Track.getIndex, dict_getitem.
      destruct (dict_get (Track.indexes t) 1) as [ix|]; [|discriminate Hs].
      cbn [mbind option_bind] in Hs. cbn [rbind]. rewrite Hs.
      cbn [as_int rbind]. rewrite (IH es _ _ Hrest).
      cbn [map fold_right fst snd]. f_equal. f_equal; lia.
    + apply IH. exact Hes.
Qed.

(** [accuraterip_ids] in closed form, on a table numbered from 1 with a
    leadout [lo], whose audio tracks have the numbers and resolved starts
    [es]: the first id is the sum of the starts plus the leadout, the
    second the sum of [(start or 1) * number] plus the leadout times the
    number of audio tracks plus one, both modulo [2 ^ 32] and written with
    eight hexadecimal digits.  Data tracks contribute nothing but the
    leadout. *)
Theorem accuraterip_ids_sums (tb : Table) (es : list (Z * Z)) (lo : Z) :
  tracks tb <> [] ->
  numbered (tracks tb) ->
  leadout tb = Some lo ->
  map (fun t => (Track.number t, index1_absolute t))
      (List.filter (fun t => Track.audio t) (tracks tb))
  = map (fun e => (fst e, Some (snd e))) es ->
  accuraterip_ids tb
  = Ok (fixed_hex 8
          ((fold_right Z.add 0 (map snd es) + lo) mod 2 ^ 32),
        fixed_hex 8
          ((fold_right Z.add 0 (map (fun e => or_1 (snd e) * fst e) es)
            + lo * (Z.of_nat (length es) + 1)) mod 2 ^ 32)).
Proof.
  intros Hne Hnum Hlo Hes. unfold accuraterip_ids.
  rewrite (accuraterip_sums_spec tb (tracks tb)) with (es := es).
  2: { apply Forall_lookup. intros k t Hk.
       apply (getTrackStart_own_index tb k t Hnum Hk). }
  2: exact Hes.
  cbn [rbind].
  destruct (last (tracks tb)) as [tl|] eqn:Hlast;
    [|apply last_None in Hlast; contradiction].
  rewrite (py_getitem_last _ _ Hlast). cbn [rbind].
  assert (Hnl : Track.number tl = len_tracks tb).
  { rewrite last_lookup in Hlast. rewrite (Hnum _ _ Hlast).
    unfold len_tracks. destruct (tracks tb); [contradiction|].
    cbn [length Nat.pred]. lia. }
  rewrite Hnl, (getTrackEnd_last tb lo Hlo). cbn [rbind].
  rewrite !format_mask32.
  assert (Haudio : getAudioTracks tb = Z.of_nat (length es)).
  { unfold getAudioTracks. apply (f_equal (@length _)) in Hes.
    rewrite !length_map in Hes. rewrite Hes. reflexivity. }
  rewrite Haudio. replace (lo - 1 + 1) with lo by lia.
  rewrite !Z.add_0_l. reflexivity.
Qed.

Lemma accuraterip_ids_sums_witness :
  accuraterip_ids data_track_first
  = Ok (fixed_hex 8
          ((fold_right Z.add 0 (map snd [(2, 15000)]) + 30150) mod 2 ^ 32),
        fixed_hex 8
          ((fold_right Z.add 0
              (map (fun e => or_1 (snd e) * fst e) [(2, 15000)])
            + 30150 * (Z.of_nat (length [(2, 15000)]) + 1)) mod 2 ^ 32)).
Proof.
  apply (accuraterip_ids_sums data_track_first [(2, 15000)] 30150).
  - discriminate.
  - intros [|[|k]] t H; cbn in H; inversion H; reflexivity.
  - reflexivity.
  - reflexivity.
Defined.

(** ** Cue sheet *)

(** The lines that follow the [TRACK] line of a track contain
    [FLAGS PRE] exactly when the pre-emphasis attribute of the track is
    not [None], whatever its CD-Text and ISRC. *)
Theorem cue_track_header_flags (i : Z) (track : Track.t) :
  In FLAGS_PRE (cue_track_header i track)
  <-> Track.pre_emphasis track <> None.
Proof.
  unfold cue_track_header. rewrite !in_app_iff. split.
  - intros [H|[H|[H|H]]].
    + destruct H as [H|[]]. cbn in H. discriminate H.
    + apply in_flat_map in H. destruct H as (key & Hkey & H).
      destruct (Track.cdtext track !! key) as [v|]; [|destruct H].
      destruct H as [H|[]].
      unfold CDTEXT_FIELDS in Hkey. cbn [In] in Hkey.
      repeat (destruct Hkey as [<-|Hkey]; [cbn in H; discriminate H|]).
      destruct Hkey.
    + destruct (Track.isrc track) as [isrc|]; [|destruct H].
      destruct H as [H|[]]. cbn in H. discriminate H.
    + destruct (Track.pre_emphasis track); [discriminate | destruct H].
  - intros H. right; right; right.
    destruct (Track.pre_emphasis track); [left; reflexivity | contradiction].
Qed.

(** ** Frame length *)

Lemma filter_audio_all (l : list Track.t) :
  Forall (fun t => Track.audio t = true) l ->
  List.filter (fun t => Track.audio t) l = l.
Proof.
  induction 1 as [|t l Ht _ IH]; [reflexivity|].
  cbn [List.filter]. rewrite Ht, IH. reflexivity.
Qed.

(** On a disc of audio tracks followed by one data track, numbered from 1:
    with the data track the frame length runs from index 1 of track 1 to
    the leadout; without it, to index 1 of the data track, less the
    session gap when the data track is in a later session. *)
Theorem getFrameLength_trailing_data_track
    (tb : Table) (audios : list Track.t) (d la : Track.t) (s1 sd lo : Z) :
  tracks tb = audios ++ [d] ->
  Forall (fun t => Track.audio t = true) audios ->
  Track.audio d = false ->
  last audios = Some la ->
  numbered (tracks tb) ->
  leadout tb = Some lo ->
  (t ← head audios; index1_absolute t) = Some s1 ->
  index1_absolute d = Some sd ->
  getFrameLength tb true = Ok (lo - s1)
  /\ getFrameLength tb false
     = Ok (sd - (if py2_gt (Track.session d) (Track.session la)
                 then _getSessionGap (Track.session d) else 0) - s1).
Proof.
  intros Htr Haud Hd Hla Hnum Hlo Hs1 Hsd.
  destruct audios as [|t0 rest] eqn:Ea; [discriminate Hla|].
  rewrite <- Ea in *. cbn [head mbind option_bind] in Hs1.
  assert (H0 : tracks tb !! 0%nat = Some t0)
    by (rewrite Htr, Ea; reflexivity).
  assert (Hstart : getTrackStart tb 1 = Ok (Some s1))
    by (apply (getTrackStart_position tb 0 t0 s1 H0); rewrite Ea in Hs1;
        exact Hs1).
  assert (Hk : length audios = S (length rest)) by (rewrite Ea; reflexivity).
  assert (Hla' : tracks tb !! length rest = Some la).
  { rewrite Htr. rewrite lookup_app_l by lia.
    rewrite last_lookup, Hk in Hla. exact Hla. }
  assert (Hd' : tracks tb !! S (length rest) = Some d).
  { rewrite Htr, <- Hk. apply list_lookup_middle. reflexivity. }
  assert (Hlen : len_tracks tb = Z.of_nat (S (S (length rest)))).
  { unfold len_tracks. rewrite Htr, length_app, Hk. cbn [length]. lia. }
  unfold getFrameLength. split.
  - assert (Hlast : last (tracks tb) = Some d)
      by (rewrite Htr; apply last_snoc).
    rewrite (py_getitem_last _ _ Hlast). cbn [rbind].
    rewrite (Hnum _ _ Hd').
    replace (Z.of_nat (S (length rest)) + 1) with (len_tracks tb) by lia.
    rewrite (getTrackEnd_last tb lo Hlo), Hstart. cbn [rbind as_int].
    f_equal. lia.
  - assert (Hn : getAudioTracks tb = Z.of_nat (S (length rest))).
    { unfold getAudioTracks. rewrite Htr, List.filter_app.
      rewrite (filter_audio_all _ Haud). cbn [List.filter]. rewrite Hd.
      rewrite app_nil_r, Hk. reflexivity. }
    rewrite Hn.
    replace (Z.of_nat (S (length rest)) - 1) with (Z.of_nat (length rest))
      by lia.
    rewrite (py_getitem_lookup _ _ _ Hla'). cbn [rbind].
    rewrite (Hnum _ _ Hla').
    replace (Z.of_nat (length rest) + 1) with (Z.of_nat (S (length rest)))
      by lia.
    rewrite (getTrackEnd_next tb lo (length rest) la d sd Hlo Hla' Hd' Hsd).
    rewrite Hstart.
    cbn [rbind as_int].
    destruct (py2_gt (Track.session d) (Track.session la)); f_equal; lia.
Qed.

Lemma getFrameLength_trailing_data_track_witness :
  getFrameLength with_data_track true = Ok (30000 - 0)
  /\ getFrameLength with_data_track false
     = Ok (26400
           - (if py2_gt (Track.session
                           (Track.set_session (Some 2)
                              (mkTrack 2 false
                                 [mkIndex 1 (Some 26400) None None None])))
                        (Track.session
                           (mkTrack 1 true
                              [mkIndex 1 (Some 0) None None None]))
              then _getSessionGap
                     (Track.session
                        (Track.set_session (Some 2)
                           (mkTrack 2 false
                              [mkIndex 1 (Some 26400) None None None])))
              else 0)
           - 0).
Proof.
  apply (getFrameLength_trailing_data_track with_data_track
           [mkTrack 1 true [mkIndex 1 (Some 0) None None None]]).
  - reflexivity.
  - repeat constructor.
  - reflexivity.
  - reflexivity.
  - intros [|[|k]] t H; cbn in H; inversion H; reflexivity.
  - reflexivity.
  - reflexivity.
  - reflexivity.
Defined.

(** ** merge of a table into itself *)

(** When the list that [merge] iterates is the list it appends to, the
    loop never ends normally: at every turn the iterator still finds a
    track.  So [merge] of a table into itself, or into a table built on
    the same list, never returns. *)
Theorem merge_shared_list_never_returns
    (self : positive) (session : option Z) (gap trackCount : Z)
    (sourceCounter : option Z) (fuel : nat) :
  forall (s : Store) (k : nat) (me : TableObj) (refs : list positive),
    s_tables s !! self = Some me ->
    s_lists s !! o_tracks me = Some refs ->
    (k < length refs)%nat ->
    snd (merge_loop fuel s self (o_tracks me) k session gap trackCount
                    sourceCounter) <> Some (Ok tt).
Proof.
  induction fuel as [|fuel IH]; intros s k me refs Hme Hrefs Hk;
    cbn [merge_loop]; [discriminate|].
  rewrite Hrefs.
  destruct (lookup_lt_is_Some_2 refs k Hk) as [tr ->].
  destruct (s_tracks s !! tr) as [track|]; [|discriminate].
  rewrite Hme. unfold deepcopy.
  cbn [set_s_tracks set_s_lists s_tables s_lists s_tracks].
  destruct (merge_indexes (o_leadout me) gap sourceCounter _) as [d|e];
    [|discriminate].
  rewrite Hrefs.
  apply (IH _ (S k) me (refs ++ [fresh (dom (s_tracks s))])).
  - exact Hme.
  - cbn [set_s_tracks set_s_lists s_tables s_lists s_tracks].
    apply lookup_insert_eq.
  - rewrite length_app. cbn [length]. lia.
Qed.

Lemma merge_shared_list_never_returns_witness :
  snd (merge_loop 5 two_sessions 1 1 0 (Some 2) 11400 2 (Some 0))
  <> Some (Ok tt).
Proof.
  apply (merge_shared_list_never_returns 1 (Some 2) 11400 2 (Some 0) 5
           two_sessions 0 (mkTableObj 1 (Some 30150) None ∅ None)
           [1%positive; 2%positive]).
  - reflexivity.
  - reflexivity.
  - cbn. lia.
Defined.
(** ** The walk over the indexes ends *)

Lemma list_index_range (l : list Z) (x p : Z) :
  list_index l x = Ok p ->
  0 <= p < Z.of_nat (length l) /\ l !! Z.to_nat p = Some x.
Proof.
  revert p. induction l as [|y l IH]; intros p H; cbn [list_index] in H;
    [discriminate|].
  destruct (Z.eqb_spec y x) as [->|Hne].
  - injection H as <-. cbn [length]. split; [lia | reflexivity].
  - destruct (list_index l x) as [p'|] eqn:E; [|discriminate].
    cbn [rbind] in H. injection H as <-.
    destruct (IH p' eq_refl) as [Hr Hl]. cbn [length]. split; [lia|].
    replace (Z.to_nat (p' + 1)) with (S (Z.to_nat p')) by lia. exact Hl.
Qed.

Lemma list_index_NoDup (l : list Z) (n : nat) (x : Z) :
  NoDup l -> l !! n = Some x -> list_index l x = Ok (Z.of_nat n).
Proof.
  intros Hnd. revert n. induction Hnd as [|y l Hnot Hnd IH]; intros n H;
    [discriminate|].
  destruct n as [|n]; cbn [list_index].
  - injection H as ->. rewrite Z.eqb_refl. reflexivity.
  - cbn in H. destruct (Z.eqb_spec y x) as [->|_].
    + exfalso. apply Hnot. apply list_elem_of_lookup. eauto.
    + rewrite (IH n H). cbn [rbind]. f_equal. lia.
Qed.

Lemma list_index_head (l : list Z) (x : Z) :
  l !! O = Some x -> list_index l x = Ok 0.
Proof.
  destruct l as [|y l]; [discriminate|]. intros H. injection H as ->.
  cbn [list_index]. rewrite Z.eqb_refl. reflexivity.
Qed.

Lemma py_getitem_Some {A : Type} (l : list A) (k : Z) (x : A) :
  py_getitem l k = Ok x ->
  - Z.of_nat (length l) <= k < Z.of_nat (length l)
  /\ l !! Z.to_nat (py_norm (Z.of_nat (length l)) k) = Some x.
Proof.
  unfold py_getitem, py_norm. intros H.
  destruct (Z.ltb_spec k 0) as [Hk|Hk].
  - destruct (Z.ltb_spec (k + Z.of_nat (length l)) 0) as [Hj|Hj];
      [discriminate|].
    destruct (l !! Z.to_nat (k + Z.of_nat (length l))) as [y|] eqn:E;
      [|discriminate].
    injection H as ->. split; [lia | reflexivity].
  - destruct (Z.ltb_spec k 0) as [Hj|Hj]; [lia|].
    destruct (l !! Z.to_nat k) as [y|] eqn:E; [|discriminate].
    injection H as ->. apply lookup_lt_Some in E as Hlt.
    split; [lia | reflexivity].
Qed.

Lemma keys_length {V : Type} (d : dict V) : length (keys d) = length d.
Proof. unfold keys. apply length_map. Qed.

(** A step of the walk lowers the rank. *)
Lemma walk_rank_decreases (tb : Table) (t i t' i' : Z) :
  dicts_ok tb ->
  getNextTrackIndex tb t i = Ok (t', i') ->
  (walk_rank tb t' i' < walk_rank tb t i)%nat.
Proof.
  intros Hok H. unfold getNextTrackIndex in H. unfold walk_rank at 2.
  destruct (py_getitem (tracks tb) (t - 1)) as [tr|] eqn:Htr;
    [|discriminate]. cbn [rbind] in H.
  destruct (list_index (keys (Track.indexes tr)) i) as [pos|] eqn:Hpos;
    [|discriminate]. cbn [rbind] in H.
  destruct (list_index_range _ _ _ Hpos) as [Hr _].
  rewrite keys_length in Hr, H.
  destruct (py_getitem_Some _ _ _ Htr) as [Ht Hl].
  destruct (Z.ltb_spec (pos + 1) (Z.of_nat (length (Track.indexes tr))))
    as [Hlt|Hge].
  - destruct (py_getitem (keys (Track.indexes tr)) (pos + 1)) as [k|] eqn:Hk;
      [|discriminate]. cbn [rbind] in H. injection H as <- <-.
    unfold walk_rank. rewrite Htr.
    destruct (py_getitem_Some _ _ _ Hk) as [_ Hk'].
    unfold py_norm in Hk'.
    destruct (Z.ltb_spec (pos + 1) 0) as [|_]; [lia|].
    assert (Hnd : NoDup (keys (Track.indexes tr))).
    { unfold dicts_ok in Hok. rewrite Forall_lookup in Hok.
      exact (Hok _ _ Hl). }
    rewrite (list_index_NoDup _ _ _ Hnd Hk').
    rewrite Nat2Z.id.
    generalize (indexes_after tb (Z.to_nat (len_tracks tb - t)) t).
    intros r. lia.
  - unfold len_tracks in *.
    destruct (Z.ltb_spec (Z.of_nat (length (tracks tb))) (t + 1)) as [|Hle];
      [discriminate|].
    destruct (py_getitem (tracks tb) (t + 1 - 1)) as [tr2|] eqn:Htr2;
      [|discriminate]. cbn [rbind] in H.
    destruct (py_getitem (keys (Track.indexes tr2)) 0) as [k|] eqn:Hk;
      [|discriminate]. cbn [rbind] in H. injection H as <- <-.
    unfold walk_rank, len_tracks. rewrite Htr2.
    destruct (py_getitem_Some _ _ _ Hk) as [_ Hk'].
    unfold py_norm in Hk'. cbn in Hk'.
    rewrite (list_index_head _ _ Hk').
    replace (Z.to_nat (Z.of_nat (length (tracks tb)) - t))
      with (S (Z.to_nat (Z.of_nat (length (tracks tb)) - (t + 1)))) by lia.
    cbn [indexes_after]. unfold len_at. rewrite Htr2. lia.
Qed.

Lemma indexes_after_add (tb : Table) (a b : nat) (t : Z) :
  indexes_after tb (a + b) t
  = (indexes_after tb a t + indexes_after tb b (t + Z.of_nat a))%nat.
Proof.
  revert t. induction a as [|a IH]; intros t; cbn [indexes_after Nat.add].
  - replace (t + Z.of_nat 0) with t by lia. reflexivity.
  - rewrite IH. replace (t + 1 + Z.of_nat a) with (t + Z.of_nat (S a)) by lia.
    lia.
Qed.

Lemma indexes_after_suffix (tb : Table) (neg : bool) :
  forall (later done : list Track.t),
    tracks tb = done ++ later ->
    indexes_after tb (length later)
      (Z.of_nat (length done)
       - if neg then Z.of_nat (length (tracks tb)) else 0)
    = fold_right (fun t n => (length (Track.indexes t) + n)%nat) O later.
Proof.
  induction later as [|tr later IH]; intros done Htb; [reflexivity|].
  cbn [length indexes_after fold_right].
  specialize (IH (done ++ [tr])).
  rewrite <- app_assoc in IH. specialize (IH Htb).
  rewrite length_app in IH. cbn [length] in IH.
  replace (Z.of_nat (length done + 1)) with (Z.of_nat (length done) + 1)
    in IH by lia.
  match goal with
  | |- (len_at tb ?u + indexes_after tb _ ?v)%nat = _ =>
      replace v with u by reflexivity
  end.
  match type of IH with
  | indexes_after tb _ ?v = _ =>
      match goal with
      | |- (len_at tb ?u + _)%nat = _ => replace u with v by lia
      end
  end.
  rewrite IH. f_equal.
  unfold len_at, py_getitem, py_norm.
  assert (Hlen : length (tracks tb) = (length done + S (length later))%nat).
  { rewrite Htb, length_app. reflexivity. }
  assert (Hmid : tracks tb !! length done = Some tr).
  { rewrite Htb. apply list_lookup_middle. reflexivity. }
  destruct neg.
  - match goal with
    | |- context [?a <? 0] => destruct (Z.ltb_spec a 0) as [_|]; [|lia]
    end.
    match goal with
    | |- context [?a <? 0] => destruct (Z.ltb_spec a 0) as [|_]; [lia|]
    end.
    match goal with
    | |- context [tracks tb !! ?n] =>
        replace n with (length done) by lia
    end.
    rewrite Hmid. reflexivity.
  - match goal with
    | |- context [?a <? 0] => destruct (Z.ltb_spec a 0) as [|_]; [lia|]
    end.
    match goal with
    | |- context [?a <? 0] => destruct (Z.ltb_spec a 0) as [|_]; [lia|]
    end.
    match goal with
    | |- context [tracks tb !! ?n] =>
        replace n with (length done) by lia
    end.
    rewrite Hmid. reflexivity.
Qed.

(** With negative track numbers the walk can pass every track twice, and
    no more. *)
Lemma walk_rank_bound (tb : Table) (t i : Z) :
  (walk_rank tb t i <= 2 * total_indexes tb)%nat.
Proof.
  unfold walk_rank.
  destruct (py_getitem (tracks tb) (t - 1)) as [tr|] eqn:Htr; [|lia].
  destruct (list_index (keys (Track.indexes tr)) i) as [pos|]; [|lia].
  destruct (py_getitem_Some _ _ _ Htr) as [Ht _].
  set (n := length (tracks tb)) in *.
  pose proof (indexes_after_suffix tb true (tracks tb) [] eq_refl) as Hneg.
  pose proof (indexes_after_suffix tb false (tracks tb) [] eq_refl) as Hpos.
  cbn [length] in Hneg, Hpos. fold n in Hneg, Hpos.
  fold (total_indexes tb) in Hneg, Hpos.
  pose proof (indexes_after_add tb (Z.to_nat (t - 1 + Z.of_nat n))
                (S (Z.to_nat (Z.of_nat n - t))) (Z.of_nat 0 - Z.of_nat n))
    as Hsplit.
  replace (Z.to_nat (t - 1 + Z.of_nat n) + S (Z.to_nat (Z.of_nat n - t)))%nat
    with (n + n)%nat in Hsplit by lia.
  rewrite (indexes_after_add tb n n) in Hsplit.
  replace (Z.of_nat 0 - Z.of_nat n + Z.of_nat n) with (Z.of_nat 0 - 0)
    in Hsplit by lia.
  rewrite Hneg, Hpos in Hsplit.
  cbn [indexes_after] in Hsplit.
  replace (Z.of_nat 0 - Z.of_nat n + Z.of_nat (Z.to_nat (t - 1 + Z.of_nat n))
           + 1) with t in Hsplit by lia.
  unfold len_at in Hsplit. rewrite Htr in Hsplit.
  unfold len_tracks. fold n. lia.
Qed.

Lemma same_shape_refl (tb : Table) : same_shape tb tb.
Proof. apply table_rel_refl. intros _. exact I. Qed.

Lemma same_shape_alter (f : Index.t -> Index.t) (tb0 tb : Table) (t i : Z) :
  same_shape tb0 tb -> same_shape tb0 (alter_index f t i tb).
Proof.
  intros H. eapply table_rel_trans; [|exact H|].
  - intros _ _ _ _ _. exact I.
  - apply alter_index_rel; intros; exact I.
Qed.

Lemma clearFiles_loop_ends (tb0 : Table) :
  dicts_ok tb0 ->
  forall (fuel : nat) (tb : Table) (t i : Z),
    same_shape tb0 tb ->
    (walk_rank tb0 t i < fuel)%nat ->
    exists r, snd (clearFiles_loop fuel tb t i) = Some r.
Proof.
  intros Hok. induction fuel as [|fuel IH]; intros tb t i Hs Hr; [lia|].
  cbn [clearFiles_loop].
  destruct (lookup_index tb t i) as [ix|e]; [|cbn; eauto].
  pose proof (same_shape_alter clear_index tb0 tb t i Hs) as Hs'.
  rewrite (getNextTrackIndex_rel _ _ _ t i Hs').
  destruct (getNextTrackIndex tb0 t i) as [[t' i']|e] eqn:E.
  - apply IH; [exact Hs'|].
    pose proof (walk_rank_decreases tb0 t i t' i' Hok E). lia.
  - destruct e; cbn; eauto.
Qed.

Lemma absolutize_loop_ends (tb0 : Table) (counter : option Z) :
  dicts_ok tb0 ->
  forall (fuel : nat) (tb : Table) (t i : Z),
    same_shape tb0 tb ->
    (walk_rank tb0 t i < fuel)%nat ->
    exists r, snd (absolutize_loop fuel counter tb t i) = Some r.
Proof.
  intros Hok. induction fuel as [|fuel IH]; intros tb t i Hs Hr; [lia|].
  cbn [absolutize_loop].
  destruct (absolutize_fetch tb t i) as [ix|e]; [|cbn; eauto].
  destruct (Index.counter ix) as [c|]; [|cbn; eauto].
  destruct (negb (opt_Z_eqb (Some c) counter)); [cbn; eauto|].
  destruct (check_absolute ix); [|cbn; eauto].
  pose proof (same_shape_alter absolutize_index tb0 tb t i Hs) as Hs'.
  rewrite (getNextTrackIndex_rel _ _ _ t i Hs').
  destruct (getNextTrackIndex tb0 t i) as [[t' i']|e] eqn:E.
  - apply IH; [exact Hs'|].
    pose proof (walk_rank_decreases tb0 t i t' i' Hok E). lia.
  - destruct e; cbn; eauto.
Qed.

Lemma setFile_loop_ends (tb0 : Table) (path : option string)
    (start end_ : Z) (counter : option Z) :
  dicts_ok tb0 ->
  forall (fuel : nat) (tb : Table) (t i : Z) (ix : Index.t),
    same_shape tb0 tb ->
    (walk_rank tb0 t i < fuel)%nat ->
    exists r,
      snd (setFile_loop fuel path start end_ counter tb t i ix) = Some r.
Proof.
  intros Hok. induction fuel as [|fuel IH]; intros tb t i ix Hs Hr; [lia|].
  cbn [setFile_loop].
  destruct (py2_le (Index.absolute ix) end_); [|cbn; eauto].
  destruct (as_int (Index.absolute ix)) as [a|e]; [|cbn; eauto].
  match goal with
  | |- context [setFile_next ?tb2 t i] =>
      assert (Hs' : same_shape tb0 tb2)
        by (apply same_shape_alter, same_shape_alter, Hs);
      set (tb' := tb2) in *
  end.
  unfold setFile_next. rewrite (getNextTrackIndex_rel _ _ _ t i Hs').
  destruct (getNextTrackIndex tb0 t i) as [[t' i']|e] eqn:E.
  - cbn [rbind]. destruct (lookup_index tb' t' i') as [ix'|e].
    + cbn [rbind]. apply IH; [exact Hs'|].
      pose proof (walk_rank_decreases tb0 t i t' i' Hok E). lia.
    + cbn [rbind]. destruct e; cbn; eauto.
  - cbn [rbind]. destruct e; cbn; eauto.
Qed.

(** A dict has no key twice, so the walks of [clearFiles],
    [absolutize] and [setFile] end, at whatever entry they start and
    whatever the numbers of the tracks are: each call returns or raises
    after at most twice as many passes of its loop as the disc has
    indexes. *)
Theorem disc_walks_end (tb : Table) :
  dicts_ok tb ->
  (exists r, snd (clearFiles tb) = Some r)
  /\ (exists r, snd (absolutize tb) = Some r)
  /\ (forall (track index : Z) (path : option string) (length : Z)
             (counter : option Z),
        exists r, snd (setFile tb track index path length counter) = Some r).
Proof.
  intros Hok.
  assert (Hfuel : forall t i, (walk_rank tb t i < walk_fuel tb)%nat).
  { intros t i. pose proof (walk_rank_bound tb t i). unfold walk_fuel. lia. }
  split; [|split].
  - unfold clearFiles.
    destruct (let* first := py_getitem (tracks tb) 0 in
              let* index := Track.getFirstIndex first in
              Ok (Track.number first, Index.number index)) as [[t i]|e];
      [|cbn; eauto].
    apply (clearFiles_loop_ends tb Hok); [apply same_shape_refl | apply Hfuel].
  - unfold absolutize.
    destruct (py_getitem (tracks tb) 0) as [first|e]; [|cbn; eauto].
    cbn [rbind].
    destruct (Track.getFirstIndex first) as [index|e]; [|cbn; eauto].
    cbn [rbind].
    apply (absolutize_loop_ends tb _ Hok);
      [apply same_shape_refl | apply Hfuel].
  - intros track index path length counter. unfold setFile.
    destruct (let* i := lookup_index tb track index in
              let* _ := py_assert (match Index.absolute i with
                                   | Some _ => true
                                   | None => false
                                   end) in
              let* start := as_int (Index.absolute i) in
              Ok (i, start)) as [[i start]|e]; [|cbn; eauto].
    apply (setFile_loop_ends tb _ _ _ _ Hok);
      [apply same_shape_refl | apply Hfuel].
Qed.

Lemma disc_walks_end_witness :
  dicts_ok from_one_file
  /\ (exists r, snd (clearFiles from_one_file) = Some r)
  /\ (exists r, snd (absolutize from_one_file) = Some r)
  /\ (forall (track index : Z) (path : option string) (length : Z)
             (counter : option Z),
        exists r,
          snd (setFile from_one_file track index path length counter)
          = Some r).
Proof.
  assert (H : dicts_ok from_one_file).
  { unfold dicts_ok. apply (bool_decide_unpack _). vm_compute. exact I. }
  split; [exact H | apply (disc_walks_end from_one_file H)].
Defined.

(** ** What the walk has done when it ends *)

Lemma same_shape_lookup (tb0 tb : Table) (p : nat) (tr : Track.t) :
  same_shape tb0 tb ->
  tracks tb0 !! p = Some tr ->
  exists tr',
    tracks tb !! p = Some tr'
    /\ keys (Track.indexes tr') = keys (Track.indexes tr)
    /\ Track.number tr' = Track.number tr.
Proof.
  intros [H _] Htr.
  destruct (Forall2_lookup_l _ _ _ _ _ H Htr) as (tr' & Htr' & [Hd Ht]).
  exists tr'. split; [exact Htr'|]. split.
  - exact (keys_rel _ _ _ Hd).
  - rewrite Ht. destruct tr; reflexivity.
Qed.

Lemma dicts_ok_lookup (tb : Table) (p : nat) (tr : Track.t) :
  dicts_ok tb -> tracks tb !! p = Some tr -> NoDup (keys (Track.indexes tr)).
Proof.
  unfold dicts_ok. rewrite Forall_lookup. intros H Htr. exact (H _ _ Htr).
Qed.

Lemma keys_lookup {V : Type} (d : dict V) (q : nat) :
  keys d !! q = fst <$> d !! q.
Proof. unfold keys. apply list_lookup_fmap. Qed.

Lemma dict_get_at {V : Type} (d : dict V) (q : nat) (e : Z * V) :
  NoDup (keys d) -> d !! q = Some e -> dict_get d (fst e) = Some (snd e).
Proof.
  revert q. induction d as [|[k v] d IH]; intros q Hnd He; [discriminate|].
  cbn [dict_get]. unfold keys in Hnd. cbn [map fst] in Hnd.
  apply NoDup_cons in Hnd as [Hnot Hnd].
  destruct q as [|q].
  - injection He as <-. cbn [fst snd]. rewrite Z.eqb_refl. reflexivity.
  - cbn in He. destruct (Z.eqb_spec k (fst e)) as [->|_].
    + exfalso. apply Hnot. apply list_elem_of_lookup. exists q.
      rewrite list_lookup_fmap. exact (f_equal (fmap fst) He).
    + exact (IH q Hnd He).
Qed.

(** The entry that the walk stands at. *)
Lemma lookup_index_at (tb : Table) (p q : nat) (tr : Track.t) (i : Z) :
  tracks tb !! p = Some tr ->
  NoDup (keys (Track.indexes tr)) ->
  keys (Track.indexes tr) !! q = Some i ->
  exists ix,
    Track.indexes tr !! q = Some (i, ix)
    /\ index_at tb p q = Some ix
    /\ lookup_index tb (Z.of_nat p + 1) i = Ok ix.
Proof.
  intros Htr Hnd Hq. rewrite keys_lookup in Hq.
  destruct (Track.indexes tr !! q) as [[k ix]|] eqn:He; [|discriminate].
  cbn in Hq. injection Hq as ->. exists ix. split; [reflexivity|]. split.
  - unfold index_at. rewrite Htr. cbn. unfold dict in *. rewrite He.
    reflexivity.
  - unfold lookup_index.
    replace (Z.of_nat p + 1 - 1) with (Z.of_nat p) by lia.
    rewrite (py_getitem_lookup _ _ _ Htr). cbn [rbind].
    unfold dict_getitem.
    pose proof (dict_get_at _ q (i, ix) Hnd He) as Hg.
    cbn [fst snd] in Hg. rewrite Hg. reflexivity.
Qed.

Lemma getNextTrackIndex_at (tb : Table) (p q : nat) (tr : Track.t) (i : Z) :
  tracks tb !! p = Some tr ->
  NoDup (keys (Track.indexes tr)) ->
  keys (Track.indexes tr) !! q = Some i ->
  getNextTrackIndex tb (Z.of_nat p + 1) i
  = match keys (Track.indexes tr) !! S q with
    | Some k' => Ok (Z.of_nat p + 1, k')
    | None =>
        match tracks tb !! S p with
        | None => Raise IndexError
        | Some tr2 =>
            match keys (Track.indexes tr2) !! O with
            | Some k2 => Ok (Z.of_nat (S p) + 1, k2)
            | None => Raise IndexError
            end
        end
    end.
Proof.
  intros Htr Hnd Hq. unfold getNextTrackIndex, len_tracks.
  replace (Z.of_nat p + 1 - 1) with (Z.of_nat p) by lia.
  rewrite (py_getitem_lookup _ _ _ Htr). cbn [rbind].
  rewrite (list_index_NoDup _ _ _ Hnd Hq). cbn [rbind].
  replace (Z.of_nat q + 1) with (Z.of_nat (S q)) by lia.
  rewrite py_getitem_nat.
  destruct (keys (Track.indexes tr) !! S q) as [k'|] eqn:Hk.
  - apply lookup_lt_Some in Hk.
    destruct (Z.ltb_spec (Z.of_nat (S q))
                (Z.of_nat (length (keys (Track.indexes tr))))) as [_|];
      [reflexivity | lia].
  - apply lookup_ge_None in Hk.
    destruct (Z.ltb_spec (Z.of_nat (S q))
                (Z.of_nat (length (keys (Track.indexes tr))))) as [|_];
      [lia|].
    replace (Z.of_nat p + 1 + 1 - 1) with (Z.of_nat (S p)) by lia.
    replace (Z.of_nat p + 1 + 1) with (Z.of_nat (S p) + 1) by lia.
    rewrite py_getitem_nat.
    destruct (tracks tb !! S p) as [tr2|] eqn:Htr2.
    + apply lookup_lt_Some in Htr2 as Hlt.
      destruct (Z.ltb_spec (Z.of_nat (length (tracks tb)))
                  (Z.of_nat (S p) + 1)) as [|_]; [lia|].
      cbn [rbind]. change 0 with (Z.of_nat 0). rewrite py_getitem_nat.
      destruct (keys (Track.indexes tr2) !! O); reflexivity.
    + apply lookup_ge_None in Htr2.
      destruct (Z.ltb_spec (Z.of_nat (length (tracks tb)))
                  (Z.of_nat (S p) + 1)) as [_|]; [reflexivity | lia].
Qed.

Lemma dict_alter_lookup (f : Index.t -> Index.t) (d : dict Index.t)
    (q : nat) (i : Z) :
  NoDup (keys d) ->
  keys d !! q = Some i ->
  forall q' : nat,
    snd <$> dict_alter f i d !! q'
    = if decide (q' = q) then f <$> (snd <$> d !! q') else snd <$> d !! q'.
Proof.
  revert q. induction d as [|[k v] d IH]; intros q Hnd Hq q';
    [discriminate|].
  unfold keys in Hnd, Hq. cbn [map fst] in Hnd, Hq.
  apply NoDup_cons in Hnd as [Hnot Hnd]. cbn [dict_alter].
  destruct q as [|q].
  - injection Hq as ->. rewrite Z.eqb_refl.
    destruct q' as [|q']; [reflexivity|].
    destruct (decide (S q' = 0%nat)); [lia | reflexivity].
  - cbn in Hq. destruct (Z.eqb_spec k i) as [->|_].
    + exfalso. apply Hnot. apply list_elem_of_lookup. eauto.
    + destruct q' as [|q'].
      * destruct (decide (0%nat = S q)); [lia | reflexivity].
      * change (snd <$> dict_alter f i d !! q'
                = if decide (S q' = S q) then f <$> (snd <$> d !! q')
                  else snd <$> d !! q').
        rewrite (IH q Hnd Hq q').
        destruct (decide (q' = q)), (decide (S q' = S q));
          try lia; reflexivity.
Qed.

(** A write to the entry at [(p, q)], seen from every position. *)
Lemma index_at_alter (f : Index.t -> Index.t) (tb : Table) (p q : nat)
    (tr : Track.t) (i : Z) :
  tracks tb !! p = Some tr ->
  NoDup (keys (Track.indexes tr)) ->
  keys (Track.indexes tr) !! q = Some i ->
  forall p' q' : nat,
    index_at (alter_index f (Z.of_nat p + 1) i tb) p' q'
    = if decide (p' = p /\ q' = q) then f <$> index_at tb p' q'
      else index_at tb p' q'.
Proof.
  intros Htr Hnd Hq p' q'. unfold alter_index, len_tracks, py_norm.
  replace (Z.of_nat p + 1 - 1) with (Z.of_nat p) by lia.
  destruct (Z.ltb_spec (Z.of_nat p) 0) as [|_]; [lia|].
  destruct (Z.ltb_spec (Z.of_nat p) 0) as [|_]; [lia|].
  rewrite Nat2Z.id. unfold index_at. cbn [tracks set_tracks].
  destruct (decide (p' = p)) as [->|Hne].
  - rewrite list_lookup_alter_eq, Htr. cbn.
    pose proof (dict_alter_lookup f _ q i Hnd Hq q') as Hd.
    unfold dict in *.
    destruct (dict_alter f i (Track.indexes tr) !! q') as [e|],
             (Track.indexes tr !! q') as [e0|];
      cbn in Hd |- *;
      destruct (decide (q' = q)), (decide (p = p /\ q' = q));
      try tauto; try lia; cbn in Hd |- *; congruence.
  - rewrite list_lookup_alter_ne by congruence.
    destruct (decide (p' = p /\ q' = q)) as [[? _]|_]; [contradiction|].
    reflexivity.
Qed.

Lemma index_at_lt (tb : Table) (p q : nat) (tr : Track.t) (ix : Index.t) :
  tracks tb !! p = Some tr ->
  index_at tb p q = Some ix ->
  (q < length (keys (Track.indexes tr)))%nat.
Proof.
  intros Htr H. unfold index_at in H. rewrite Htr in H. cbn in H.
  destruct (Track.indexes tr !! q) as [e|] eqn:He; [|discriminate].
  apply lookup_lt_Some in He. rewrite keys_length. exact He.
Qed.

Lemma swept_start (f : Index.t -> Index.t) (tb : Table) (p0 q0 : nat) :
  swept f tb p0 q0 p0 q0 tb.
Proof.
  split; [apply same_shape_refl|]. intros p' q'.
  destruct (decide (passed p0 q0 p0 q0 p' q')) as [[H1 H2]|_];
    [contradiction | reflexivity].
Qed.

(** Only the positions that hold an index count. *)
Lemma swept_ext (f : Index.t -> Index.t) (tb0 tb : Table)
    (p0 q0 p q p2 q2 : nat) :
  (forall p' q' ix,
     index_at tb0 p' q' = Some ix ->
     passed p0 q0 p q p' q' <-> passed p0 q0 p2 q2 p' q') ->
  swept f tb0 p0 q0 p q tb -> swept f tb0 p0 q0 p2 q2 tb.
Proof.
  intros Hiff [Hs H]. split; [exact Hs|]. intros p' q'. rewrite H.
  destruct (index_at tb0 p' q') as [ix|] eqn:E.
  - specialize (Hiff p' q' ix E).
    destruct (decide (passed p0 q0 p q p' q')),
             (decide (passed p0 q0 p2 q2 p' q')); tauto.
  - destruct (decide (passed p0 q0 p q p' q')),
             (decide (passed p0 q0 p2 q2 p' q')); reflexivity.
Qed.

Lemma swept_step (f g : Index.t -> Index.t) (tb0 tb : Table)
    (p0 q0 p q : nat) (tr : Track.t) (i : Z) :
  dicts_ok tb0 ->
  tracks tb0 !! p = Some tr ->
  keys (Track.indexes tr) !! q = Some i ->
  ~ before p q p0 q0 ->
  (forall ix, index_at tb0 p q = Some ix -> g ix = f ix) ->
  swept f tb0 p0 q0 p q tb ->
  swept f tb0 p0 q0 p (S q) (alter_index g (Z.of_nat p + 1) i tb).
Proof.
  intros Hok Htr Hq Hge Hg [Hs H].
  split; [apply same_shape_alter, Hs|]. intros p' q'.
  destruct (same_shape_lookup _ _ _ _ Hs Htr) as (tr' & Htr' & Hk & _).
  pose proof (dicts_ok_lookup _ _ _ Hok Htr) as Hnd.
  rewrite <- Hk in Hnd, Hq.
  rewrite (index_at_alter g tb p q tr' i Htr' Hnd Hq p' q'), H.
  unfold passed, before in *.
  destruct (decide (p' = p /\ q' = q)) as [[-> ->]|Hne].
  - destruct (index_at tb0 p q) as [ix|] eqn:E;
      repeat match goal with
             | |- context [decide ?P] => destruct (decide P)
             end;
      first [reflexivity | exfalso; lia
            | cbn; rewrite (Hg ix eq_refl); reflexivity].
  - repeat match goal with
           | |- context [decide ?P] => destruct (decide P)
           end; first [reflexivity | exfalso; lia].
Qed.

(** The step of the walk from [(p, q)], after the write to the entry
    there: it goes to the next key of the track or to the first key of
    the next track, or it has reached the end of the disc. *)
Lemma walk_next (f g : Index.t -> Index.t) (tb0 tb : Table)
    (p0 q0 p q : nat) (tr : Track.t) (i : Z) :
  dicts_ok tb0 ->
  tracks_have_indexes tb0 ->
  tracks tb0 !! p = Some tr ->
  keys (Track.indexes tr) !! q = Some i ->
  ~ before p q p0 q0 ->
  (forall ix, index_at tb0 p q = Some ix -> g ix = f ix) ->
  swept f tb0 p0 q0 p q tb ->
  let tb1 := alter_index g (Z.of_nat p + 1) i tb in
  (exists (p2 q2 : nat) (tr2 : Track.t) (i2 : Z),
      getNextTrackIndex tb1 (Z.of_nat p + 1) i = Ok (Z.of_nat p2 + 1, i2)
      /\ tracks tb0 !! p2 = Some tr2
      /\ keys (Track.indexes tr2) !! q2 = Some i2
      /\ swept f tb0 p0 q0 p2 q2 tb1
      /\ ((p2 = p /\ q2 = S q)
          \/ (p2 = S p /\ q2 = O
              /\ length (keys (Track.indexes tr)) = S q)))
  \/ (getNextTrackIndex tb1 (Z.of_nat p + 1) i = Raise IndexError
      /\ length (tracks tb0) = S p
      /\ length (keys (Track.indexes tr)) = S q
      /\ swept f tb0 p0 q0 (S p) O tb1).
Proof.
  intros Hok Hne Htr Hq Hge Hg Hsw tb1.
  pose proof (swept_step f g tb0 tb p0 q0 p q tr i Hok Htr Hq Hge Hg Hsw)
    as Hsw1.
  fold tb1 in Hsw1.
  pose proof (dicts_ok_lookup _ _ _ Hok Htr) as Hnd.
  rewrite (getNextTrackIndex_rel _ tb0 tb1 _ _ (proj1 Hsw1)).
  rewrite (getNextTrackIndex_at tb0 p q tr i Htr Hnd Hq).
  destruct (keys (Track.indexes tr) !! S q) as [k'|] eqn:Hk.
  { left. exists p, (S q), tr, k'.
    split; [reflexivity|]. split; [exact Htr|]. split; [exact Hk|].
    split; [exact Hsw1|]. left. split; reflexivity. }
  apply lookup_ge_None in Hk. apply lookup_lt_Some in Hq as Hlt.
  assert (Hlen : length (keys (Track.indexes tr)) = S q) by lia.
  assert (Hsw2 : swept f tb0 p0 q0 (S p) O tb1).
  { apply (swept_ext f tb0 tb1 p0 q0 p (S q)); [|exact Hsw1].
    intros p' q' ix Hix. unfold passed, before.
    destruct (decide (p' = p)) as [->|]; [|lia].
    pose proof (index_at_lt _ _ _ _ _ Htr Hix). lia. }
  destruct (tracks tb0 !! S p) as [tr2|] eqn:Htr2.
  - unfold tracks_have_indexes in Hne. rewrite Forall_lookup in Hne.
    specialize (Hne _ _ Htr2).
    destruct (keys (Track.indexes tr2) !! O) as [k2|] eqn:Hk2.
    + left. exists (S p), O, tr2, k2.
      split; [reflexivity|]. split; [exact Htr2|]. split; [exact Hk2|].
      split; [exact Hsw2|]. right. repeat split; exact Hlen.
    + exfalso. apply Hne. rewrite keys_lookup in Hk2.
      destruct (Track.indexes tr2); [reflexivity | discriminate].
  - right. apply lookup_ge_None in Htr2. apply lookup_lt_Some in Htr.
    split; [reflexivity|]. split; [lia|]. split; [exact Hlen | exact Hsw2].
Qed.

Lemma swept_whole (f : Index.t -> Index.t) (tb0 tb : Table) :
  swept f tb0 0 0 (length (tracks tb0)) 0 tb ->
  forall p q : nat, index_at tb p q = f <$> index_at tb0 p q.
Proof.
  intros [_ H] p q. rewrite H.
  destruct (decide (passed 0 0 (length (tracks tb0)) 0 p q)) as [|Hn];
    [reflexivity|].
  destruct (index_at tb0 p q) as [ix|] eqn:E; [|reflexivity].
  exfalso. apply Hn. unfold index_at in E.
  destruct (tracks tb0 !! p) as [tr|] eqn:Htr; [|discriminate].
  apply lookup_lt_Some in Htr. unfold passed, before. lia.
Qed.

(** The entry under the walk is as it was at the start. *)
Lemma swept_current (f : Index.t -> Index.t) (tb0 tb : Table)
    (p0 q0 p q : nat) (tr : Track.t) (i : Z) :
  dicts_ok tb0 ->
  tracks tb0 !! p = Some tr ->
  keys (Track.indexes tr) !! q = Some i ->
  swept f tb0 p0 q0 p q tb ->
  exists (tr' : Track.t) (ix : Index.t),
    tracks tb !! p = Some tr'
    /\ Track.number tr' = Track.number tr
    /\ Track.indexes tr !! q = Some (i, ix)
    /\ index_at tb0 p q = Some ix
    /\ dict_getitem (Track.indexes tr') i = Ok ix
    /\ lookup_index tb (Z.of_nat p + 1) i = Ok ix.
Proof.
  intros Hok Htr Hq [Hs H].
  destruct (same_shape_lookup _ _ _ _ Hs Htr) as (tr' & Htr' & Hk & Hn).
  pose proof (dicts_ok_lookup _ _ _ Hok Htr) as Hnd.
  destruct (lookup_index_at tb0 p q tr i Htr Hnd Hq) as (ix & He & Hix & _).
  assert (Hnd' : NoDup (keys (Track.indexes tr'))) by (rewrite Hk; exact Hnd).
  assert (Hq' : keys (Track.indexes tr') !! q = Some i)
    by (rewrite Hk; exact Hq).
  destruct (lookup_index_at tb p q tr' i Htr' Hnd' Hq')
    as (ix' & He' & Hix' & Hl').
  assert (ix' = ix) as ->.
  { rewrite H in Hix'.
    destruct (decide (passed p0 q0 p q p q)) as [[_ Hb]|_];
      [unfold before in Hb; lia|].
    congruence. }
  exists tr', ix. repeat split; try assumption.
  unfold lookup_index in Hl'.
  replace (Z.of_nat p + 1 - 1) with (Z.of_nat p) in Hl' by lia.
  rewrite (py_getitem_lookup _ _ _ Htr') in Hl'. exact Hl'.
Qed.

Lemma walk_fuel_enough (tb : Table) (t i : Z) :
  (walk_rank tb t i < walk_fuel tb)%nat.
Proof. pose proof (walk_rank_bound tb t i). unfold walk_fuel. lia. Qed.

Lemma not_before_origin (p q : nat) : ~ before p q 0 0.
Proof. unfold before. lia. Qed.

Lemma clearFiles_loop_sweeps (tb0 : Table) :
  dicts_ok tb0 ->
  tracks_have_indexes tb0 ->
  forall (fuel : nat) (tb : Table) (p q : nat) (tr : Track.t) (i : Z),
    tracks tb0 !! p = Some tr ->
    keys (Track.indexes tr) !! q = Some i ->
    swept clear_index tb0 0 0 p q tb ->
    (walk_rank tb0 (Z.of_nat p + 1) i < fuel)%nat ->
    exists tb',
      clearFiles_loop fuel tb (Z.of_nat p + 1) i = (tb', Some (Ok tt))
      /\ swept clear_index tb0 0 0 (length (tracks tb0)) 0 tb'.
Proof.
  intros Hok Hne.
  induction fuel as [|fuel IH]; intros tb p q tr i Htr Hq Hsw Hr; [lia|].
  cbn [clearFiles_loop].
  destruct (swept_current _ _ _ _ _ _ _ _ _ Hok Htr Hq Hsw)
    as (tr' & ix & _ & _ & _ & _ & _ & Hl).
  rewrite Hl.
  destruct (walk_next clear_index clear_index tb0 tb 0 0 p q tr i Hok Hne Htr
              Hq (not_before_origin p q) (fun _ _ => eq_refl) Hsw)
    as [(p2 & q2 & tr2 & i2 & Hn & Htr2 & Hq2 & Hsw2 & _)
       |(Hn & Hlen & _ & Hsw2)].
  - rewrite Hn. apply (IH _ p2 q2 tr2 i2 Htr2 Hq2 Hsw2).
    rewrite (getNextTrackIndex_rel _ _ _ _ _ (proj1 Hsw2)) in Hn.
    pose proof (walk_rank_decreases tb0 _ _ _ _ Hok Hn). lia.
  - rewrite Hn. eexists. split; [reflexivity|]. rewrite Hlen. exact Hsw2.
Qed.

(** On a disc whose tracks all have an index and whose walk starts at
    the entry that [keys()] of track 1 lists first, [clearFiles] returns
    normally and has cleared the path and the relative offset of every
    index of every track, and nothing else has changed. *)
Theorem clearFiles_clears_every_index (tb : Table) :
  dicts_ok tb ->
  tracks_have_indexes tb ->
  starts_at_first tb ->
  exists tb',
    clearFiles tb = (tb', Some (Ok tt))
    /\ same_shape tb tb'
    /\ forall p q : nat, index_at tb' p q = clear_index <$> index_at tb p q.
Proof.
  intros Hok Hne (tr & ix & Htr & Hnum & Hfirst & Hk).
  unfold clearFiles. change 0 with (Z.of_nat 0).
  rewrite (py_getitem_lookup _ _ _ Htr). cbn [rbind].
  rewrite Hfirst. cbn [rbind]. rewrite Hnum.
  change 1 with (Z.of_nat 0 + 1).
  destruct (clearFiles_loop_sweeps tb Hok Hne (walk_fuel tb) tb 0 0 tr
              (Index.number ix) Htr Hk (swept_start _ _ _ _)
              (walk_fuel_enough _ _ _)) as (tb' & Hrun & Hsw).
  exists tb'. split; [exact Hrun|]. split; [exact (proj1 Hsw)|].
  apply swept_whole, Hsw.
Qed.

Lemma clearFiles_clears_every_index_witness :
  (dicts_ok from_one_file
   /\ tracks_have_indexes from_one_file
   /\ starts_at_first from_one_file)
  /\ exists tb',
       clearFiles from_one_file = (tb', Some (Ok tt))
       /\ same_shape from_one_file tb'
       /\ forall p q : nat,
            index_at tb' p q = clear_index <$> index_at from_one_file p q.
Proof.
  assert (H1 : dicts_ok from_one_file).
  { unfold dicts_ok. apply (bool_decide_unpack _). vm_compute. exact I. }
  assert (H2 : tracks_have_indexes from_one_file).
  { unfold tracks_have_indexes. cbn.
    repeat (constructor; [discriminate|]). constructor. }
  assert (H3 : starts_at_first from_one_file).
  { eexists _, _. split; [reflexivity|]. split; [reflexivity|].
    split; reflexivity. }
  split; [auto|].
  apply (clearFiles_clears_every_index from_one_file H1 H2 H3).
Defined.

Lemma dict_get_lookup {V : Type} (d : dict V) (k : Z) (v : V) :
  dict_get d k = Some v -> exists q : nat, d !! q = Some (k, v).
Proof.
  induction d as [|[k' v'] d IH]; intros H; [discriminate|].
  cbn [dict_get] in H. destruct (Z.eqb_spec k' k) as [->|_].
  - injection H as ->. exists O. reflexivity.
  - destruct (IH H) as [q Hq]. exists (S q). exact Hq.
Qed.

Lemma getFirstIndex_at (tb : Table) (p : nat) (tr : Track.t) (ix : Index.t) :
  tracks tb !! p = Some tr ->
  Track.getFirstIndex tr = Ok ix ->
  exists q : nat, index_at tb p q = Some ix.
Proof.
  intros Htr H. unfold Track.getFirstIndex in H.
  destruct (py_getitem (sorted_keys (keys (Track.indexes tr))) 0) as [k|];
    [|discriminate]. cbn [rbind] in H. unfold dict_getitem in H.
  destruct (dict_get (Track.indexes tr) k) as [v|] eqn:E; [|discriminate].
  injection H as ->. destruct (dict_get_lookup _ _ _ E) as [q Hq].
  exists q. unfold index_at. rewrite Htr. cbn. unfold dict in *.
  rewrite Hq. reflexivity.
Qed.

Lemma index_at_Some (tb : Table) (p q : nat) (ix : Index.t) :
  index_at tb p q = Some ix ->
  exists tr,
    tracks tb !! p = Some tr
    /\ (p < length (tracks tb))%nat
    /\ (q < length (keys (Track.indexes tr)))%nat.
Proof.
  intros H. unfold index_at in H.
  destruct (tracks tb !! p) as [tr|] eqn:Htr; [|discriminate].
  exists tr. split; [reflexivity|]. split.
  - exact (lookup_lt_Some _ _ _ Htr).
  - apply (index_at_lt tb p q tr ix Htr). unfold index_at. rewrite Htr.
    exact H.
Qed.

(** A stop of the walk: an entry of the disc, or the end of the disc. *)
Lemma stop_not_beyond (tb0 : Table) (p1 q1 p q : nat) (tr : Track.t) :
  is_Some (index_at tb0 p1 q1)
  \/ (p1 = length (tracks tb0) /\ q1 = O) ->
  tracks tb0 !! p = Some tr ->
  length (keys (Track.indexes tr)) = S q ->
  before p q p1 q1 ->
  (p < p1)%nat.
Proof.
  intros Hstop Htr Hlen Hb. apply lookup_lt_Some in Htr as Hlt.
  destruct Hstop as [[ix1 Hix1]|[-> _]]; [|exact Hlt].
  unfold before in Hb. destruct Hb as [Hb|[-> Hb]]; [exact Hb|].
  pose proof (index_at_lt _ _ _ _ _ Htr Hix1). lia.
Qed.

(** A walk that left the last entry of the disc before it met the stop
    has the end of the disc as its stop. *)
Lemma swept_at_end (f : Index.t -> Index.t) (tb0 tb : Table)
    (p0 q0 p1 q1 p q : nat) (tr : Track.t) :
  is_Some (index_at tb0 p1 q1)
  \/ (p1 = length (tracks tb0) /\ q1 = O) ->
  tracks tb0 !! p = Some tr ->
  length (keys (Track.indexes tr)) = S q ->
  length (tracks tb0) = S p ->
  before p q p1 q1 ->
  swept f tb0 p0 q0 (S p) O tb ->
  swept f tb0 p0 q0 p1 q1 tb.
Proof.
  intros Hstop Htr Hklen Hlen Hb Hsw.
  apply (swept_ext _ tb0 _ p0 q0 (S p) O); [|exact Hsw].
  intros p' q' ix' Hix'.
  destruct (index_at_Some _ _ _ _ Hix') as (tr' & _ & Hp' & _).
  pose proof (stop_not_beyond tb0 p1 q1 p q tr Hstop Htr Hklen Hb) as Hlt.
  assert (p1 = length (tracks tb0)) as ->.
  { destruct Hstop as [[ix1 Hix1]|[-> _]]; [|reflexivity].
    destruct (index_at_Some _ _ _ _ Hix1) as (_ & _ & Hp1 & _). lia. }
  unfold passed, before. lia.
Qed.

Section SetFileRange.
Variables (tb0 : Table) (path : option string) (start end_ : Z).
Variables (counter : option Z) (p0 q0 p1 q1 : nat).
Hypothesis Hok : dicts_ok tb0.
Hypothesis Hne : tracks_have_indexes tb0.
Hypothesis Hin :
  forall (p q : nat) (ix : Index.t),
    passed p0 q0 p1 q1 p q ->
    index_at tb0 p q = Some ix ->
    exists a, Index.absolute ix = Some a /\ a <= end_.
Hypothesis Hstop :
  (exists ix1 a1,
      index_at tb0 p1 q1 = Some ix1
      /\ Index.absolute ix1 = Some a1 /\ end_ < a1)
  \/ (p1 = length (tracks tb0) /\ q1 = O).

Lemma setFile_stop :
  is_Some (index_at tb0 p1 q1) \/ (p1 = length (tracks tb0) /\ q1 = O).
Proof.
  destruct Hstop as [(ix1 & a1 & H & _)|H]; [left; eauto | right; exact H].
Qed.

Lemma setFile_loop_sweeps (fuel : nat) :
  forall (tb : Table) (p q : nat) (tr : Track.t) (i : Z) (ix : Index.t),
    tracks tb0 !! p = Some tr ->
    keys (Track.indexes tr) !! q = Some i ->
    index_at tb0 p q = Some ix ->
    swept (file_entry path start counter) tb0 p0 q0 p q tb ->
    ~ before p q p0 q0 ->
    ~ before p1 q1 p q ->
    (walk_rank tb0 (Z.of_nat p + 1) i < fuel)%nat ->
    exists tb',
      setFile_loop fuel path start end_ counter tb (Z.of_nat p + 1) i ix
      = (tb', Some (Ok tt))
      /\ swept (file_entry path start counter) tb0 p0 q0 p1 q1 tb'.
Proof.
  induction fuel as [|fuel IH]; intros tb p q tr i ix Htr Hq Hix Hsw Hge Hle
    Hr; [lia|].
  cbn [setFile_loop].
  destruct (decide (p = p1 /\ q = q1)) as [[-> ->]|Hneq].
  - destruct Hstop as [(ix1 & a1 & Hix1 & Ha1 & Hgt)|[Hp1 _]].
    + rewrite Hix in Hix1. injection Hix1 as <-. rewrite Ha1.
      cbn [py2_le]. destruct (Z.leb_spec a1 end_) as [|_]; [lia|].
      eexists. split; [reflexivity | exact Hsw].
    + apply lookup_lt_Some in Htr. lia.
  - assert (Hb : before p q p1 q1) by (unfold before in *; lia).
    destruct (Hin p q ix (conj Hge Hb) Hix) as (a & Ha & Hae).
    rewrite Ha. cbn [py2_le as_int].
    destruct (Z.leb_spec a end_) as [_|]; [|lia].
    rewrite alter_index_compose.
    match goal with
    | |- context [alter_index ?g0 _ _ tb] => set (g := g0)
    end.
    assert (Hg : forall ix', index_at tb0 p q = Some ix' ->
                             g ix' = file_entry path start counter ix').
    { intros ix' Hix'. rewrite Hix in Hix'. injection Hix' as <-.
      unfold file_entry. rewrite Ha. reflexivity. }
    destruct (walk_next (file_entry path start counter) g tb0 tb p0 q0 p q
                tr i Hok Hne Htr Hq Hge Hg Hsw)
      as [(p2 & q2 & tr2 & i2 & Hn & Htr2 & Hq2 & Hsw2 & Hpos)
         |(Hn & Hlen & Hklen & Hsw2)].
    + unfold setFile_next. rewrite Hn. cbn [rbind].
      destruct (swept_current _ _ _ _ _ _ _ _ _ Hok Htr2 Hq2 Hsw2)
        as (tr2' & ix2 & _ & _ & _ & Hix2 & _ & Hl2).
      rewrite Hl2. cbn [rbind].
      apply (IH _ p2 q2 tr2 i2 ix2 Htr2 Hq2 Hix2 Hsw2).
      * unfold before in *. lia.
      * destruct Hpos as [[-> ->]|(-> & -> & Hklen)].
        -- unfold before in *. lia.
        -- pose proof (stop_not_beyond tb0 p1 q1 p q tr setFile_stop Htr
                         Hklen Hb).
           unfold before. lia.
      * rewrite (getNextTrackIndex_rel _ _ _ _ _ (proj1 Hsw2)) in Hn.
        pose proof (walk_rank_decreases tb0 _ _ _ _ Hok Hn). lia.
    + unfold setFile_next. rewrite Hn. cbn [rbind].
      eexists. split; [reflexivity|].
      exact (swept_at_end _ tb0 _ p0 q0 p1 q1 p q tr setFile_stop Htr Hklen
               Hlen Hb Hsw2).
Qed.
End SetFileRange.



Section AbsolutizeRange.
Variables (tb0 : Table) (c : Z) (p1 q1 : nat).
Hypothesis Hok : dicts_ok tb0.
Hypothesis Hne : tracks_have_indexes tb0.
Hypothesis Hnum : numbered (tracks tb0).
Hypothesis Hkey : keyed_by_number tb0.
Hypothesis Hin :
  forall (p q : nat) (ix : Index.t),
    before p q p1 q1 ->
    index_at tb0 p q = Some ix ->
    Index.counter ix = Some c /\ check_absolute ix = Ok tt.
Hypothesis Hstop :
  (exists ix1,
      index_at tb0 p1 q1 = Some ix1 /\ Index.counter ix1 <> Some c)
  \/ (p1 = length (tracks tb0) /\ q1 = O).

Lemma absolutize_stop :
  is_Some (index_at tb0 p1 q1) \/ (p1 = length (tracks tb0) /\ q1 = O).
Proof.
  destruct Hstop as [(ix1 & H & _)|H]; [left; eauto | right; exact H].
Qed.

Lemma absolutize_loop_sweeps (fuel : nat) :
  forall (tb : Table) (p q : nat) (tr : Track.t) (i : Z),
    tracks tb0 !! p = Some tr ->
    keys (Track.indexes tr) !! q = Some i ->
    swept absolutize_index tb0 0 0 p q tb ->
    ~ before p1 q1 p q ->
    (walk_rank tb0 (Z.of_nat p + 1) i < fuel)%nat ->
    exists tb',
      absolutize_loop fuel (Some c) tb (Z.of_nat p + 1) i
      = (tb', Some (Ok tt))
      /\ swept absolutize_index tb0 0 0 p1 q1 tb'.
Proof.
  induction fuel as [|fuel IH]; intros tb p q tr i Htr Hq Hsw Hle Hr; [lia|].
  cbn [absolutize_loop].
  destruct (swept_current _ _ _ _ _ _ _ _ _ Hok Htr Hq Hsw)
    as (tr' & ix & Htr' & Hn' & He & Hix & Hget & _).
  assert (Hfetch : absolutize_fetch tb (Z.of_nat p + 1) i = Ok ix).
  { unfold absolutize_fetch, Track.getIndex.
    replace (Z.of_nat p + 1 - 1) with (Z.of_nat p) by lia.
    rewrite (py_getitem_lookup _ _ _ Htr'). cbn [rbind]. rewrite Hget.
    cbn [rbind]. rewrite Hn', (Hnum _ _ Htr), Z.eqb_refl.
    cbn [py_assert rbind].
    pose proof (Hkey p q tr (i, ix) Htr He) as Hki. cbn [fst snd] in Hki.
    rewrite Hki, Z.eqb_refl. reflexivity. }
  rewrite Hfetch.
  destruct (decide (p = p1 /\ q = q1)) as [[-> ->]|Hneq].
  - destruct Hstop as [(ix1 & Hix1 & Hc1)|[Hp1 _]].
    + rewrite Hix in Hix1. injection Hix1 as <-.
      destruct (Index.counter ix) as [c'|].
      * cbn [opt_Z_eqb]. destruct (Z.eqb_spec c' c) as [->|_];
          [contradiction|]. cbn [negb].
        eexists. split; [reflexivity | exact Hsw].
      * eexists. split; [reflexivity | exact Hsw].
    + apply lookup_lt_Some in Htr. lia.
  - assert (Hb : before p q p1 q1) by (unfold before in *; lia).
    destruct (Hin p q ix Hb Hix) as [Hc Hchk].
    rewrite Hc. cbn [opt_Z_eqb]. rewrite Z.eqb_refl. cbn [negb].
    rewrite Hchk.
    destruct (walk_next absolutize_index absolutize_index tb0 tb 0 0 p q tr
                i Hok Hne Htr Hq (not_before_origin p q)
                (fun _ _ => eq_refl) Hsw)
      as [(p2 & q2 & tr2 & i2 & Hn & Htr2 & Hq2 & Hsw2 & Hpos)
         |(Hn & Hlen & Hklen & Hsw2)].
    + rewrite Hn. apply (IH _ p2 q2 tr2 i2 Htr2 Hq2 Hsw2).
      * destruct Hpos as [[-> ->]|(-> & -> & Hklen)].
        -- unfold before in *. lia.
        -- pose proof (stop_not_beyond tb0 p1 q1 p q tr absolutize_stop Htr
                         Hklen Hb).
           unfold before. lia.
      * rewrite (getNextTrackIndex_rel _ _ _ _ _ (proj1 Hsw2)) in Hn.
        pose proof (walk_rank_decreases tb0 _ _ _ _ Hok Hn). lia.
    + rewrite Hn. eexists. split; [reflexivity|].
      exact (swept_at_end _ tb0 _ 0 0 p1 q1 p q tr absolutize_stop Htr Hklen
               Hlen Hb Hsw2).
Qed.
End AbsolutizeRange.



(** ** The tracks that merge appends *)

Lemma merge_index_shift (l gap c : Z) (ix : Index.t) :
  merge_index (Some l) gap (Some c) ix = Ok (shift_index (l + gap) c ix).
Proof.
  unfold merge_index, shift_index.
  destruct (Index.absolute ix); cbn [as_int rbind];
    match goal with
    | |- context [Index.counter ?i] => destruct (Index.counter i)
    end; reflexivity.
Qed.

Lemma merge_indexes_shift (l gap c : Z) (d : dict Index.t) :
  merge_indexes (Some l) gap (Some c) d
  = Ok (map (fun e => (fst e, shift_index (l + gap) c (snd e))) d).
Proof.
  induction d as [|[k ix] d IH]; cbn [merge_indexes map]; [reflexivity|].
  rewrite merge_index_shift. cbn [rbind]. rewrite IH. reflexivity.
Qed.

Section MergeAppends.
Variables (self olist : positive) (session : option Z).
Variables (gap trackCount l c : Z).

Lemma merge_loop_appends (n : nat) :
  forall (s : Store) (k : nat) (me : TableObj) (yours refs : list positive),
    s_tables s !! self = Some me ->
    o_leadout me = Some l ->
    s_lists s !! olist = Some yours ->
    olist <> o_tracks me ->
    s_lists s !! o_tracks me = Some refs ->
    Forall (fun r => is_Some (s_tracks s !! r)) yours ->
    (k + n = length yours)%nat ->
    let s' := fst (merge_loop (S n) s self olist k session gap trackCount
                              (Some c)) in
    exists new : list positive,
      s_lists s' !! o_tracks me = Some (refs ++ new)
      /\ Forall2
           (fun r y =>
              forall track,
                s_tracks s !! y = Some track ->
                s_tracks s' !! r
                = Some (shift_track session trackCount (l + gap) c track))
           new (drop k yours).
Proof.
  induction n as [|n IH];
    intros s k me yours refs Hme Hl Hyours Hne Hrefs Hall Hk.
  - cbn [merge_loop]. rewrite Hyours.
    rewrite lookup_ge_None_2 by lia. cbn [fst]. exists [].
    rewrite app_nil_r, drop_ge by lia. split; [exact Hrefs | constructor].
  - remember (S n) as fuel eqn:Hfuel. cbn [merge_loop].
    rewrite Hyours.
    destruct (lookup_lt_is_Some_2 yours k ltac:(lia)) as [tr Htr].
    rewrite Htr.
    destruct (proj1 (Forall_lookup _ _) Hall k tr Htr) as [track Htrack].
    rewrite Htrack, Hme. unfold deepcopy.
    cbn [set_s_tracks set_s_lists s_tables s_lists s_tracks].
    rewrite Hl, merge_indexes_shift. rewrite !insert_insert_eq, Hrefs.
    set (t := fresh (dom (s_tracks s))).
    assert (Ht : s_tracks s !! t = None) by apply fresh_track_unused.
    fold (shift_track session trackCount (l + gap) c track).
    set (shifted := shift_track session trackCount (l + gap) c track).
    set (s4 := set_s_lists _ _).
    assert (Hsub : s_tracks s ⊆ s_tracks s4)
      by (apply insert_subseteq; exact Ht).
    assert (Hme4 : s_tables s4 !! self = Some me) by exact Hme.
    assert (Hyours4 : s_lists s4 !! olist = Some yours).
    { subst s4. cbn [set_s_lists s_lists set_s_tracks].
      rewrite lookup_insert_ne by congruence. exact Hyours. }
    assert (Hrefs4 : s_lists s4 !! o_tracks me = Some (refs ++ [t])).
    { subst s4. cbn [set_s_lists s_lists set_s_tracks].
      apply lookup_insert_eq. }
    assert (Hall4 : Forall (fun r => is_Some (s_tracks s4 !! r)) yours).
    { eapply Forall_impl; [exact Hall|]. intros r [x Hx].
      exists x. exact (lookup_weaken _ _ _ _ Hx Hsub). }
    subst fuel.
    destruct (IH s4 (S k) me yours (refs ++ [t]) Hme4 Hl Hyours4 Hne Hrefs4
                Hall4 ltac:(lia)) as (new & Hnew & Hrel).
    pose proof (merge_loop_frame self olist session gap trackCount (Some c)
                  (S n) s4 (S k) me Hme4) as (_ & _ & Hsub').
    cbn zeta in Hsub'.
    exists (t :: new). split.
    + rewrite Hnew, <- app_assoc. reflexivity.
    + rewrite (drop_S _ _ _ Htr). constructor.
      * intros track' Htrack'. rewrite Htrack in Htrack'.
        injection Htrack' as <-.
        apply (lookup_weaken _ _ _ _ (lookup_insert_eq _ _ _) Hsub').
      * eapply Forall2_impl; [exact Hrel|]. intros r y Hry track' Hy.
        apply Hry. exact (lookup_weaken _ _ _ _ Hy Hsub).
Qed.
End MergeAppends.

Lemma read_tracks_refs (s : Store) (r : positive) (ts : list Track.t) :
  read_tracks s r = Some ts ->
  exists refs,
    s_lists s !! r = Some refs
    /\ Forall2 (fun x t => s_tracks s !! x = Some t) refs ts.
Proof.
  unfold read_tracks. intros H.
  destruct (s_lists s !! r) as [refs|]; [|discriminate].
  cbn [mbind option_bind] in H. exists refs. split; [reflexivity|].
  apply mapM_Some in H. exact H.
Qed.

(** [this.merge(other, session)] for two tables with lists of
    their own, resolved leadouts and a counter on the last index of
    [this]: the call returns, and [this] then holds its old tracks followed
    by one copy of each track of [other], renumbered after the old tracks,
    put in the session, with absolute offsets moved by the old leadout plus
    the session gap and counters moved by the counter of the old last
    index.  The leadout is the sum of both and the gap; catalog, CD-Text
    and the cached disc id are as before. *)
Theorem merge_appends_shifted_copies
    (s : Store) (self other : positive) (session : option Z)
    (me you : TableObj) (mine yours : list Track.t) (l lo c : Z) :
  s_tables s !! self = Some me ->
  s_tables s !! other = Some you ->
  o_tracks me <> o_tracks you ->
  read_tracks s (o_tracks me) = Some mine ->
  read_tracks s (o_tracks you) = Some yours ->
  o_leadout me = Some l ->
  o_leadout you = Some lo ->
  sourceCounter_of mine = Ok (Some c) ->
  let gap := _getSessionGap session in
  snd (merge s self other session) = Some (Ok tt)
  /\ read_table (fst (merge s self other session)) self
     = Some (mkTable
               (mine ++ map (shift_track session (Z.of_nat (length mine))
                               (l + gap) c) yours)
               (Some (l + (lo + gap))) (o_catalog me) (o_cdtext me)
               (o_mbdiscid me)).
Proof.
  intros Hme Hyou Hne Hmine Hyours Hl Hlo Hsc gap.
  destruct (read_tracks_refs _ _ _ Hmine) as (refs & Hrefs & Hmine2).
  destruct (read_tracks_refs _ _ _ Hyours) as (yrefs & Hyrefs & Hyours2).
  assert (Hall : Forall (fun r => is_Some (s_tracks s !! r)) yrefs).
  { clear -Hyours2. induction Hyours2; constructor; eauto. }
  unfold merge. rewrite Hme, Hyou, Hmine, Hyrefs, Hsc. fold gap.
  pose proof (merge_loop_frame self (o_tracks you) session gap
                (Z.of_nat (length mine)) (Some c) (S (length yrefs)) s 0 me
                Hme) as Hframe.
  pose proof (merge_loop_total self (o_tracks you) session gap
                (Z.of_nat (length mine)) (Some c) (length yrefs) s 0 me yrefs
                Hme ltac:(intros d; rewrite Hl; apply merge_indexes_total)
                Hyrefs (fun E => Hne (eq_sym E)) ltac:(eauto) Hall eq_refl)
    as Htotal.
  pose proof (merge_loop_appends self (o_tracks you) session gap
                (Z.of_nat (length mine)) l c (length yrefs) s 0 me yrefs refs
                Hme Hl Hyrefs (fun E => Hne (eq_sym E)) Hrefs Hall eq_refl)
    as Happ.
  destruct (merge_loop (S (length yrefs)) s self (o_tracks you) 0 session gap
              (Z.of_nat (length mine)) (Some c)) as [s' out].
  cbn [fst snd] in Hframe, Htotal, Happ. cbn zeta in Happ.
  destruct Hframe as (Htab & _ & Hsub).
  destruct Happ as (new & Hnew & Hrel). rewrite drop_0 in Hrel.
  rewrite Htotal, Htab, Hme, Hyou, Hl, Hlo. cbn [as_int rbind fst snd].
  split; [reflexivity|].
  unfold read_table, read_tracks. cbn [set_s_tables s_tables s_lists s_tracks].
  rewrite lookup_insert_eq. cbn [mbind option_bind set_o_leadout o_tracks].
  rewrite Hnew. cbn [mbind option_bind].
  assert (Hread :
            mapM (fun r => s_tracks s' !! r) (refs ++ new)
            = Some (mine ++ map (shift_track session (Z.of_nat (length mine))
                                   (l + gap) c) yours)).
  { apply mapM_Some. apply Forall2_app.
    - eapply Forall2_impl; [exact Hmine2|]. intros x t Hx. cbn beta in *.
      exact (lookup_weaken _ _ _ _ Hx Hsub).
    - clear -Hrel Hyours2. revert new Hrel.
      induction Hyours2 as [|y t yrefs yours Hy _ IH]; intros new Hrel.
      + inversion Hrel; subst. constructor.
      + inversion Hrel as [|r y' new' ys' Hr Hrest]; subst.
        cbn [map]. constructor; [exact (Hr t Hy) | exact (IH _ Hrest)]. }
  rewrite Hread. reflexivity.
Qed.

Lemma merge_appends_shifted_copies_witness :
  let gap := _getSessionGap (Some 2) in
  snd (merge two_sessions 1 2 (Some 2)) = Some (Ok tt)
  /\ read_table (fst (merge two_sessions 1 2 (Some 2))) 1%positive
     = Some (mkTable
               ([mkTrack 1 true
                   [mkIndex 1 (Some 0) (Some "a.wav") (Some 0) (Some 0)];
                 mkTrack 2 true
                   [mkIndex 1 (Some 15000) (Some "a.wav") (Some 15000)
                      (Some 0)]]
                ++ map (shift_track (Some 2) (Z.of_nat 2) (30150 + gap) 0)
                     [mkTrack 1 false
                        [mkIndex 1 (Some 0) (Some "b.iso") (Some 0)
                           (Some 1)]])
               (Some (30150 + (5000 + gap))) None ∅ None).
Proof.
  apply (merge_appends_shifted_copies two_sessions 1 2 (Some 2)
           (mkTableObj 1 (Some 30150) None ∅ None)
           (mkTableObj 2 (Some 5000) None ∅ None)
           [mkTrack 1 true
              [mkIndex 1 (Some 0) (Some "a.wav") (Some 0) (Some 0)];
            mkTrack 2 true
              [mkIndex 1 (Some 15000) (Some "a.wav") (Some 15000) (Some 0)]]
           [mkTrack 1 false
              [mkIndex 1 (Some 0) (Some "b.iso") (Some 0) (Some 1)]]
           30150 5000 0).
  - reflexivity.
  - reflexivity.
  - cbn. discriminate.
  - reflexivity.
  - reflexivity.
  - reflexivity.
  - reflexivity.
  - reflexivity.
Defined.

(** The table object of [this] after [merge]: only the leadout can have
    changed. *)
Lemma merge_table_object (s : Store) (self other : positive)
    (session : option Z) (me : TableObj) :
  s_tables s !! self = Some me ->
  exists v,
    s_tables (fst (merge s self other session)) !! self
    = Some (set_o_leadout v me).
Proof.
  intros Hme.
  assert (Hsame : exists v,
             s_tables s !! self = Some (set_o_leadout v me)).
  { exists (o_leadout me). rewrite Hme. destruct me; reflexivity. }
  unfold merge. rewrite Hme.
  destruct (s_tables s !! other) as [you|]; [|exact Hsame].
  destruct (read_tracks s (o_tracks me)) as [mine|]; [|exact Hsame].
  destruct (s_lists s !! o_tracks you) as [yours|]; [|exact Hsame].
  destruct (sourceCounter_of mine) as [sc|e]; [|exact Hsame].
  pose proof (merge_loop_frame self (o_tracks you) session
                (_getSessionGap session) (Z.of_nat (length mine)) sc
                (S (length yours)) s 0 me Hme) as Hframe.
  destruct (merge_loop (S (length yours)) s self (o_tracks you) 0 session
              (_getSessionGap session) (Z.of_nat (length mine)) sc)
    as [s' out].
  cbn [fst] in Hframe. destruct Hframe as (Htab & _ & _).
  assert (Hsame' : exists v,
             s_tables s' !! self = Some (set_o_leadout v me))
    by (rewrite Htab; exact Hsame).
  destruct out as [[[]|e]|]; try exact Hsame'.
  rewrite Htab, Hme.
  destruct (s_tables s !! other) as [you'|]; [|exact Hsame'].
  match goal with
  | |- context [match ?x with Ok _ => _ | Raise _ => _ end] =>
      destruct x as [lo|e]
  end; [|exact Hsame'].
  cbn [fst set_s_tables s_tables]. rewrite lookup_insert_eq. eauto.
Qed.

(** [merge] does not touch the cached MusicBrainz disc id: when
    [this] had its disc id computed before the merge,
    [getMusicBrainzDiscId] on the merged table still returns that id,
    whatever tracks the table holds by then. *)
Theorem merge_keeps_cached_disc_id
    (s : Store) (self other : positive) (session : option Z)
    (me : TableObj) (tb' : Table) (id : string) :
  s_tables s !! self = Some me ->
  o_mbdiscid me = Some id ->
  id <> "" ->
  read_table (fst (merge s self other session)) self = Some tb' ->
  getMusicBrainzDiscId tb' = (tb', Ok id).
Proof.
  intros Hme Hid Hne Hread.
  destruct (merge_table_object s self other session me Hme) as [v Hobj].
  unfold read_table in Hread. rewrite Hobj in Hread.
  cbn [mbind option_bind] in Hread.
  destruct (read_tracks _ _) as [ts|]; [|discriminate].
  cbn [mbind option_bind] in Hread. injection Hread as <-.
  unfold getMusicBrainzDiscId.
  cbn [mbdiscid set_o_leadout o_mbdiscid]. rewrite Hid.
  cbn [truthy_str]. destruct (String.eqb_spec id "") as [|_];
    [contradiction | reflexivity].
Qed.

Lemma merge_keeps_cached_disc_id_witness :
  let tb' :=
    mkTable
      ([mkTrack 1 true
          [mkIndex 1 (Some 0) (Some "a.wav") (Some 0) (Some 0)];
        mkTrack 2 true
          [mkIndex 1 (Some 15000) (Some "a.wav") (Some 15000) (Some 0)]]
       ++ [shift_track (Some 2) 2 41550 0
             (mkTrack 1 false
                [mkIndex 1 (Some 0) (Some "b.iso") (Some 0) (Some 1)])])
      (Some 46550) None ∅ (Some "KTJhSUpNg798PQihgkuYevO8ngc-") in
  getMusicBrainzDiscId tb' = (tb', Ok "KTJhSUpNg798PQihgkuYevO8ngc-").
Proof.
  apply (merge_keeps_cached_disc_id two_sessions_cached 1 2 (Some 2)
           (mkTableObj 1 (Some 30150) None ∅
              (Some "KTJhSUpNg798PQihgkuYevO8ngc-"))).
  - reflexivity.
  - reflexivity.
  - discriminate.
  - vm_compute. reflexivity.
Defined.

(** ** The first and the last index of a track *)

Lemma insert_sorted_elem (x y : Z) (l : list Z) :
  In y (insert_sorted x l) <-> y = x \/ In y l.
Proof.
  induction l as [|z l IH]; cbn [insert_sorted In];
    [intuition congruence|].
  destruct (x <=? z); cbn [In]; [intuition congruence|].
  rewrite IH. intuition congruence.
Qed.

Lemma sorted_keys_elem (y : Z) (l : list Z) :
  In y (sorted_keys l) <-> In y l.
Proof.
  induction l as [|x l IH]; cbn [sorted_keys fold_right In]; [tauto|].
  fold (sorted_keys l). rewrite insert_sorted_elem, IH. split.
  - intros [->|H]; auto.
  - intros [<-|H]; auto.
Qed.

Lemma insert_sorted_sorted (x : Z) (l : list Z) :
  StronglySorted Z.le l -> StronglySorted Z.le (insert_sorted x l).
Proof.
  induction 1 as [|z l Hs IH Hz]; cbn [insert_sorted].
  - constructor; constructor.
  - destruct (Z.leb_spec x z) as [Hle|Hgt].
    + constructor; [constructor; assumption|].
      constructor; [exact Hle|].
      eapply List.Forall_impl; [|exact Hz]. intros a Ha. cbn beta in Ha. lia.
    + constructor; [exact IH|].
      apply List.Forall_forall. intros a Ha.
      apply insert_sorted_elem in Ha as [->|Ha]; [lia|].
      exact (proj1 (List.Forall_forall _ _) Hz a Ha).
Qed.

Lemma sorted_keys_sorted (l : list Z) : StronglySorted Z.le (sorted_keys l).
Proof.
  induction l as [|x l IH]; cbn [sorted_keys fold_right]; [constructor|].
  apply insert_sorted_sorted, IH.
Qed.

Lemma sorted_last_max (l : list Z) (m : Z) :
  StronglySorted Z.le l -> last l = Some m -> forall y, In y l -> y <= m.
Proof.
  induction 1 as [|z l Hs IH Hz]; intros Hlast y Hy; [destruct Hy|].
  destruct l as [|z' l'].
  - cbn in Hlast. injection Hlast as <-. destruct Hy as [->|[]]. lia.
  - change (last (z :: z' :: l')) with (last (z' :: l')) in Hlast.
    assert (Hm : In m (z' :: l')).
    { apply list_elem_of_In, list_elem_of_lookup.
      rewrite last_lookup in Hlast. eauto. }
    destruct Hy as [->|Hy]; [|exact (IH Hlast y Hy)].
    exact (proj1 (List.Forall_forall _ _) Hz m Hm).
Qed.

Lemma keys_dict_get {V : Type} (d : dict V) (k : Z) :
  In k (keys d) -> exists v, dict_get d k = Some v.
Proof.
  induction d as [|[k' v'] d IH]; cbn [keys map fst In dict_get]; [tauto|].
  intros [->|H].
  - rewrite Z.eqb_refl. eauto.
  - destruct (k' =? k); [eauto | exact (IH H)].
Qed.

(** [getFirstIndex] returns the index stored under the lowest key
    of the track and [getLastIndex] the one under the highest, wherever
    [keys()] lists them; on a track without indexes both raise
    [IndexError], and on every other track both return. *)
Theorem getFirstIndex_getLastIndex_extremes (tr : Track.t) :
  (Track.indexes tr = [] ->
   Track.getFirstIndex tr = Raise IndexError
   /\ Track.getLastIndex tr = Raise IndexError)
  /\ (Track.indexes tr <> [] ->
      exists lo hi ixlo ixhi,
        Track.getFirstIndex tr = Ok ixlo
        /\ Track.getLastIndex tr = Ok ixhi
        /\ dict_get (Track.indexes tr) lo = Some ixlo
        /\ dict_get (Track.indexes tr) hi = Some ixhi
        /\ forall k, In k (keys (Track.indexes tr)) -> lo <= k <= hi).
Proof.
  split.
  - intros H. unfold Track.getFirstIndex, Track.getLastIndex.
    destruct (Track.indexes tr); [|discriminate]. split; reflexivity.
  - intros Hne. unfold Track.getFirstIndex, Track.getLastIndex.
    set (ks := sorted_keys (keys (Track.indexes tr))).
    pose proof (sorted_keys_sorted (keys (Track.indexes tr))) as Hs.
    fold ks in Hs.
    assert (Hks : ks <> []).
    { intros E. destruct (Track.indexes tr) as [|[k v] d] eqn:Ed;
        [contradiction|].
      assert (Hin : In k ks)
        by (apply sorted_keys_elem; left; reflexivity).
      rewrite E in Hin. destruct Hin. }
    destruct ks as [|lo rest] eqn:Eks; [contradiction|].
    destruct (last (lo :: rest)) as [hi|] eqn:Ehi;
      [|apply last_None in Ehi; discriminate].
    assert (Hlo : In lo (keys (Track.indexes tr)))
      by (apply sorted_keys_elem; fold ks; rewrite Eks; left; reflexivity).
    assert (Hhi : In hi (keys (Track.indexes tr))).
    { apply sorted_keys_elem. fold ks. rewrite Eks.
      apply list_elem_of_In, list_elem_of_lookup.
      rewrite last_lookup in Ehi. eauto. }
    destruct (keys_dict_get _ _ Hlo) as [ixlo Hixlo].
    destruct (keys_dict_get _ _ Hhi) as [ixhi Hixhi].
    exists lo, hi, ixlo, ixhi.
    change (py_getitem (lo :: rest) 0) with (Ok (A := Z) lo).
    rewrite (py_getitem_last _ _ Ehi). cbn [rbind].
    unfold dict_getitem. rewrite Hixlo, Hixhi.
    repeat split; try reflexivity.
    + assert (Hk : In k (lo :: rest))
        by (rewrite <- Eks; apply sorted_keys_elem; assumption).
      inversion Hs as [|? ? _ Hall]; subst.
      destruct Hk as [<-|Hk]; [lia|].
      exact (proj1 (List.Forall_forall _ _) Hall k Hk).
    + apply (sorted_last_max (lo :: rest) hi Hs Ehi).
      rewrite <- Eks. apply sorted_keys_elem. assumption.
Qed.

(** ** The FILE line of a cue sheet *)

Lemma py_getitem_index_at (tb : Table) (k i : Z) (track : Track.t)
    (index : Index.t) :
  py_getitem (tracks tb) k = Ok track ->
  Track.getIndex track i = Ok index ->
  exists p q : nat, index_at tb p q = Some index.
Proof.
  intros Ht Hi. destruct (py_getitem_Some _ _ _ Ht) as [_ Hp].
  unfold Track.getIndex, dict_getitem in Hi.
  destruct (dict_get (Track.indexes track) i) as [v|] eqn:E; [|discriminate].
  injection Hi as ->. destruct (dict_get_lookup _ _ _ E) as [q Hq].
  eexists _, q. unfold index_at. rewrite Hp. cbn. unfold dict in *.
  rewrite Hq. reflexivity.
Qed.

Lemma cue_first_file_found (tb : Table) (fuel : nat) :
  forall (track : Track.t) (index : Index.t) (counter : option Z)
         (ix : Index.t) (c : option Z),
    cue_first_file fuel tb track index counter = Some (Ok (ix, c)) ->
    truthy_str (Index.path ix) = true
    /\ (ix = index \/ exists p q : nat, index_at tb p q = Some ix).
Proof.
  induction fuel as [|fuel IH]; intros track index counter ix c H;
    [discriminate|].
  cbn [cue_first_file] in H.
  destruct (truthy_str (Index.path index)) eqn:Hp; cbn [negb] in H.
  - injection H as <- <-. auto.
  - destruct (getNextTrackIndex tb (Track.number track) (Index.number index))
      as [[t i]|e]; [|discriminate]. cbn [rbind] in H.
    destruct (py_getitem (tracks tb) (t - 1)) as [track'|e] eqn:Ht;
      [|discriminate]. cbn [rbind] in H.
    destruct (Track.getIndex track' i) as [index'|e] eqn:Hi; [|discriminate].
    cbn [rbind] in H.
    destruct (IH _ _ _ _ _ H) as [Htruthy [->|Hin]].
    + split; [exact Htruthy|]. right.
      exact (py_getitem_index_at tb _ _ _ _ Ht Hi).
    + auto.
Qed.

(** One case split on the way through a result-valued body: a test, a
    path, or the first computation of a chain of binds. *)
Ltac innermost x :=
  lazymatch x with
  | rbind ?y _ => innermost y
  | _ => constr:(x)
  end.

Ltac cue_case H :=
  match type of H with
  | context [if ?b then _ else _] => destruct b; cbn [rbind] in H
  | context [match Index.path ?x with _ => _ end] =>
      destruct (Index.path x); cbn [rbind] in H
  | context [rbind ?x _] =>
      let y := innermost x in
      destruct y; cbn [rbind] in H; [|discriminate H]
  end.

Section CueFile.
Variable getRelativePath : string -> string -> string.
Variable framesToMSF : Z -> string.
Variables version cuePath program : string.

Lemma cue_indexes_prefix (i : Z) (track : Track.t) (indexOne : Index.t)
    (indexes todo : list Z) :
  forall (counter : option Z) (wroteTrack : bool) (lines : list string)
         (c : option Z) (lines' : list string),
    cue_indexes getRelativePath framesToMSF cuePath i track indexOne indexes
      todo counter wroteTrack lines = Ok (c, lines') ->
    exists rest, lines' = lines ++ rest.
Proof.
  induction todo as [|number todo IH];
    intros counter wroteTrack lines c lines' H; cbn [cue_indexes] in H.
  - injection H as _ <-. exists []. rewrite app_nil_r. reflexivity.
  - unfold write_counted_file in H. repeat cue_case H;
      apply IH in H as [rest ->]; rewrite <- ?app_assoc;
      eexists; reflexivity.
Qed.

Lemma cue_tracks_prefix (l : list Track.t) :
  forall (i : Z) (indexOne : Index.t) (counter : option Z)
         (lines lines' : list string),
    cue_tracks getRelativePath framesToMSF cuePath l i indexOne counter lines
    = Ok lines' ->
    exists rest, lines' = lines ++ rest.
Proof.
  induction l as [|track l IH]; intros i indexOne counter lines lines' H;
    cbn [cue_tracks] in H.
  - injection H as <-. exists []. rewrite app_nil_r. reflexivity.
  - destruct (negb (Track.audio track)); [exact (IH _ _ _ _ _ H)|].
    destruct (cue_indexes _ _ _ _ _ _ _ _ _ _ _) as [[c block]|e];
      [|discriminate]. cbn [rbind] in H.
    apply IH in H as [rest ->]. rewrite <- app_assoc. eauto.
Qed.

(** A cue sheet that [cue] returns has a [FILE] line, and the file
    it names is the path of an index of the table: on a table none of
    whose indexes has a path, [cue] does not return a sheet. *)
Theorem cue_has_FILE_line (tb : Table) (sheet : string) :
  cue getRelativePath framesToMSF version cuePath program tb
  = Some (Ok sheet) ->
  exists (lines : list string) (p q : nat) (ix : Index.t) (path : string),
    sheet = str_join newline lines
    /\ index_at tb p q = Some ix
    /\ Index.path ix = Some path
    /\ path <> ""
    /\ In (writeFile getRelativePath cuePath path) lines.
Proof.
  unfold cue. intros H.
  destruct (cue_lines _ _ _ _ _ tb) as [[lines|e]|] eqn:Hl;
    try discriminate. injection H as <-. exists lines.
  unfold cue_lines in Hl.
  destruct (py_assert (hasTOC tb)); [|discriminate]. cbn [rbind] in Hl.
  destruct (getCDDBDiscId tb) as [discid|e]; [|discriminate].
  cbn [rbind] in Hl.
  destruct (py_getitem (tracks tb) 0) as [firstTrack|e] eqn:Hfirst;
    [|discriminate]. cbn [rbind] in Hl.
  destruct (Track.getFirstIndex firstTrack) as [index|e] eqn:Hindex;
    [|discriminate]. cbn [rbind] in Hl.
  destruct (Track.getIndex firstTrack 1) as [indexOne|e]; [|discriminate].
  cbn [rbind] in Hl.
  destruct (cue_first_file (walk_fuel tb) tb firstTrack index
              (Index.counter index)) as [[[ix c]|e]|] eqn:Hff;
    try discriminate.
  destruct (cue_first_file_found _ _ _ _ _ _ _ Hff) as [Htruthy Hin].
  assert (Hat : exists p q : nat, index_at tb p q = Some ix).
  { destruct Hin as [->|Hin]; [|exact Hin].
    destruct (py_getitem_Some _ _ _ Hfirst) as [_ Hp].
    destruct (getFirstIndex_at tb _ _ _ Hp Hindex) as [q Hq]. eauto. }
  destruct Hat as (p & q & Hat).
  destruct (Index.path ix) as [path|] eqn:Hpath; [|discriminate].
  unfold write_counted_file in Hl. rewrite Htruthy in Hl.
  destruct (as_int c) as [n|e]; [|discriminate]. cbn [rbind] in Hl.
  destruct (cue_tracks _ _ _ _ _ _ _ _) as [lines0|e] eqn:Hct;
    [|discriminate]. injection Hl as <-.
  apply cue_tracks_prefix in Hct as [rest ->].
  exists p, q, ix, path. split; [reflexivity|]. split; [exact Hat|].
  split; [exact Hpath|]. split.
  - intros ->. discriminate Htruthy.
  - rewrite !in_app_iff. left. left. right. left. reflexivity.
Qed.
Lemma cue_indexes_TRACK_line (i : Z) (track : Track.t) (indexOne : Index.t)
    (indexes : list Z) (number : Z) (todo : list Z) (counter : option Z)
    (lines : list string) (c : option Z) (lines' : list string) :
  cue_indexes getRelativePath framesToMSF cuePath i track indexOne indexes
    (number :: todo) counter false lines = Ok (c, lines') ->
  In ("  TRACK " +:+ format_0d 2 (i + 1) +:+ " AUDIO") lines'.
Proof.
  intros H. cbn [cue_indexes negb] in H.
  unfold write_counted_file in H. repeat cue_case H;
    apply cue_indexes_prefix in H as [rest ->];
    unfold cue_track_header; rewrite !in_app_iff; cbn [In]; auto 12.
Qed.

Lemma cue_tracks_TRACK_lines (l : list Track.t) :
  forall (i : Z) (indexOne : Index.t) (counter : option Z)
         (lines lines' : list string) (k : nat) (track : Track.t),
    cue_tracks getRelativePath framesToMSF cuePath l i indexOne counter lines
    = Ok lines' ->
    l !! k = Some track ->
    Track.audio track = true ->
    Track.indexes track <> [] ->
    In ("  TRACK " +:+ format_0d 2 (i + Z.of_nat k + 1) +:+ " AUDIO") lines'.
Proof.
  induction l as [|tr l IH];
    intros i indexOne counter lines lines' k track H Hk Ha Hne;
    [discriminate|].
  cbn [cue_tracks] in H. destruct k as [|k].
  - injection Hk as ->. rewrite Ha in H. cbn [negb] in H.
    destruct (sorted_keys (keys (Track.indexes track))) as [|number todo]
      eqn:Eks.
    { exfalso. destruct (Track.indexes track) as [|[k0 v0] d] eqn:Ed;
        [contradiction|].
      assert (Hin : In k0 (sorted_keys (keys ((k0, v0) :: d))))
        by (apply sorted_keys_elem; left; reflexivity).
      rewrite Eks in Hin. destruct Hin. }
    destruct (cue_indexes _ _ _ _ _ _ _ _ _ _ _) as [[c block]|e] eqn:Hb;
      [|discriminate]. cbn [rbind] in H.
    apply cue_indexes_TRACK_line in Hb.
    apply cue_tracks_prefix in H as [rest ->].
    replace (i + Z.of_nat 0 + 1) with (i + 1) by lia.
    rewrite !in_app_iff. auto.
  - cbn in Hk.
    replace (i + Z.of_nat (S k) + 1) with (i + 1 + Z.of_nat k + 1) by lia.
    destruct (negb (Track.audio tr)).
    + exact (IH _ _ _ _ _ _ _ H Hk Ha Hne).
    + destruct (cue_indexes _ _ _ _ _ _ _ _ _ _ _) as [[c block]|e];
        [|discriminate]. cbn [rbind] in H.
      exact (IH _ _ _ _ _ _ _ H Hk Ha Hne).
Qed.

(** A cue sheet that [cue] returns has a [TRACK] line for every audio
    track that has an index, and the number on it is the position of the
    track in the list, data tracks counted, whatever the number of the
    track is. *)
Theorem cue_TRACK_lines_by_position (tb : Table) (sheet : string) :
  cue getRelativePath framesToMSF version cuePath program tb
  = Some (Ok sheet) ->
  exists lines : list string,
    sheet = str_join newline lines
    /\ forall (k : nat) (track : Track.t),
         tracks tb !! k = Some track ->
         Track.audio track = true ->
         Track.indexes track <> [] ->
         In ("  TRACK " +:+ format_0d 2 (Z.of_nat k + 1) +:+ " AUDIO") lines.
Proof.
  unfold cue. intros H.
  destruct (cue_lines _ _ _ _ _ tb) as [[lines|e]|] eqn:Hl;
    try discriminate. injection H as <-. exists lines.
  split; [reflexivity|]. intros k track Hk Ha Hne.
  unfold cue_lines in Hl.
  destruct (py_assert (hasTOC tb)); [|discriminate]. cbn [rbind] in Hl.
  destruct (getCDDBDiscId tb) as [discid|e]; [|discriminate].
  cbn [rbind] in Hl.
  destruct (py_getitem (tracks tb) 0) as [firstTrack|e]; [|discriminate].
  cbn [rbind] in Hl.
  destruct (Track.getFirstIndex firstTrack) as [index|e]; [|discriminate].
  cbn [rbind] in Hl.
  destruct (Track.getIndex firstTrack 1) as [indexOne|e]; [|discriminate].
  cbn [rbind] in Hl.
  destruct (cue_first_file (walk_fuel tb) tb firstTrack index
              (Index.counter index)) as [[[ix c]|e]|]; try discriminate.
  destruct (write_counted_file _ _ _ _ _) as [lines1|e]; [|discriminate].
  cbn [rbind] in Hl.
  destruct (cue_tracks _ _ _ _ _ _ _ _) as [lines0|e] eqn:Hct;
    [|discriminate]. injection Hl as <-.
  pose proof (cue_tracks_TRACK_lines _ _ _ _ _ _ k track Hct Hk Ha Hne) as Hin.
  replace (0 + Z.of_nat k + 1) with (Z.of_nat k + 1) in Hin by lia.
  rewrite in_app_iff. left. exact Hin.
Qed.
End CueFile.

Lemma cue_has_FILE_line_witness :
  let getRelativePath := fun (path _ : string) => path in
  let sheet :=
    str_join newline
      ["REM DISCID 02000D01";
       "REM COMMENT " +:+ dquote +:+ "whipper 0.7" +:+ dquote;
       "FILE " +:+ dquote +:+ "a.wav" +:+ dquote +:+ " WAVE";
       "  TRACK 01 AUDIO";
       "    FLAGS PRE";
       "    INDEX 01 00:00:00";
       ""] in
  exists (lines : list string) (p q : nat) (ix : Index.t) (path : string),
    sheet = str_join newline lines
    /\ index_at no_pre_emphasis p q = Some ix
    /\ Index.path ix = Some path
    /\ path <> ""
    /\ In (writeFile getRelativePath "" path) lines.
Proof.
  apply (cue_has_FILE_line (fun path _ => path) (fun _ => "00:00:00") "0.7"
           "" "whipper" no_pre_emphasis).
  vm_compute. reflexivity.
Defined.

(** ** Audio and data tracks *)

Lemma filter_split_length {A : Type} (f : A -> bool) (l : list A) :
  (length (List.filter f l) + length (List.filter (fun x => negb (f x)) l)
   = length l)%nat.
Proof.
  induction l as [|x l IH]; [reflexivity|]. cbn [List.filter].
  destruct (f x); cbn [negb length]; lia.
Qed.

(** The two counts agree: the audio tracks are at most the tracks of the
    disc, and [hasDataTracks] holds exactly when they are fewer. *)
Theorem hasDataTracks_getAudioTracks (tb : Table) :
  0 <= getAudioTracks tb <= len_tracks tb
  /\ (hasDataTracks tb = true <-> getAudioTracks tb < len_tracks tb).
Proof.
  unfold hasDataTracks, getAudioTracks, len_tracks.
  pose proof (filter_split_length (fun t => Track.audio t) (tracks tb)) as H.
  cbn beta in H. split; [lia|].
  destruct (Z.ltb_spec 0
              (Z.of_nat (length (List.filter
                                   (fun t => negb (Track.audio t))
                                   (tracks tb))))) as [Hlt|Hge];
    split; intros; try lia; try reflexivity; try discriminate.
Qed.

Lemma cue_TRACK_lines_by_position_witness :
  let sheet :=
    str_join newline
      ["REM DISCID 02000D01";
       "REM COMMENT " +:+ dquote +:+ "whipper 0.7" +:+ dquote;
       "FILE " +:+ dquote +:+ "a.wav" +:+ dquote +:+ " WAVE";
       "  TRACK 01 AUDIO";
       "    FLAGS PRE";
       "    INDEX 01 00:00:00";
       ""] in
  exists lines : list string,
    sheet = str_join newline lines
    /\ forall (k : nat) (track : Track.t),
         tracks no_pre_emphasis !! k = Some track ->
         Track.audio track = true ->
         Track.indexes track <> [] ->
         In ("  TRACK " +:+ format_0d 2 (Z.of_nat k + 1) +:+ " AUDIO") lines.
Proof.
  apply (cue_TRACK_lines_by_position (fun path _ => path)
           (fun _ => "00:00:00") "0.7" "" "whipper" no_pre_emphasis).
  vm_compute. reflexivity.
Defined.
